(** * wiki2docx: a shallow embedding of the fetch-and-convert pipeline

    The Go program fetches Wikipedia articles and writes each one as a
    minimal .docx archive.  This development embeds the pure parts of the
    three packages (internal/docx, internal/wiki, main) together with the
    pieces of the Go standard library they call, and proves the properties
    the specification states about them.

    Go strings are byte sequences: they are modelled as [list ascii], and
    every length below is a length in bytes, as Go's [len] is. *)

From Stdlib Require Import ZArith List Ascii String Lia Bool.
From stdpp Require Import gmap strings list.

Local Open Scope Z_scope.

Abbreviation bytes := (list ascii).

(** A Go string literal. *)
Definition str (s : string) : bytes := list_ascii_of_string s.

(** A Go raw string literal that contains double quotes, written here with
    an apostrophe for every double quote (none of the program's literals
    contains an apostrophe). *)
Definition q (s : string) : bytes :=
  map (fun c => if Ascii.eqb c "'"%char then "034"%char else c) (str s).

(** The numeric value of a byte. *)
Definition byteZ (c : ascii) : Z := Z.of_N (N_of_ascii c).

Definition LF : ascii := "010"%char.
Definition SP : ascii := " "%char.
Definition DQ : ascii := "034"%char.
Definition US : ascii := "_"%char.

Definition is_byte (a c : ascii) : bool := Ascii.eqb c a.

(** Prepend a byte to the first chunk of a non-empty list of chunks. *)
Definition cons_head (c : ascii) (l : list bytes) : list bytes :=
  match l with
  | [] => [[c]]
  | h :: t => (c :: h) :: t
  end.

(** ** Package unicode/utf8 *)
Module utf8.

Definition RuneError : Z := 0xFFFD.
Definition RuneSelf : Z := 0x80.
Definition UTFMax : nat := 4.

(** utf8.DecodeRune: the first rune of [p] and its width in bytes; an
    invalid or truncated encoding gives (RuneError, 1), the empty input
    (RuneError, 0). *)
Definition DecodeRune (p : bytes) : Z * nat :=
  match p with
  | [] => (RuneError, 0%nat)
  | c0 :: p1 =>
    let p0 := byteZ c0 in
    if p0 <? RuneSelf then (p0, 1%nat)
    else if (p0 <? 0xC2) || (0xF4 <? p0) then (RuneError, 1%nat)
    else
      let sz := if p0 <? 0xE0 then 2%nat else if p0 <? 0xF0 then 3%nat else 4%nat in
      let lo := if p0 =? 0xE0 then 0xA0 else if p0 =? 0xF0 then 0x90 else 0x80 in
      let hi := if p0 =? 0xED then 0x9F else if p0 =? 0xF4 then 0x8F else 0xBF in
      if (length p <? sz)%nat then (RuneError, 1%nat)
      else
        match p1 with
        | [] => (RuneError, 1%nat)
        | c1 :: p2 =>
          let b1 := byteZ c1 in
          if (b1 <? lo) || (hi <? b1) then (RuneError, 1%nat)
          else if (sz <=? 2)%nat then
            (Z.lor (Z.shiftl (Z.land p0 0x1F) 6) (Z.land b1 0x3F), 2%nat)
          else
            match p2 with
            | [] => (RuneError, 1%nat)
            | c2 :: p3 =>
              let b2 := byteZ c2 in
              if (b2 <? 0x80) || (0xBF <? b2) then (RuneError, 1%nat)
              else if (sz <=? 3)%nat then
                (Z.lor (Z.lor (Z.shiftl (Z.land p0 0x0F) 12)
                              (Z.shiftl (Z.land b1 0x3F) 6))
                       (Z.land b2 0x3F), 3%nat)
              else
                match p3 with
                | [] => (RuneError, 1%nat)
                | c3 :: _ =>
                  let b3 := byteZ c3 in
                  if (b3 <? 0x80) || (0xBF <? b3) then (RuneError, 1%nat)
                  else
                    (Z.lor (Z.lor (Z.lor (Z.shiftl (Z.land p0 0x07) 18)
                                         (Z.shiftl (Z.land b1 0x3F) 12))
                                  (Z.shiftl (Z.land b2 0x3F) 6))
                           (Z.land b3 0x3F), 4%nat)
                end
            end
        end
  end.

(** utf8.RuneStart: the byte is not a continuation byte. *)
Definition RuneStart (c : ascii) : bool :=
  negb (Z.land (byteZ c) 0xC0 =? 0x80).

(** The backward scan of DecodeLastRune: from index [start], at most
    [k] steps down and not below [lim], stop at the first rune start.
    The result is an integer: it is [lim - 1] when no rune start is found. *)
Fixpoint scanBack (k : nat) (p : bytes) (start lim : Z) : Z :=
  match k with
  | O => start
  | S k' =>
    if start <? lim then start
    else
      match nth_error p (Z.to_nat start) with
      | Some c => if RuneStart c then start else scanBack k' p (start - 1) lim
      | None => start
      end
  end.

(** utf8.DecodeLastRune: the last rune of [p] and its width. *)
Definition DecodeLastRune (p : bytes) : Z * nat :=
  let end_ := Z.of_nat (length p) in
  match last p with
  | None => (RuneError, 0%nat)
  | Some c =>
    let r := byteZ c in
    if r <? RuneSelf then (r, 1%nat)
    else
      let lim := Z.max 0 (end_ - Z.of_nat UTFMax) in
      let start := scanBack UTFMax p (end_ - 2) lim in
      let start := Z.max 0 start in
      let '(r, size) := DecodeRune (drop (Z.to_nat start) p) in
      if start + Z.of_nat size =? end_ then (r, size) else (RuneError, 1%nat)
  end.

(** utf8.RuneCountInString: every step consumes the width of one rune
    (at least one byte on a non-empty input). *)
Fixpoint RuneCount_go (fuel : nat) (p : bytes) : nat :=
  match fuel with
  | O => O
  | S fuel' =>
    match p with
    | [] => O
    | _ :: _ => S (RuneCount_go fuel' (drop (snd (DecodeRune p)) p))
    end
  end.

Definition RuneCountInString (p : bytes) : nat := RuneCount_go (length p) p.

End utf8.

(** ** Package unicode *)
Module unicode.

(** unicode.IsSpace: the Latin-1 spaces and the White_Space table. *)
Definition IsSpace (r : Z) : bool :=
  if r <=? 0xFF then
    (r =? 0x09) || (r =? 0x0A) || (r =? 0x0B) || (r =? 0x0C) || (r =? 0x0D)
    || (r =? 0x20) || (r =? 0x85) || (r =? 0xA0)
  else
    (r =? 0x1680) || ((0x2000 <=? r) && (r <=? 0x200A))
    || (r =? 0x2028) || (r =? 0x2029) || (r =? 0x202F) || (r =? 0x205F)
    || (r =? 0x3000).

End unicode.

(** ** Package strings *)
Module gostrings.

(** strings.HasPrefix. *)
Fixpoint HasPrefix (s prefix : bytes) {struct prefix} : bool :=
  match prefix, s with
  | [], _ => true
  | _ :: _, [] => false
  | p :: prefix', c :: s' => Ascii.eqb c p && HasPrefix s' prefix'
  end.

(** The first occurrence of a non-empty [sep] in [s], as strings.Index
    finds it, returned as the text before it and the text after it
    (strings.Cut).  [None] when [sep] does not occur. *)
Fixpoint Cut (s sep : bytes) : option (bytes * bytes) :=
  match s with
  | [] => None
  | c :: s' =>
    if HasPrefix s sep then Some ([], drop (length sep) s)
    else match Cut s' sep with
         | Some (before, after) => Some (c :: before, after)
         | None => None
         end
  end.

(** strings.Split(s, sep) for a non-empty separator (genSplit with
    n = -1): cut at every occurrence, left to right, without overlap. *)
Fixpoint Split_go (fuel : nat) (s sep : bytes) : list bytes :=
  match Cut s sep with
  | None => [s]
  | Some (before, after) =>
    match fuel with
    | O => [s]
    | S fuel' => before :: Split_go fuel' after sep
    end
  end.

Definition Split (s sep : bytes) : list bytes := Split_go (length s) s sep.

(** strings.ReplaceAll(s, old, new) for a non-empty [old]. *)
Fixpoint ReplaceAll_go (fuel : nat) (s old new : bytes) : bytes :=
  match Cut s old with
  | None => s
  | Some (before, after) =>
    match fuel with
    | O => s
    | S fuel' => before ++ new ++ ReplaceAll_go fuel' after old new
    end
  end.

Definition ReplaceAll (s old new : bytes) : bytes :=
  ReplaceAll_go (length s) s old new.

(** strings.indexFunc: the byte index of the first rune [r] of [s] with
    [f r = truth]; [rest] is [s] from index [i] on. *)
Fixpoint indexFunc_go (fuel : nat) (f : Z -> bool) (truth : bool)
    (rest : bytes) (i : nat) : option nat :=
  match fuel with
  | O => None
  | S fuel' =>
    match rest with
    | [] => None
    | _ :: _ =>
      let '(r, w) := utf8.DecodeRune rest in
      if Bool.eqb (f r) truth then Some i
      else indexFunc_go fuel' f truth (drop w rest) (i + w)%nat
    end
  end.

Definition indexFunc (s : bytes) (f : Z -> bool) (truth : bool) : option nat :=
  indexFunc_go (length s) f truth s 0%nat.

(** strings.lastIndexFunc: the same from the right, with DecodeLastRune. *)
Fixpoint lastIndexFunc_go (fuel : nat) (f : Z -> bool) (truth : bool)
    (s : bytes) (i : nat) : option nat :=
  match fuel with
  | O => None
  | S fuel' =>
    match i with
    | O => None
    | S _ =>
      let '(r, size) := utf8.DecodeLastRune (take i s) in
      let i' := (i - size)%nat in
      if Bool.eqb (f r) truth then Some i'
      else lastIndexFunc_go fuel' f truth s i'
    end
  end.

Definition lastIndexFunc (s : bytes) (f : Z -> bool) (truth : bool) : option nat :=
  lastIndexFunc_go (length s) f truth s (length s).

Definition TrimLeftFunc (s : bytes) (f : Z -> bool) : bytes :=
  match indexFunc s f false with
  | None => []
  | Some i => drop i s
  end.

Definition TrimRightFunc (s : bytes) (f : Z -> bool) : bytes :=
  match lastIndexFunc s f false with
  | None => []
  | Some i =>
    match nth_error s i with
    | Some c =>
      if utf8.RuneSelf <=? byteZ c
      then take (i + snd (utf8.DecodeRune (drop i s))) s
      else take (S i) s
    | None => take (S i) s
    end
  end.

Definition TrimFunc (s : bytes) (f : Z -> bool) : bytes :=
  TrimRightFunc (TrimLeftFunc s f) f.

(** strings.TrimSpace: Go runs an ASCII fast path first and falls back to
    TrimFunc(s, unicode.IsSpace) on the first non-ASCII byte; the result is
    that of TrimFunc in both cases. *)
Definition TrimSpace (s : bytes) : bytes := TrimFunc s unicode.IsSpace.

(** strings.Trim(s, cutset) for a cutset of one ASCII byte [c]:
    trimLeftByte(trimRightByte(s, c), c). *)
Fixpoint trimLeftByte (s : bytes) (c : ascii) : bytes :=
  match s with
  | [] => []
  | x :: s' => if Ascii.eqb x c then trimLeftByte s' c else s
  end.

Fixpoint trimRightByte (s : bytes) (c : ascii) : bytes :=
  match s with
  | [] => []
  | x :: s' =>
    match trimRightByte s' c with
    | [] => if Ascii.eqb x c then [] else [x]
    | r => x :: r
    end
  end.

Definition Trim1 (s : bytes) (c : ascii) : bytes :=
  trimLeftByte (trimRightByte s c) c.

End gostrings.

(** ** Package regexp, for a pattern of the form [class]+ *)
Module regexp.

(** The longest prefix of [s] whose bytes satisfy [cls], and the rest. *)
Fixpoint spanClass (cls : ascii -> bool) (s : bytes) : bytes * bytes :=
  match s with
  | [] => ([], [])
  | c :: s' =>
    if cls c then let '(m, r) := spanClass cls s' in (c :: m, r)
    else ([], s)
  end.

(** Regexp.ReplaceAllString for the pattern [class]+ over an ASCII class:
    find the leftmost byte of the class, extend the match greedily, copy
    what precedes it, write [repl], and go on after the match. *)
Fixpoint ReplaceAllString_go (fuel : nat) (cls : ascii -> bool)
    (src repl : bytes) : bytes :=
  match fuel with
  | O => src
  | S fuel' =>
    let '(before, from) := spanClass (fun c => negb (cls c)) src in
    match from with
    | [] => before
    | _ :: _ =>
      let '(_, after) := spanClass cls from in
      before ++ repl ++ ReplaceAllString_go fuel' cls after repl
    end
  end.

Definition ReplaceAllString (cls : ascii -> bool) (src repl : bytes) : bytes :=
  ReplaceAllString_go (S (length src)) cls src repl.

End regexp.

(** ** The environment: file system, network and fault schedule *)

(** Go errors, with the wrapping that fmt.Errorf("...: %w", err) adds. *)
Inductive error : Type :=
| ErrIO (op : bytes)
| ErrNewRequest
| ErrTransport
| ErrStatus (code : Z)
| ErrDecode
| ErrNotFound (title : bytes)
| ErrTooLong
| Wrap (msg : bytes) (e : error).

(** One page record of a query response. *)
Record Page : Type := mkPage { page_title : bytes; page_extract : bytes }.

(** A decoded response body: the pages of query.pages in the order in
    which the Go map happens to be iterated, and the titles of
    query.random; or a body that is not valid JSON. *)
Inductive Body : Type :=
| Malformed
| Json (pages : list Page) (random : list bytes).

(** What happens to one HTTP request. *)
Inductive HttpOutcome : Type :=
| NewRequestError
| DoError
| Reply (status : Z) (body : Body).

(** The requests the program sends. *)
Inductive Request : Type :=
| ReqExtract (title : bytes)
| ReqRandom (rnlimit : Z).

(** An archive on disk: its entries, in the order they were created. *)
Abbreviation archive := (list (bytes * bytes)).

Record World : Type := mkWorld {
  fs : gmap bytes archive;        (* files written, by path *)
  dirs : gset bytes;              (* directories created *)
  texts : gmap bytes bytes;       (* readable text files, by path *)
  faults : list bool;             (* one flag per file operation: true = it fails *)
  http : list HttpOutcome;        (* one outcome per request to come, in order *)
  calls : list (Request * HttpOutcome)  (* the requests made so far, with their outcomes *)
}.

Definition refused (o : HttpOutcome) : bool :=
  match o with NewRequestError => true | _ => false end.

(** The requests that went out on the network: all but those that
    http.NewRequest refused. *)
Definition sent (w : World) : list Request :=
  map fst (List.filter (fun c => negb (refused (snd c))) (calls w)).

Inductive result (A : Type) : Type :=
| Ok (a : A)
| Err (e : error).
Arguments Ok {A} a.
Arguments Err {A} e.

(** State and error monad over the environment. *)
Definition IO (A : Type) : Type := World -> result A * World.

Definition ret {A} (a : A) : IO A := fun w => (Ok a, w).
Definition fail {A} (e : error) : IO A := fun w => (Err e, w).
Definition bind {A B} (m : IO A) (k : A -> IO B) : IO B :=
  fun w => match m w with
           | (Ok a, w') => k a w'
           | (Err e, w') => (Err e, w')
           end.
(** [if err != nil { return fmt.Errorf("msg: %w", err) }] *)
Definition wrapErr {A} (msg : bytes) (m : IO A) : IO A :=
  fun w => match m w with
           | (Ok a, w') => (Ok a, w')
           | (Err e, w') => (Err (Wrap msg e), w')
           end.

Notation "x <- m ;; k" := (bind m (fun x => k))
  (at level 100, m at next level, right associativity).
Notation "m ;;; k" := (bind m (fun _ => k))
  (at level 100, right associativity).

(** The next flag of the fault schedule; no fault once it is used up. *)
Definition nextFault (w : World) : bool * World :=
  match faults w with
  | [] => (false, w)
  | b :: rest =>
    (b, mkWorld (fs w) (dirs w) (texts w) rest (http w) (calls w))
  end.

Definition setFs (f : gmap bytes archive) (w : World) : World :=
  mkWorld f (dirs w) (texts w) (faults w) (http w) (calls w).

Definition fileOp (name : bytes) (effect : World -> World) : IO unit :=
  fun w => let '(bad, w') := nextFault w in
           if bad then (Err (ErrIO name), w') else (Ok tt, effect w').

(** os.MkdirAll *)
Definition MkdirAll (dir : bytes) : IO unit :=
  fileOp (str "mkdir") (fun w =>
    mkWorld (fs w) ({[dir]} ∪ dirs w) (texts w) (faults w) (http w) (calls w)).

(** os.Create: the file exists and is empty. *)
Definition osCreate (path : bytes) : IO unit :=
  fileOp (str "create") (fun w => setFs (<[path := []]> (fs w)) w).

(** zip.Writer.Create: a new entry, empty so far, after the others. *)
Definition zipCreate (path name : bytes) : IO unit :=
  fileOp (str "zip create") (fun w =>
    setFs (<[path := default [] (fs w !! path) ++ [(name, [])]]> (fs w)) w).

(** Write on the writer that zip.Writer.Create returned: the content of
    the entry created last. *)
Definition setLast (content : bytes) (a : archive) : archive :=
  match reverse a with
  | [] => []
  | (name, old) :: before => reverse before ++ [(name, old ++ content)]
  end.

Definition zipWrite (path content : bytes) : IO unit :=
  fileOp (str "zip write") (fun w =>
    setFs (<[path := setLast content (default [] (fs w !! path))]> (fs w)) w).

(** One request: the rate limiter's wait() only delays the caller and is
    not modelled.  The outcome is the next one of the environment. *)
Definition httpGet (req : Request) : IO Body :=
  fun w =>
    let '(o, rest) := match http w with
                      | [] => (DoError, [])
                      | o :: rest => (o, rest)
                      end in
    let w' := mkWorld (fs w) (dirs w) (texts w) (faults w) rest (calls w ++ [(req, o)]) in
    match o with
    | NewRequestError => (Err ErrNewRequest, w')
    | DoError => (Err ErrTransport, w')
    | Reply status body =>
      if negb (status =? 200) then (Err (ErrStatus status), w')
      else match body with
           | Malformed => (Err ErrDecode, w')
           | Json _ _ => (Ok body, w')
           end
    end.

(** ** Package encoding/xml *)
Module goxml.

Definition isInCharacterRange (r : Z) : bool :=
  (r =? 0x09) || (r =? 0x0A) || (r =? 0x0D)
  || ((0x20 <=? r) && (r <=? 0xD7FF))
  || ((0xE000 <=? r) && (r <=? 0xFFFD))
  || ((0x10000 <=? r) && (r <=? 0x10FFFF)).

(** The UTF-8 encoding of U+FFFD. *)
Definition escFFFD : bytes := ["239"%char; "191"%char; "189"%char].

(** The switch of escapeText (with escapeNewline = true): the text written
    in place of the rune [r] read with width [width], or [None] when the
    rune is copied as it is. *)
Definition escOf (r : Z) (width : nat) : option bytes :=
  if r =? 34 then Some (str "&#34;")
  else if r =? 39 then Some (str "&#39;")
  else if r =? 38 then Some (str "&amp;")
  else if r =? 60 then Some (str "&lt;")
  else if r =? 62 then Some (str "&gt;")
  else if r =? 9 then Some (str "&#x9;")
  else if r =? 10 then Some (str "&#xA;")
  else if r =? 13 then Some (str "&#xD;")
  else if negb (isInCharacterRange r) || ((r =? utf8.RuneError) && (width =? 1)%nat)
       then Some escFFFD
  else None.

(** xml.EscapeText, rune by rune.  Go writes the unescaped stretches in one
    piece; the bytes written are the same. *)
Fixpoint escapeText_go (fuel : nat) (s : bytes) : bytes :=
  match fuel with
  | O => []
  | S fuel' =>
    match s with
    | [] => []
    | _ :: _ =>
      let '(r, width) := utf8.DecodeRune s in
      match escOf r width with
      | Some esc => esc
      | None => take width s
      end ++ escapeText_go fuel' (drop width s)
    end
  end.

Definition EscapeText (s : bytes) : bytes := escapeText_go (length s) s.

End goxml.

(** ** Package internal/docx *)
Module docx.

(** The character class of the regular expression unsafeChars. *)
Definition unsafeChars (c : ascii) : bool :=
  is_byte "\"%char c || is_byte "/"%char c || is_byte ":"%char c
  || is_byte "*"%char c || is_byte "?"%char c || is_byte DQ c
  || is_byte "<"%char c || is_byte ">"%char c || is_byte "|"%char c
  || is_byte " "%char c.

Definition safeFilename (title : bytes) : bytes :=
  let s := regexp.ReplaceAllString unsafeChars title (str "_") in
  let s := gostrings.Trim1 s US in
  if (200 <? length s)%nat then take 200 s else s.

(** The loop of Build over the chunks. *)
Fixpoint paragraphLoop (chunks : list bytes) : list bytes :=
  match chunks with
  | [] => []
  | chunk :: rest =>
    let chunk := gostrings.TrimSpace chunk in
    match chunk with
    | [] => paragraphLoop rest
    | _ :: _ => gostrings.ReplaceAll chunk [LF] [SP] :: paragraphLoop rest
    end
  end.

Definition bodyParagraphs (content : bytes) : list bytes :=
  paragraphLoop (gostrings.Split content [LF; LF]).

(** xmlEscape returns the empty string when xml.EscapeText reports an
    error; writing to a bytes.Buffer reports none. *)
Definition xmlEscape (s : bytes) : bytes := goxml.EscapeText s.

Definition headingOpen : bytes :=
  q "<w:p><w:r><w:rPr><w:b/><w:sz w:val='48'/></w:rPr><w:t xml:space='preserve'>".
Definition paraOpen : bytes :=
  q "<w:p><w:pPr><w:jc w:val='both'/></w:pPr><w:r><w:rPr><w:sz w:val='24'/></w:rPr><w:t xml:space='preserve'>".
Definition paraClose : bytes := str "</w:t></w:r></w:p>".
Definition docOpen : bytes :=
  q "<?xml version='1.0' encoding='UTF-8' standalone='yes'?>"
  ++ q "<w:document xmlns:w='http://schemas.openxmlformats.org/wordprocessingml/2006/main'>"
  ++ str "<w:body>".
Definition docClose : bytes :=
  q "<w:sectPr><w:pgSz w:w='12240' w:h='15840'/><w:pgMar w:top='1440' w:right='1440' w:bottom='1440' w:left='1440' w:header='708' w:footer='708' w:gutter='0'/></w:sectPr>"
  ++ str "</w:body></w:document>".

Fixpoint writeParagraphs (paragraphs : list bytes) : bytes :=
  match paragraphs with
  | [] => []
  | p :: rest => paraOpen ++ xmlEscape p ++ paraClose ++ writeParagraphs rest
  end.

Definition buildDocumentXML (title : bytes) (paragraphs : list bytes) : bytes :=
  docOpen ++ headingOpen ++ xmlEscape title ++ paraClose
  ++ writeParagraphs paragraphs ++ docClose.

Definition contentTypesXML : bytes :=
  q "<?xml version='1.0' encoding='UTF-8' standalone='yes'?>
<Types xmlns='http://schemas.openxmlformats.org/package/2006/content-types'>
  <Default Extension='rels' ContentType='application/vnd.openxmlformats-package.relationships+xml'/>
  <Default Extension='xml' ContentType='application/xml'/>
  <Override PartName='/word/document.xml' ContentType='application/vnd.openxmlformats-officedocument.wordprocessingml.document.main+xml'/>
</Types>".

Definition rootRelsXML : bytes :=
  q "<?xml version='1.0' encoding='UTF-8' standalone='yes'?>
<Relationships xmlns='http://schemas.openxmlformats.org/package/2006/relationships'>
  <Relationship Id='rId1' Type='http://schemas.openxmlformats.org/officeDocument/2006/relationships/officeDocument' Target='word/document.xml'/>
</Relationships>".

(** The closure addFile of writeDocx, on the archive at [path]. *)
Definition addFile (path name content : bytes) : IO unit :=
  zipCreate path name ;;; zipWrite path content.

(** The deferred zw.Close() and f.Close() write no entry and their errors
    are dropped. *)
Definition writeDocx (path title : bytes) (paragraphs : list bytes) : IO unit :=
  wrapErr (str "create file") (osCreate path) ;;;
  wrapErr (str "write [Content_Types].xml")
    (addFile path (str "[Content_Types].xml") contentTypesXML) ;;;
  wrapErr (str "write _rels/.rels")
    (addFile path (str "_rels/.rels") rootRelsXML) ;;;
  wrapErr (str "write word/document.xml")
    (addFile path (str "word/document.xml") (buildDocumentXML title paragraphs)).

Section Build.
(** filepath.Join, which the program takes from the standard library. *)
Variable Join : bytes -> bytes -> bytes.

Definition outPathOf (title outDir : bytes) : bytes :=
  Join outDir (safeFilename title ++ str ".docx").

Definition Build (title content outDir : bytes) : IO unit :=
  wrapErr (str "create output dir") (MkdirAll outDir) ;;;
  let bodyParagraphs := bodyParagraphs content in
  let filename := safeFilename title ++ str ".docx" in
  let outPath := Join outDir filename in
  wrapErr (str "save docx") (writeDocx outPath title bodyParagraphs).
End Build.

End docx.

(** ** Package internal/wiki *)
Module wiki.

Record Article : Type := mkArticle { Title : bytes; Content : bytes }.

(** Go's int: 64 bits, two's complement. *)
Definition wrap64 (x : Z) : Z := (x + 2 ^ 63) mod 2 ^ 64 - 2 ^ 63.
Definition int_range (x : Z) : Prop := - 2 ^ 63 <= x < 2 ^ 63.

Definition len {A} (l : list A) : Z := Z.of_nat (length l).

(** FetchArticle: the first page of the response in iteration order. *)
Definition FetchArticle (title : bytes) : IO Article :=
  body <- httpGet (ReqExtract title) ;;
  match body with
  | Json (page :: _) _ => ret (mkArticle (page_title page) (page_extract page))
  | _ => fail (ErrNotFound title)
  end.

(** The inner loop of GetRandomTitles over one batch. *)
Fixpoint addBatch (limit : Z) (batch : list bytes)
    (uniqueTitles : gset bytes) (result : list bytes) : gset bytes * list bytes :=
  match batch with
  | [] => (uniqueTitles, result)
  | t :: rest =>
    if decide (t ∈ uniqueTitles) then addBatch limit rest uniqueTitles result
    else
      let uniqueTitles := {[t]} ∪ uniqueTitles in
      let result := result ++ [t] in
      if limit <=? len result then (uniqueTitles, result)
      else addBatch limit rest uniqueTitles result
  end.

Definition maxAttemptsOf (limit : Z) : Z := wrap64 (limit * 3).

(** The outer loop of GetRandomTitles.  The function returns its partial
    result together with the error, as the Go function does.  [None] only
    when the fuel runs out. *)
Fixpoint randomLoop (fuel : nat) (limit maxAttempts : Z)
    (uniqueTitles : gset bytes) (result : list bytes) (attempts : Z)
    (w : World) : option ((list bytes * option error) * World) :=
  if (Z.of_nat (size uniqueTitles) <? limit) && (attempts <? maxAttempts) then
    match fuel with
    | O => None
    | S fuel' =>
      let attempts := wrap64 (attempts + 1) in
      let batchSize := wrap64 (limit - Z.of_nat (size uniqueTitles)) in
      let batchSize := if 500 <? batchSize then 500 else batchSize in
      match httpGet (ReqRandom batchSize) w with
      | (Err e, w') => Some ((result, Some e), w')
      | (Ok Malformed, w') => Some ((result, Some ErrDecode), w')
      | (Ok (Json _ random), w') =>
        if len random =? 0 then Some ((result, None), w')
        else
          let '(uniqueTitles, result) := addBatch limit random uniqueTitles result in
          randomLoop fuel' limit maxAttempts uniqueTitles result attempts w'
      end
    end
  else Some ((result, None), w).

Definition GetRandomTitles (limit : Z) (w : World)
  : option ((list bytes * option error) * World) :=
  let maxAttempts := maxAttemptsOf limit in
  randomLoop (Z.to_nat maxAttempts) limit maxAttempts ∅ [] 0 w.

(** The earlier revision of GetRandomTitles, on the go-wiki client: no
    set of seen titles and no bound on the attempts, batches of at most
    ten.  One call of gowiki.GetRandom is one request. *)
Fixpoint GetRandomTitles_gowiki_go (fuel : nat) (limit : Z) (titles : list bytes)
    (w : World) : option ((list bytes * option error) * World) :=
  if len titles <? limit then
    match fuel with
    | O => None
    | S fuel' =>
      let batch := wrap64 (limit - len titles) in
      let batch := if 10 <? batch then 10 else batch in
      match httpGet (ReqRandom batch) w with
      | (Err e, w') => Some ((titles, Some e), w')
      | (Ok Malformed, w') => Some ((titles, Some ErrDecode), w')
      | (Ok (Json _ results), w') =>
        GetRandomTitles_gowiki_go fuel' limit (titles ++ results) w'
      end
    end
  else Some ((titles, None), w).

End wiki.

(** ** Package bufio *)
Module bufio.

Definition MaxScanTokenSize : Z := 65536.

Definition CR : ascii := "013"%char.

(** dropCR of bufio.ScanLines. *)
Definition dropCR (data : bytes) : bytes :=
  match last data with
  | Some c => if Ascii.eqb c CR then take (length data - 1) data else data
  | None => data
  end.

(** The tokens that successive calls of Scanner.Scan return with the
    default split function ScanLines, and the error Scanner.Err reports.
    [cur] is the part of the current line read so far.  A line that does
    not fit the buffer of MaxScanTokenSize bytes together with its newline
    stops the scan with ErrTooLong; a final line without newline is a
    token unless it is empty. *)
Fixpoint scan_go (cur data : bytes) : list bytes * option error :=
  match data with
  | [] =>
    match cur with
    | [] => ([], None)
    | _ :: _ =>
      if MaxScanTokenSize <=? Z.of_nat (length cur) then ([], Some ErrTooLong)
      else ([dropCR cur], None)
    end
  | c :: rest =>
    if Ascii.eqb c LF then
      if MaxScanTokenSize <=? Z.of_nat (length cur) then ([], Some ErrTooLong)
      else let '(tokens, e) := scan_go [] rest in (dropCR cur :: tokens, e)
    else scan_go (cur ++ [c]) rest
  end.

Definition scanLines (data : bytes) : list bytes * option error := scan_go [] data.

End bufio.

(** ** Package main *)
Module cli.

(** The loop of readTitlesFromFile over the scanned lines. *)
Fixpoint titleLoop (lines : list bytes) : list bytes :=
  match lines with
  | [] => []
  | text :: rest =>
    let line := gostrings.TrimSpace text in
    if match line with [] => true | _ :: _ => false end
       || gostrings.HasPrefix line (str "#")
    then titleLoop rest
    else line :: titleLoop rest
  end.

Definition readTitlesFromFile (w : World) (path : bytes) : list bytes * option error :=
  match texts w !! path with
  | None => ([], Some (Wrap (str "open file") (ErrIO (str "open"))))
  | Some data =>
    let '(lines, e) := bufio.scanLines data in (titleLoop lines, e)
  end.

(** The merge of the flag aliases in main: -worker, then -w, replace the
    value of -workers when they are not zero. *)
Definition mergeWorkers (nWorkers workerAlias wAlias : Z) : Z :=
  let nWorkers := if negb (workerAlias =? 0) then workerAlias else nWorkers in
  if negb (wAlias =? 0) then wAlias else nWorkers.

Section Pool.
Variable Join : bytes -> bytes -> bytes.

Definition processArticle (title outDir : bytes) : IO unit :=
  article <- wrapErr (str "fetch") (wiki.FetchArticle title) ;;
  wrapErr (str "build docx")
    (docx.Build Join (wiki.Title article) (wiki.Content article) outDir).

(** The worker pool of main.  [queue] is the closed channel titlesCh,
    [live] the number of goroutines that have not returned, [handled]
    the titles received so far, [failed] the titles whose processing
    returned an error. *)
Record Pool : Type := mkPool {
  queue : list bytes;
  live : nat;
  handled : list bytes;
  failed : list bytes;
  world : World
}.

(** [for i := 0; i < *nWorkers; i++ { wg.Add(1); go func() {...}() }] *)
Fixpoint spawn (fuel : nat) (i nWorkers : Z) (started : nat) : nat :=
  match fuel with
  | O => started
  | S fuel' =>
    if i <? nWorkers then spawn fuel' (i + 1) nWorkers (S started) else started
  end.

Definition startPool (titles : list bytes) (nWorkers : Z) (w : World) : Pool :=
  mkPool titles (spawn (Z.to_nat nWorkers) 0 nWorkers 0%nat) [] [] w.

(** One step of one worker: it receives the next title and processes it,
    or finds the closed channel empty and returns. *)
Inductive step (outDir : bytes) : Pool -> Pool -> Prop :=
| step_ok p title rest w' :
    queue p = title :: rest -> (0 < live p)%nat ->
    processArticle title outDir (world p) = (Ok tt, w') ->
    step outDir p (mkPool rest (live p) (handled p ++ [title]) (failed p) w')
| step_fail p title rest e w' :
    queue p = title :: rest -> (0 < live p)%nat ->
    processArticle title outDir (world p) = (Err e, w') ->
    step outDir p
      (mkPool rest (live p) (handled p ++ [title]) (failed p ++ [title]) w')
| step_return p :
    queue p = [] -> (0 < live p)%nat ->
    step outDir p (mkPool [] (live p - 1) (handled p) (failed p) (world p)).

Inductive steps (outDir : bytes) : Pool -> Pool -> Prop :=
| steps_refl p : steps outDir p p
| steps_step p1 p2 p3 :
    step outDir p1 p2 -> steps outDir p2 p3 -> steps outDir p1 p3.

(** wg.Wait() returns: every goroutine has returned. *)
Definition joined (p : Pool) : Prop := live p = 0%nat.

(** The count main prints as succeeded. *)
Definition succeeded (titles : list bytes) (p : Pool) : Z :=
  Z.of_nat (length titles) - Z.of_nat (length (failed p)).
End Pool.

End cli.

(** ** The specification's own words, as definitions

    These definitions follow the sentences of the specification, not the
    code; the theorems below compare them with the embedding above. *)
Module Spec.

Fixpoint dropWhile (f : ascii -> bool) (s : bytes) : bytes :=
  match s with
  | [] => []
  | c :: s' => if f c then dropWhile f s' else s
  end.

(** *** Sanitization (4.4, step 2) *)

(** The set of the ten unsafe characters: backslash, slash, colon,
    asterisk, question mark, double quote, less-than, greater-than,
    vertical bar and space. *)
Definition unsafeSet : list ascii :=
  ["\"%char; "/"%char; ":"%char; "*"%char; "?"%char; DQ;
   "<"%char; ">"%char; "|"%char; " "%char].

Definition unsafe (c : ascii) : bool := bool_decide (c ∈ unsafeSet).

(** Every run of unsafe characters becomes one underscore: an unsafe
    character writes an underscore when it opens a run and nothing when it
    continues one. *)
Fixpoint collapseRuns (inRun : bool) (s : bytes) : bytes :=
  match s with
  | [] => []
  | c :: s' =>
    if unsafe c then
      if inRun then collapseRuns true s' else US :: collapseRuns true s'
    else c :: collapseRuns false s'
  end.

Definition trimUnderscores (s : bytes) : bytes :=
  rev (dropWhile (is_byte US) (rev (dropWhile (is_byte US) s))).

Definition sanitize (title : bytes) : bytes :=
  take 200 (trimUnderscores (collapseRuns false title)).

(** A path-traversal sequence: two dots followed by a path separator. *)
Definition pathTraversal (s : bytes) : Prop :=
  exists pre post sep,
    s = pre ++ str ".." ++ sep :: post /\ (sep = "/"%char \/ sep = "\"%char).

(** *** Paragraph chunking (4.4, step 3) *)

Definition startsWithLF (s : bytes) : bool :=
  match s with
  | c :: _ => is_byte LF c
  | [] => false
  end.

(** Split at the blank-line boundaries: a maximal run of two or more
    newlines ends the current chunk and is dropped as a whole; a single
    newline stays in its chunk.  [inRun] holds inside a boundary. *)
Fixpoint splitBlank (inRun : bool) (s : bytes) : list bytes :=
  match s with
  | [] => [[]]
  | c :: s' =>
    if is_byte LF c then
      if inRun then splitBlank true s'
      else if startsWithLF s' then [] :: splitBlank true s'
      else cons_head c (splitBlank false s')
    else cons_head c (splitBlank false s')
  end.

Definition nonEmpty (s : bytes) : bool :=
  match s with [] => false | _ :: _ => true end.

Definition collapseNewline (c : ascii) : ascii :=
  if is_byte LF c then SP else c.

Definition chunks (content : bytes) : list bytes :=
  map (map collapseNewline)
      (filter (fun c => nonEmpty c = true)
              (map gostrings.TrimSpace (splitBlank false content))).

(** *** Title files (4.3, file mode) *)

(** A line is skipped when, after trimming, it is empty or its first
    character is '#'. *)
Definition skipped (line : bytes) : bool :=
  match gostrings.TrimSpace line with
  | [] => true
  | c :: _ => is_byte "#"%char c
  end.

(** *** The text of an XML document *)

Inductive token : Type :=
| TTag (body : bytes)     (* what stands between < and > *)
| TText (raw : bytes).    (* a non-empty stretch of character data *)

Definition textToken (cur : bytes) : list token :=
  match cur with [] => [] | _ :: _ => [TText cur] end.

(** The lexer state: inside a tag or not, and the bytes of the current
    tag or text. *)
Definition lexState : Type := bool * bytes.

Definition lexStep (st : lexState) (c : ascii) : list token * lexState :=
  let '(inTag, cur) := st in
  if inTag then
    if is_byte ">"%char c then ([TTag cur], (false, []))
    else ([], (true, cur ++ [c]))
  else
    if is_byte "<"%char c then (textToken cur, (true, []))
    else ([], (false, cur ++ [c])).

Fixpoint lexRun (st : lexState) (s : bytes) : list token * lexState :=
  match s with
  | [] => ([], st)
  | c :: s' =>
    let '(t1, st1) := lexStep st c in
    let '(t2, st2) := lexRun st1 s' in
    (t1 ++ t2, st2)
  end.

Definition tokens (doc : bytes) : list token :=
  let '(ts, (inTag, cur)) := lexRun (false, []) doc in
  if inTag then ts else ts ++ textToken cur.

(** utf8.EncodeRune, for the numeric character references. *)
Definition byteOf (z : Z) : ascii := ascii_of_N (Z.to_N z).

Definition encodeRune (r : Z) : bytes :=
  if r <? 0x80 then [byteOf r]
  else if r <? 0x800 then
    [byteOf (Z.lor 0xC0 (Z.shiftr r 6)); byteOf (Z.lor 0x80 (Z.land r 0x3F))]
  else if r <? 0x10000 then
    [byteOf (Z.lor 0xE0 (Z.shiftr r 12));
     byteOf (Z.lor 0x80 (Z.land (Z.shiftr r 6) 0x3F));
     byteOf (Z.lor 0x80 (Z.land r 0x3F))]
  else
    [byteOf (Z.lor 0xF0 (Z.shiftr r 18));
     byteOf (Z.lor 0x80 (Z.land (Z.shiftr r 12) 0x3F));
     byteOf (Z.lor 0x80 (Z.land (Z.shiftr r 6) 0x3F));
     byteOf (Z.lor 0x80 (Z.land r 0x3F))].

Definition digitOf (base : Z) (c : ascii) : option Z :=
  let v := byteZ c in
  let d := if (48 <=? v) && (v <=? 57) then v - 48
           else if (65 <=? v) && (v <=? 70) then v - 55
           else if (97 <=? v) && (v <=? 102) then v - 87
           else 99 in
  if d <? base then Some d else None.

Fixpoint number (base : Z) (acc : Z) (s : bytes) : option Z :=
  match s with
  | [] => Some acc
  | c :: s' =>
    match digitOf base c with
    | Some d => number base (acc * base + d) s'
    | None => None
    end
  end.

(** The text an entity or character reference &name; stands for; an
    unknown name stays as it is written. *)
Definition decodeEntity (name : bytes) : bytes :=
  if decide (name = str "amp") then str "&"
  else if decide (name = str "lt") then str "<"
  else if decide (name = str "gt") then str ">"
  else if decide (name = str "quot") then [DQ]
  else if decide (name = str "apos") then str "'"
  else
    match name with
    | h :: x :: (_ :: _) as digits =>
      if is_byte "#"%char h && is_byte "x"%char x then
        match number 16 0 digits with
        | Some n => encodeRune n
        | None => str "&" ++ name ++ str ";"
        end
      else if is_byte "#"%char h then
        match number 10 0 (x :: digits) with
        | Some n => encodeRune n
        | None => str "&" ++ name ++ str ";"
        end
      else str "&" ++ name ++ str ";"
    | [h; d] =>
      if is_byte "#"%char h then
        match number 10 0 [d] with
        | Some n => encodeRune n
        | None => str "&" ++ name ++ str ";"
        end
      else str "&" ++ name ++ str ";"
    | _ => str "&" ++ name ++ str ";"
    end.

(** Character data with its references resolved.  [ent] holds the name
    read so far when the scan is between & and ;. *)
Fixpoint unescape_go (ent : option bytes) (s : bytes) : bytes :=
  match s with
  | [] =>
    match ent with
    | None => []
    | Some name => str "&" ++ name
    end
  | c :: s' =>
    match ent with
    | None =>
      if is_byte "&"%char c then unescape_go (Some []) s'
      else c :: unescape_go None s'
    | Some name =>
      if is_byte ";"%char c then decodeEntity name ++ unescape_go None s'
      else unescape_go (Some (name ++ [c])) s'
    end
  end.

Definition unescape (raw : bytes) : bytes := unescape_go None raw.

Definition tokenText (t : token) : bytes :=
  match t with
  | TTag _ => []
  | TText raw => unescape raw
  end.

(** The document with all markup stripped. *)
Definition docText (doc : bytes) : bytes := concat (map tokenText (tokens doc)).

(** The paragraphs of the document: for every w:p element, in order, the
    text inside it.  [open] holds the text of the paragraph being read. *)
Fixpoint paragraphs_go (open : option bytes) (ts : list token) : list bytes :=
  match ts with
  | [] => []
  | TTag body :: rest =>
    if decide (body = str "w:p") then paragraphs_go (Some []) rest
    else if decide (body = str "/w:p") then
      match open with
      | Some text => text :: paragraphs_go None rest
      | None => paragraphs_go None rest
      end
    else paragraphs_go open rest
  | TText raw :: rest =>
    match open with
    | Some text => paragraphs_go (Some (text ++ unescape raw)) rest
    | None => paragraphs_go None rest
    end
  end.

Definition docParagraphs (doc : bytes) : list bytes := paragraphs_go None (tokens doc).

(** Well-formed text for an XML document: valid UTF-8 whose characters
    are all in the XML character range.  These are the inputs that
    xml.EscapeText writes without substituting U+FFFD. *)
Fixpoint xmlText_go (fuel : nat) (s : bytes) : bool :=
  match fuel with
  | O => true
  | S fuel' =>
    match s with
    | [] => true
    | _ :: _ =>
      let '(r, width) := utf8.DecodeRune s in
      goxml.isInCharacterRange r
      && negb ((r =? utf8.RuneError) && (width =? 1)%nat)
      && xmlText_go fuel' (drop width s)
    end
  end.

Definition xmlText (s : bytes) : bool := xmlText_go (length s) s.

End Spec.

(** ** Concrete inputs used by the examples below *)
Module Examples.

(** The content of the specification's splitting example. *)
Definition chunkInput : bytes := str "A

B
C



D".

(** A title whose name is cut inside a run: 199 letters, a space, a letter. *)
Definition cutTitle : bytes := replicate 199 "a"%char ++ str " b".

(** filepath.Join on two clean elements. *)
Definition joinSlash (dir name : bytes) : bytes := dir ++ str "/" ++ name.

Definition emptyWorld : World := mkWorld ∅ ∅ ∅ [] [] [].

(** A title file with a padded title, a comment, a blank line and a
    title without final newline. *)
Definition titleFile : bytes := str "  A 
# c

B".

Definition titleWorld : World :=
  mkWorld ∅ ∅ {[ str "titles.txt" := titleFile ]} [] [] [].

(** The service answers the request for a redirecting title with the
    page of its target. *)
Definition redirectWorld : World :=
  mkWorld ∅ ∅ ∅ []
    [Reply 200 (Json [mkPage (str "United Kingdom") (str "An island country.")] [])]
    [].

(** The random endpoint answers with a duplicate inside and across
    batches, then with an empty batch. *)
Definition randomWorld : World :=
  mkWorld ∅ ∅ ∅ []
    [Reply 200 (Json [] [str "A"; str "B"; str "A"]);
     Reply 200 (Json [] [str "B"]);
     Reply 200 (Json [] [])]
    [].

End Examples.

(** ** Notions used in the statements and proofs *)

(** A byte outside the unsafe set. *)
Definition safeByte (c : ascii) : Prop := Spec.unsafe c = false.

(** The name before the cut to 200 bytes. *)
Definition trimmedName (x : bytes) : bytes :=
  gostrings.Trim1 (regexp.ReplaceAllString docx.unsafeChars x (str "_")) US.

(** The three entries of a document. *)
Definition docxEntries (title : bytes) (paragraphs : list bytes) : archive :=
  [(str "[Content_Types].xml", docx.contentTypesXML);
   (str "_rels/.rels", docx.rootRelsXML);
   (str "word/document.xml", docx.buildDocumentXML title paragraphs)].

(** The invariant of the worker pool: the titles handled and the titles
    still queued make up the title list, and a worker is live as long as
    the queue is not empty. *)
Definition poolInv (titles : list bytes) (p : cli.Pool) : Prop :=
  cli.handled p ++ cli.queue p = titles
  /\ (cli.queue p <> [] -> (1 <= cli.live p)%nat).

(** The rune and width that xml.EscapeText writes unchanged or as a
    character reference, not as U+FFFD. *)
Definition validRune (r : Z) (w : nat) : bool :=
  goxml.isInCharacterRange r && negb ((r =? utf8.RuneError) && (w =? 1)%nat).

(** Bytes of a multi-byte encoding. *)
Definition allHigh (l : bytes) : Prop := Forall (fun b => 128 <= byteZ b) l.

Definition LT : ascii := "<"%char.
Definition AMP : ascii := "&"%char.

(** The tags of a stretch of markup. *)
Definition tagsOf (markup : bytes) : list Spec.token :=
  fst (Spec.lexRun (false, []) markup).

(** A stretch of markup: it opens with a tag and ends with one. *)
Definition isMarkup (k : bytes) : bool :=
  match k with
  | c :: _ => is_byte "<"%char c
              && bool_decide (snd (Spec.lexRun (false, []) k) = (false, []))
  | [] => false
  end.

(** The tokens of one text element: the opening tags, the escaped text
    and the closing tags. *)
Definition elementTokens (open : bytes) (s : bytes) : list Spec.token :=
  tagsOf open ++ Spec.textToken (docx.xmlEscape s) ++ tagsOf docx.paraClose.

(** What a reader of the document gets back for the text [s]. *)
Definition clean (s : bytes) : bytes := Spec.unescape (docx.xmlEscape s).

Ltac split_tests :=
  repeat match goal with
         | |- context [Z.ltb ?a ?b] => destruct (Z.ltb_spec a b)
         | |- context [Z.eqb ?a ?b] => destruct (Z.eqb_spec a b)
         | H : context [Z.eqb ?a ?b] |- _ => destruct (Z.eqb_spec a b)
         end.

Ltac all_high :=
  unfold allHigh; simpl; repeat (constructor; [lia|]); constructor.

Ltac bad_rune := intros Heq; inversion Heq; subst; right; left; split; reflexivity.

Ltac range_test H :=
  apply orb_false_iff in H; destruct H as [?Hlow ?Hhigh];
  apply Z.ltb_ge in Hlow; apply Z.ltb_ge in Hhigh.

(** ** More of the program: the rate limiter and the start of main *)

(** Package internal/wiki, the rate limiter.  The channel rateLimiter is
    nil or ticks at a fixed interval; its state is the interval in
    nanoseconds. *)
Module limiter.

(** time.Second, in nanoseconds. *)
Definition Second : Z := 1000000000.

(** time.Tick(d): nil when d is zero or less. *)
Definition Tick (d : Z) : option Z := if d <=? 0 then None else Some d.

(** SetRateLimit; Go's integer division truncates. *)
Definition SetRateLimit (rps : Z) : option Z :=
  if rps <=? 0 then None else Tick (Z.quot Second rps).

(** wait() receives from the channel, and so can block, exactly when the
    channel is not nil. *)
Definition waits (rateLimiter : option Z) : bool :=
  match rateLimiter with Some _ => true | None => false end.

End limiter.

(** Package main, from the flags to the start of the pool. *)
Module entry.

Definition collectTitles (inputFile : bytes) (randomN : Z) (w : World)
  : option ((list bytes * option error) * World) :=
  match inputFile with
  | _ :: _ => Some (cli.readTitlesFromFile w inputFile, w)
  | [] => wiki.GetRandomTitles randomN w
  end.

(** How main goes on after collecting the titles: log.Fatalf on an
    error, log.Fatal on an empty list, or the worker pool. *)
Inductive Start : Type :=
| FatalCollect (e : error)
| FatalNoTitles
| Run (pool : cli.Pool).

Definition mainStart (inputFile : bytes) (randomN nWorkers workerAlias wAlias : Z)
    (w : World) : option Start :=
  match collectTitles inputFile randomN w with
  | None => None
  | Some ((_, Some e), _) => Some (FatalCollect e)
  | Some (([], None), _) => Some FatalNoTitles
  | Some ((titles, None), w') =>
    Some (Run (cli.startPool titles (cli.mergeWorkers nWorkers workerAlias wAlias) w'))
  end.

End entry.

(** ** Further notions used in the statements *)

(** [t] occurs in [s] as a contiguous piece. *)
Definition pieceOf (t s : bytes) : Prop := exists pre post, s = pre ++ t ++ post.

(** The six ASCII white-space bytes. *)
Definition asciiSpace (c : ascii) : bool :=
  is_byte "009"%char c || is_byte LF c || is_byte "011"%char c
  || is_byte "012"%char c || is_byte "013"%char c || is_byte SP c.

(** The bytes with a meaning in XML markup or attribute values, and the
    white space that a reader of XML normalizes. *)
Definition markupByte (c : ascii) : bool :=
  is_byte "<"%char c || is_byte ">"%char c || is_byte DQ c || is_byte "'"%char c
  || is_byte "009"%char c || is_byte LF c || is_byte "013"%char c.

(** A printable ASCII byte that xml.EscapeText does not escape. *)
Definition plainByte (c : ascii) : bool :=
  (32 <=? byteZ c) && (byteZ c <? 128) && negb (markupByte c)
  && negb (is_byte "&"%char c).

(** Every unsafe character replaced by a space. *)
Definition spaced (c : ascii) : ascii := if docx.unsafeChars c then SP else c.

(** *** Nesting of tags *)
Module Markup.

(** The element name of a tag: its body up to the first space or slash. *)
Fixpoint nameOf (body : bytes) : bytes :=
  match body with
  | [] => []
  | c :: rest => if is_byte SP c || is_byte "/"%char c then [] else c :: nameOf rest
  end.

Inductive kind : Type :=
| Declaration            (* <?...?> *)
| Opening (name : bytes)
| Closing (name : bytes)
| SelfClosing.           (* <.../> *)

Definition kindOf (body : bytes) : kind :=
  match body with
  | c :: rest =>
    if is_byte "?"%char c then Declaration
    else if is_byte "/"%char c then Closing (nameOf rest)
    else match last body with
         | Some l => if is_byte "/"%char l then SelfClosing else Opening (nameOf body)
         | None => Opening (nameOf body)
         end
  | [] => Opening []
  end.

(** One pass over the tokens with the stack of open elements and the
    number of root elements seen; [None] when a closing tag does not
    match, or when text or a second root stands outside the root element. *)
Fixpoint nest (stack : list bytes) (roots : nat) (ts : list Spec.token)
  : option (list bytes * nat) :=
  match ts with
  | [] => Some (stack, roots)
  | Spec.TText _ :: rest =>
    match stack with
    | [] => None
    | _ :: _ => nest stack roots rest
    end
  | Spec.TTag body :: rest =>
    match kindOf body with
    | Declaration => nest stack roots rest
    | SelfClosing =>
      match stack with
      | [] => None
      | _ :: _ => nest stack roots rest
      end
    | Opening name =>
      match stack with
      | [] => if (roots =? 0)%nat then nest [name] 1 rest else None
      | _ :: _ => nest (name :: stack) roots rest
      end
    | Closing name =>
      match stack with
      | top :: below => if decide (top = name) then nest below roots rest else None
      | [] => None
      end
    end
  end.

(** Properly nested, everything closed, one root element. *)
Definition wellFormed (doc : bytes) : Prop :=
  nest [] 0 (Spec.tokens doc) = Some ([], 1%nat).

End Markup.

(** *** Counted runs of the pool and of the random endpoint *)


(** A reply with a batch that is not empty. *)
Definition fullBatch (o : HttpOutcome) : bool :=
  match o with
  | Reply status (Json _ (_ :: _)) => status =? 200
  | _ => false
  end.

(** A reply that httpGet hands on. *)
Definition goodReply (o : HttpOutcome) : bool :=
  match o with
  | Reply status (Json _ _) => status =? 200
  | _ => false
  end.

(** The titles a reply delivers. *)
Definition delivered (o : HttpOutcome) : list bytes :=
  match o with
  | Reply _ (Json _ random) => random
  | _ => []
  end.

(** The entry names of a document, in order. *)
Definition entryNames : list bytes :=
  [str "[Content_Types].xml"; str "_rels/.rels"; str "word/document.xml"].

(** What an operation on the file at [path] may change: that file;
    every other file, the readable texts and the network stay. *)
Definition fileEffect (path : bytes) (w w' : World) : Prop :=
  (forall p, p <> path -> fs w' !! p = fs w !! p)
  /\ texts w' = texts w /\ http w' = http w /\ calls w' = calls w.

(** The file at [path] holds the archive [a]; the other files are those
    of [w0]. *)
Definition archiveAt (path : bytes) (a : archive) (w0 w : World) : Prop :=
  fs w = <[path := a]> (fs w0).

(** A document whose title would be written without escaping. *)
Definition unescapedDocument (title : bytes) : bytes :=
  docx.docOpen ++ docx.headingOpen ++ title ++ docx.paraClose ++ docx.docClose.


(** Membership in a list given by its elements. *)
Ltac in_list :=
  vm_compute; repeat first [apply list_elem_of_here | apply list_elem_of_further].

(** * Proofs *)

(** ** The library models on concrete inputs *)

Example TrimSpace_ascii :
  gostrings.TrimSpace (str "  a b  ") = str "a b".
Proof. vm_compute. reflexivity. Qed.

(** A no-break space (C2 A0) in front and an em quad (E2 80 81) behind. *)
Example TrimSpace_unicode :
  gostrings.TrimSpace
    (["194"; "160"]%char ++ str "a" ++ ["226"; "128"; "129"]%char)
  = str "a".
Proof. vm_compute. reflexivity. Qed.

(** A lone continuation byte is not a space and stays. *)
Example TrimSpace_invalid :
  gostrings.TrimSpace ["128"; " "]%char = ["128"]%char.
Proof. vm_compute. reflexivity. Qed.

Example Split_commas :
  gostrings.Split (str "a,b,,c,") (str ",") = [str "a"; str "b"; []; str "c"; []].
Proof. vm_compute. reflexivity. Qed.

Example Split_no_overlap :
  gostrings.Split (str "aaa") (str "aa") = [[]; str "a"].
Proof. vm_compute. reflexivity. Qed.

Example DecodeRune_euro :
  utf8.DecodeRune ["226"; "130"; "172"]%char = (0x20AC, 3%nat).
Proof. vm_compute. reflexivity. Qed.

(** An overlong encoding and a surrogate are invalid. *)
Example DecodeRune_invalid :
  utf8.DecodeRune ["192"; "128"]%char = (utf8.RuneError, 1%nat)
  /\ utf8.DecodeRune ["237"; "160"; "128"]%char = (utf8.RuneError, 1%nat).
Proof. split; vm_compute; reflexivity. Qed.

Example xmlEscape_specials :
  docx.xmlEscape (str "a<b & 'c'") = str "a&lt;b &amp; &#39;c&#39;".
Proof. vm_compute. reflexivity. Qed.

Example scanLines_crlf :
  bufio.scanLines (str "a" ++ [bufio.CR; LF] ++ str "b" ++ [LF; LF] ++ str "c")
  = ([str "a"; str "b"; []; str "c"], None).
Proof. vm_compute. reflexivity. Qed.

Example safeFilename_runs :
  docx.safeFilename (str "  Hello: World / foo?  ") = str "Hello_World_foo".
Proof. vm_compute. reflexivity. Qed.

Example safeFilename_dots :
  docx.safeFilename (str "../../etc/passwd") = str ".._.._etc_passwd".
Proof. vm_compute. reflexivity. Qed.

(** ** Bytes and lists *)

Lemma is_byte_true a c : is_byte a c = true <-> c = a.
Proof. unfold is_byte. apply Ascii.eqb_eq. Qed.

Lemma is_byte_false a c : is_byte a c = false <-> c <> a.
Proof. unfold is_byte. apply Ascii.eqb_neq. Qed.

Lemma unsafeChars_spec c : docx.unsafeChars c = Spec.unsafe c.
Proof. destruct c as [[] [] [] [] [] [] [] []]; vm_compute; reflexivity. Qed.

(** ** The regular expression replacement collapses runs *)

Lemma spanClass_split cls s m r :
  regexp.spanClass cls s = (m, r) ->
  s = m ++ r /\ Forall (fun c => cls c = true) m /\
  match r with [] => True | c :: _ => cls c = false end.
Proof.
  revert m r. induction s as [|c s IH]; intros m r H; simpl in H.
  - inversion H; subst. repeat split; constructor.
  - destruct (cls c) eqn:Hc.
    + destruct (regexp.spanClass cls s) as [m' r'] eqn:Hs.
      inversion H; subst. destruct (IH _ _ eq_refl) as (-> & Hm & Hr).
      repeat split; [constructor; assumption | assumption].
    + inversion H; subst. repeat split; [constructor | assumption].
Qed.

Lemma collapseRuns_safe_prefix before rest :
  Forall (fun c => negb (Spec.unsafe c) = true) before ->
  Spec.collapseRuns false (before ++ rest) = before ++ Spec.collapseRuns false rest.
Proof.
  induction 1 as [|c before Hc _ IH]; simpl; [reflexivity|].
  apply negb_true_iff in Hc. rewrite Hc, IH. reflexivity.
Qed.

Lemma collapseRuns_in_run m rest :
  Forall (fun c => Spec.unsafe c = true) m ->
  Spec.collapseRuns true (m ++ rest) = Spec.collapseRuns true rest.
Proof.
  induction 1 as [|c m Hc _ IH]; simpl; [reflexivity|]. rewrite Hc. exact IH.
Qed.

Lemma collapseRuns_leave_run rest :
  match rest with [] => True | c :: _ => Spec.unsafe c = false end ->
  Spec.collapseRuns true rest = Spec.collapseRuns false rest.
Proof. destruct rest as [|c rest]; simpl; [reflexivity|]. intros ->. reflexivity. Qed.

Lemma spanClass_ext cls1 cls2 s :
  (forall c, cls1 c = cls2 c) -> regexp.spanClass cls1 s = regexp.spanClass cls2 s.
Proof.
  intros E. induction s as [|c s IH]; simpl; [reflexivity|].
  rewrite E, IH. reflexivity.
Qed.

Lemma ReplaceAllString_go_collapse fuel s :
  (length s < fuel)%nat ->
  regexp.ReplaceAllString_go fuel docx.unsafeChars s (str "_")
  = Spec.collapseRuns false s.
Proof.
  revert s. induction fuel as [|fuel IH]; intros s Hlen; [lia|].
  simpl.
  rewrite (spanClass_ext _ (fun c => negb (Spec.unsafe c)))
    by (intros c; rewrite unsafeChars_spec; reflexivity).
  destruct (regexp.spanClass _ s) as [before from] eqn:Hb.
  apply spanClass_split in Hb. destruct Hb as (-> & Hbefore & Hfrom).
  rewrite collapseRuns_safe_prefix by exact Hbefore.
  destruct from as [|c from].
  - simpl. rewrite app_nil_r. reflexivity.
  - rewrite (spanClass_ext _ Spec.unsafe) by apply unsafeChars_spec.
    destruct (regexp.spanClass Spec.unsafe (c :: from)) as [m after] eqn:Hm.
    apply negb_false_iff in Hfrom.
    pose proof Hm as Hm'. simpl in Hm'. rewrite Hfrom in Hm'.
    destruct (regexp.spanClass Spec.unsafe from) as [m' after'] eqn:Hm2.
    inversion Hm'; subst m after'. clear Hm'.
    apply spanClass_split in Hm2. destruct Hm2 as (-> & Hrun & Hafter).
    f_equal. simpl. rewrite Hfrom.
    rewrite collapseRuns_in_run by exact Hrun.
    rewrite collapseRuns_leave_run by exact Hafter.
    f_equal. apply IH.
    rewrite length_app in Hlen. simpl in Hlen. rewrite length_app in Hlen. lia.
Qed.

Lemma ReplaceAllString_collapse s :
  regexp.ReplaceAllString docx.unsafeChars s (str "_") = Spec.collapseRuns false s.
Proof. apply ReplaceAllString_go_collapse. lia. Qed.

(** ** Trimming one byte from both ends *)

Lemma trimLeftByte_dropWhile s c :
  gostrings.trimLeftByte s c = Spec.dropWhile (is_byte c) s.
Proof. induction s as [|x s IH]; simpl; [reflexivity|]. unfold is_byte at 1. rewrite IH. reflexivity. Qed.

Lemma dropWhile_snoc f l x :
  Spec.dropWhile f (l ++ [x])
  = match Spec.dropWhile f l with
    | [] => if f x then [] else [x]
    | r => r ++ [x]
    end.
Proof.
  induction l as [|y l IH]; simpl; [reflexivity|].
  destruct (f y); [exact IH | reflexivity].
Qed.

Lemma trimRightByte_rev s c :
  gostrings.trimRightByte s c = rev (Spec.dropWhile (is_byte c) (rev s)).
Proof.
  induction s as [|x s IH]; simpl; [reflexivity|].
  rewrite dropWhile_snoc, IH.
  destruct (Spec.dropWhile (is_byte c) (rev s)) as [|d D]; simpl.
  - unfold is_byte. destruct (Ascii.eqb x c); reflexivity.
  - rewrite rev_app_distr. simpl.
    destruct (rev D ++ [d]) as [|e E] eqn:HE; [|reflexivity].
    apply (f_equal length) in HE. rewrite length_app in HE. simpl in HE. lia.
Qed.

Lemma trimRightByte_cons_ne x s c :
  x <> c -> gostrings.trimRightByte (x :: s) c = x :: gostrings.trimRightByte s c.
Proof.
  intros Hx. simpl. apply Ascii.eqb_neq in Hx. rewrite Hx.
  destruct (gostrings.trimRightByte s c); reflexivity.
Qed.

Lemma trimRightByte_cons_eq s c :
  gostrings.trimLeftByte (gostrings.trimRightByte (c :: s) c) c
  = gostrings.trimLeftByte (gostrings.trimRightByte s c) c.
Proof.
  simpl. rewrite Ascii.eqb_refl.
  destruct (gostrings.trimRightByte s c) as [|y r]; [reflexivity|].
  simpl. rewrite Ascii.eqb_refl. reflexivity.
Qed.

Lemma trim_left_right_comm s c :
  gostrings.trimLeftByte (gostrings.trimRightByte s c) c
  = gostrings.trimRightByte (gostrings.trimLeftByte s c) c.
Proof.
  induction s as [|x s IH]; [reflexivity|].
  destruct (Ascii.eqb x c) eqn:Hx.
  - apply Ascii.eqb_eq in Hx. subst x. rewrite trimRightByte_cons_eq, IH.
    simpl. rewrite Ascii.eqb_refl. reflexivity.
  - pose proof Hx as Hne. apply Ascii.eqb_neq in Hne.
    rewrite trimRightByte_cons_ne by exact Hne.
    cbn [gostrings.trimLeftByte]. rewrite Hx.
    rewrite trimRightByte_cons_ne by exact Hne. reflexivity.
Qed.

Lemma Trim1_trimUnderscores s :
  gostrings.Trim1 s US = Spec.trimUnderscores s.
Proof.
  unfold gostrings.Trim1, Spec.trimUnderscores.
  rewrite trim_left_right_comm, trimRightByte_rev, trimLeftByte_dropWhile.
  reflexivity.
Qed.

Lemma truncate_take (s : bytes) :
  (if (200 <? length s)%nat then take 200 s else s) = take 200 s.
Proof.
  destruct (Nat.ltb_spec 200 (length s)); [reflexivity|].
  symmetry. apply take_ge. lia.
Qed.

Lemma safeFilename_eq_sanitize title : docx.safeFilename title = Spec.sanitize title.
Proof.
  unfold docx.safeFilename, Spec.sanitize.
  rewrite truncate_take, Trim1_trimUnderscores, ReplaceAllString_collapse.
  reflexivity.
Qed.

(** ** Runes and bytes *)

Lemma DecodeRune_width p :
  p <> [] ->
  (1 <= snd (utf8.DecodeRune p) <= 4)%nat /\
  (snd (utf8.DecodeRune p) <= length p)%nat.
Proof.
  intros Hp. unfold utf8.DecodeRune.
  destruct p as [|c0 p1]; [congruence|]. cbv zeta.
  repeat case_match; simpl in *; lia.
Qed.

Lemma RuneCount_go_le fuel p : (utf8.RuneCount_go fuel p <= length p)%nat.
Proof.
  revert p. induction fuel as [|fuel IH]; intros p; simpl; [lia|].
  destruct p as [|c p]; [simpl; lia|].
  destruct (DecodeRune_width (c :: p)) as [[Hw _] Hl]; [discriminate|].
  specialize (IH (drop (snd (utf8.DecodeRune (c :: p))) (c :: p))).
  rewrite length_drop in IH. lia.
Qed.

Lemma RuneCount_le_len p : (utf8.RuneCountInString p <= length p)%nat.
Proof. apply RuneCount_go_le. Qed.

(** C4: safeFilename is the sanitization the specification describes:
    every run of characters of the unsafe set becomes one underscore, the
    underscores at both ends are trimmed, and the result is cut to its
    first 200 bytes; it has at most 200 bytes, hence at most 200
    characters. *)
Theorem safeFilename_sanitizes title :
  docx.safeFilename title
  = take 200 (Spec.trimUnderscores (Spec.collapseRuns false title))
  /\ (length (docx.safeFilename title) <= 200)%nat
  /\ (utf8.RuneCountInString (docx.safeFilename title) <= 200)%nat.
Proof.
  rewrite safeFilename_eq_sanitize. unfold Spec.sanitize.
  split; [reflexivity|].
  assert (length (take 200 (Spec.trimUnderscores (Spec.collapseRuns false title)))
          <= 200)%nat as H by (rewrite length_take; lia).
  split; [exact H|].
  etransitivity; [apply RuneCount_le_len | exact H].
Qed.

(** ** Sanitizing a sanitized name *)


Lemma collapseRuns_safe b s : Forall safeByte (Spec.collapseRuns b s).
Proof.
  revert b. induction s as [|c s IH]; intros b; simpl; [constructor|].
  destruct (Spec.unsafe c) eqn:Hc.
  - destruct b; [apply IH|]. constructor; [reflexivity | apply IH].
  - constructor; [exact Hc | apply IH].
Qed.

Lemma dropWhile_Forall (P : ascii -> Prop) f s :
  Forall P s -> Forall P (Spec.dropWhile f s).
Proof.
  induction 1 as [|c s Hc Hs IH]; simpl; [constructor|].
  destruct (f c); [exact IH | constructor; assumption].
Qed.

Lemma trimUnderscores_Forall (P : ascii -> Prop) s :
  Forall P s -> Forall P (Spec.trimUnderscores s).
Proof.
  intros H. unfold Spec.trimUnderscores.
  apply Forall_rev, dropWhile_Forall, Forall_rev, dropWhile_Forall, H.
Qed.

Lemma sanitize_safe x : Forall safeByte (docx.safeFilename x).
Proof.
  rewrite safeFilename_eq_sanitize. unfold Spec.sanitize.
  apply Forall_take, trimUnderscores_Forall, collapseRuns_safe.
Qed.

Lemma collapseRuns_id b s : Forall safeByte s -> Spec.collapseRuns b s = s.
Proof.
  intros H. revert b. induction H as [|c s Hc _ IH]; intros b; simpl; [reflexivity|].
  rewrite Hc, IH. reflexivity.
Qed.

Lemma trimRightByte_head s c :
  match gostrings.trimRightByte (gostrings.trimLeftByte s c) c with
  | [] => True
  | x :: _ => x <> c
  end.
Proof.
  induction s as [|x s IH]; simpl; [exact I|].
  destruct (Ascii.eqb x c) eqn:Hx; [exact IH|].
  apply Ascii.eqb_neq in Hx.
  rewrite trimRightByte_cons_ne by exact Hx. exact Hx.
Qed.

Lemma trimLeftByte_id s c :
  match s with [] => True | x :: _ => x <> c end ->
  gostrings.trimLeftByte s c = s.
Proof.
  destruct s as [|x s]; simpl; [reflexivity|].
  intros Hx. apply Ascii.eqb_neq in Hx. rewrite Hx. reflexivity.
Qed.

Lemma trimRightByte_length s c :
  (length (gostrings.trimRightByte s c) <= length s)%nat.
Proof.
  induction s as [|x s IH]; simpl; [lia|].
  destruct (gostrings.trimRightByte s c); [|simpl in *; lia].
  destruct (Ascii.eqb x c); simpl; lia.
Qed.

Lemma trimRightByte_last s c : last (gostrings.trimRightByte s c) <> Some c.
Proof.
  induction s as [|x s IH]; simpl; [discriminate|].
  destruct (gostrings.trimRightByte s c) as [|r0 r].
  - destruct (Ascii.eqb x c) eqn:Hx; [discriminate|].
    apply Ascii.eqb_neq in Hx. simpl. congruence.
  - exact IH.
Qed.

Lemma trimRightByte_id s c : last s <> Some c -> gostrings.trimRightByte s c = s.
Proof.
  induction s as [|x s IH]; [reflexivity|].
  destruct s as [|y s].
  - simpl. intros Hx. destruct (Ascii.eqb x c) eqn:E; [|reflexivity].
    apply Ascii.eqb_eq in E. congruence.
  - intros Hl. change (last (x :: y :: s)) with (last (y :: s)) in Hl.
    specialize (IH Hl).
    change (gostrings.trimRightByte (x :: y :: s) c)
      with (match gostrings.trimRightByte (y :: s) c with
            | [] => if Ascii.eqb x c then [] else [x]
            | r => x :: r
            end).
    rewrite IH. reflexivity.
Qed.

Lemma safeFilename_trimmedName x : docx.safeFilename x = take 200 (trimmedName x).
Proof. unfold docx.safeFilename. rewrite truncate_take. reflexivity. Qed.

Lemma safeFilename_head x :
  match docx.safeFilename x with [] => True | c :: _ => c <> US end.
Proof.
  rewrite safeFilename_trimmedName. unfold trimmedName, gostrings.Trim1.
  rewrite trim_left_right_comm.
  pose proof (trimRightByte_head
    (regexp.ReplaceAllString docx.unsafeChars x (str "_")) US) as H.
  destruct (gostrings.trimRightByte _ US) as [|c r]; [exact I|exact H].
Qed.

Lemma safeFilename_length x : (length (docx.safeFilename x) <= 200)%nat.
Proof. rewrite safeFilename_trimmedName, length_take. lia. Qed.

Lemma safeFilename_twice x :
  docx.safeFilename (docx.safeFilename x)
  = gostrings.trimRightByte (docx.safeFilename x) US.
Proof.
  set (y := docx.safeFilename x).
  rewrite (safeFilename_trimmedName y). unfold trimmedName.
  rewrite ReplaceAllString_collapse.
  rewrite collapseRuns_id
    by (eapply Forall_impl; [apply sanitize_safe | intros c Hc; exact Hc]).
  unfold gostrings.Trim1. rewrite trim_left_right_comm.
  rewrite (trimLeftByte_id y) by apply safeFilename_head.
  apply take_ge.
  etransitivity; [apply trimRightByte_length | apply safeFilename_length].
Qed.

Lemma dropWhile_keeps f s (c : ascii) :
  c ∈ s -> f c = false -> c ∈ Spec.dropWhile f s.
Proof.
  induction s as [|x s IH]; intros Hin Hf; simpl; [exact Hin|].
  destruct (f x) eqn:Hx; [|exact Hin].
  apply elem_of_cons in Hin. destruct Hin as [->|Hin]; [congruence|].
  apply IH; assumption.
Qed.

Lemma collapseRuns_keeps b s c :
  c ∈ s -> Spec.unsafe c = false -> c ∈ Spec.collapseRuns b s.
Proof.
  revert b. induction s as [|x s IH]; intros b Hin Hc; simpl.
  - exact Hin.
  - apply elem_of_cons in Hin. destruct Hin as [<-|Hin].
    + rewrite Hc. apply elem_of_cons. left. reflexivity.
    + destruct (Spec.unsafe x); [destruct b|].
      * apply IH; assumption.
      * apply elem_of_cons. right. apply IH; assumption.
      * apply elem_of_cons. right. apply IH; assumption.
Qed.

Lemma elem_of_rev_iff (c : ascii) s : c ∈ rev s <-> c ∈ s.
Proof. rewrite !list_elem_of_In. symmetry. apply in_rev. Qed.

Lemma safeFilename_nonempty x c :
  c ∈ x -> docx.unsafeChars c = false -> c <> US -> docx.safeFilename x <> [].
Proof.
  intros Hin Hc Hus. rewrite unsafeChars_spec in Hc.
  rewrite safeFilename_eq_sanitize. unfold Spec.sanitize.
  assert (c ∈ Spec.trimUnderscores (Spec.collapseRuns false x)) as Ht.
  { unfold Spec.trimUnderscores.
    assert (is_byte US c = false) as Hf by (apply is_byte_false; exact Hus).
    apply elem_of_rev_iff, dropWhile_keeps; [|exact Hf].
    apply elem_of_rev_iff, dropWhile_keeps; [|exact Hf].
    apply collapseRuns_keeps; assumption. }
  destruct (Spec.trimUnderscores (Spec.collapseRuns false x)) as [|t ts];
    [inversion Ht | simpl; discriminate].
Qed.

Lemma safeFilename_no_traversal x : ~ Spec.pathTraversal (docx.safeFilename x).
Proof.
  intros (pre & post & sep & Heq & Hsep).
  pose proof (sanitize_safe x) as Hsafe. rewrite Heq in Hsafe.
  apply Forall_app in Hsafe. destruct Hsafe as [_ Hsafe].
  apply Forall_app in Hsafe. destruct Hsafe as [_ Hsafe].
  apply Forall_cons in Hsafe. destruct Hsafe as [Hs _].
  destruct Hsep as [-> | ->]; vm_compute in Hs; discriminate.
Qed.

(** C5 (amended): a second sanitization only trims trailing underscores,
    so sanitization is idempotent on every input whose sanitized name does
    not end with an underscore, in particular on every input whose name is
    not cut at 200 bytes; no sanitized name contains two dots followed by
    a path separator; and the name is not empty when the input has a
    character that is neither unsafe nor an underscore. *)
Theorem safeFilename_idempotent_unless_cut x :
  docx.safeFilename (docx.safeFilename x)
    = gostrings.trimRightByte (docx.safeFilename x) US
  /\ (last (docx.safeFilename x) <> Some US ->
      docx.safeFilename (docx.safeFilename x) = docx.safeFilename x)
  /\ ((length (trimmedName x) <= 200)%nat ->
      docx.safeFilename (docx.safeFilename x) = docx.safeFilename x)
  /\ ~ Spec.pathTraversal (docx.safeFilename x)
  /\ ((exists c, c ∈ x /\ docx.unsafeChars c = false /\ c <> US) ->
      docx.safeFilename x <> []).
Proof.
  split; [apply safeFilename_twice|].
  split.
  { intros Hl. rewrite safeFilename_twice. apply trimRightByte_id, Hl. }
  split.
  { intros Hlen. rewrite safeFilename_twice. apply trimRightByte_id.
    rewrite safeFilename_trimmedName, take_ge by exact Hlen.
    unfold trimmedName, gostrings.Trim1. rewrite trim_left_right_comm.
    apply trimRightByte_last. }
  split; [apply safeFilename_no_traversal|].
  intros (c & Hin & Hc & Hus). eapply safeFilename_nonempty; eassumption.
Qed.

(** An input on which the checks above all apply. *)
Lemma safeFilename_idempotent_unless_cut_witness :
  docx.safeFilename (docx.safeFilename (str "Alan Turing")) = str "Alan_Turing"
  /\ docx.safeFilename (str "Alan Turing") <> [].
Proof.
  destruct (safeFilename_idempotent_unless_cut (str "Alan Turing"))
    as (_ & Hlast & _ & _ & Hne).
  split.
  - rewrite Hlast; [reflexivity | vm_compute; discriminate].
  - apply Hne. exists "A"%char. split; [|split].
    + apply elem_of_cons. left. reflexivity.
    + reflexivity.
    + discriminate.
Defined.

(** C5 as stated fails: a name cut at 200 bytes can end with the
    underscore of a run, which a second sanitization trims; and the
    one-character input of an underscore, which is not an unsafe character,
    gives the empty name. *)
Lemma safeFilename_not_idempotent :
  docx.safeFilename (docx.safeFilename Examples.cutTitle)
    <> docx.safeFilename Examples.cutTitle
  /\ (str "_" <> [] /\ docx.unsafeChars US = false
      /\ docx.safeFilename (str "_") = []).
Proof.
  split.
  - intros H. apply (f_equal length) in H. vm_compute in H. discriminate.
  - split; [discriminate|]. split; reflexivity.
Qed.

(** ** strings.Split and strings.ReplaceAll *)

Lemma HasPrefix_length t p :
  gostrings.HasPrefix t p = true -> (length p <= length t)%nat.
Proof.
  revert t. induction p as [|x p IH]; intros t Ht; [simpl; lia|].
  destruct t as [|y t]; simpl in Ht; [discriminate|].
  apply andb_true_iff in Ht. destruct Ht as [_ Ht].
  specialize (IH t Ht). simpl. lia.
Qed.

Lemma Cut_length s sep b a :
  gostrings.Cut s sep = Some (b, a) -> (length a + length sep <= length s)%nat.
Proof.
  revert b a. induction s as [|c s IH]; intros b a H; [discriminate|].
  cbn [gostrings.Cut] in H.
  destruct (gostrings.HasPrefix (c :: s) sep) eqn:Hp.
  - inversion H; subst. clear H. apply HasPrefix_length in Hp.
    rewrite length_drop. lia.
  - destruct (gostrings.Cut s sep) as [[b' a']|] eqn:Hc; [|discriminate].
    inversion H; subst. specialize (IH _ _ eq_refl). simpl. lia.
Qed.

Lemma Split_go_enough sep fuel1 fuel2 s :
  sep <> [] -> (length s <= fuel1)%nat -> (length s <= fuel2)%nat ->
  gostrings.Split_go fuel1 s sep = gostrings.Split_go fuel2 s sep.
Proof.
  intros Hsep. revert fuel2 s.
  induction fuel1 as [|fuel1 IH]; intros fuel2 s H1 H2.
  - destruct s; [|simpl in H1; lia]. destruct fuel2; reflexivity.
  - destruct fuel2 as [|fuel2].
    + destruct s; [|simpl in H2; lia]. reflexivity.
    + simpl. destruct (gostrings.Cut s sep) as [[b a]|] eqn:Hc; [|reflexivity].
      apply Cut_length in Hc. f_equal.
      assert (0 < length sep)%nat by (destruct sep; [congruence | simpl; lia]).
      apply IH; lia.
Qed.

Lemma Split_unfold s sep :
  sep <> [] ->
  gostrings.Split s sep
  = match gostrings.Cut s sep with
    | None => [s]
    | Some (b, a) => b :: gostrings.Split a sep
    end.
Proof.
  intros Hsep. unfold gostrings.Split.
  destruct s as [|c s]; [reflexivity|].
  cbn [length gostrings.Split_go].
  destruct (gostrings.Cut (c :: s) sep) as [[b a]|] eqn:Hc; [|reflexivity].
  apply Cut_length in Hc. f_equal.
  assert (0 < length sep)%nat by (destruct sep; [congruence | simpl; lia]).
  simpl in Hc. apply Split_go_enough; [exact Hsep | lia | lia].
Qed.

Lemma Split_blank_cons c s :
  gostrings.Split (c :: s) [LF; LF]
  = if is_byte LF c && Spec.startsWithLF s
    then [] :: gostrings.Split (drop 1 s) [LF; LF]
    else cons_head c (gostrings.Split s [LF; LF]).
Proof.
  rewrite Split_unfold by discriminate.
  rewrite (Split_unfold s) by discriminate.
  cbn [gostrings.Cut].
  assert (gostrings.HasPrefix (c :: s) [LF; LF]
          = is_byte LF c && Spec.startsWithLF s) as ->.
  { simpl. unfold is_byte. destruct s as [|c2 s]; simpl.
    - rewrite andb_false_r. reflexivity.
    - unfold is_byte. rewrite andb_true_r. reflexivity. }
  destruct (is_byte LF c && Spec.startsWithLF s) eqn:Hb.
  - destruct s as [|c2 s]; [rewrite andb_false_r in Hb; discriminate|].
    reflexivity.
  - destruct (gostrings.Cut s [LF; LF]) as [[b a]|]; reflexivity.
Qed.

Lemma Split_blank_nonempty s : gostrings.Split s [LF; LF] <> [].
Proof.
  rewrite Split_unfold by discriminate.
  destruct (gostrings.Cut s [LF; LF]) as [[b a]|]; discriminate.
Qed.

Lemma ReplaceAll_go_enough old new fuel1 fuel2 s :
  old <> [] -> (length s <= fuel1)%nat -> (length s <= fuel2)%nat ->
  gostrings.ReplaceAll_go fuel1 s old new = gostrings.ReplaceAll_go fuel2 s old new.
Proof.
  intros Hold. revert fuel2 s.
  induction fuel1 as [|fuel1 IH]; intros fuel2 s H1 H2.
  - destruct s; [|simpl in H1; lia]. destruct fuel2; reflexivity.
  - destruct fuel2 as [|fuel2].
    + destruct s; [|simpl in H2; lia]. reflexivity.
    + simpl. destruct (gostrings.Cut s old) as [[b a]|] eqn:Hc; [|reflexivity].
      apply Cut_length in Hc. do 2 f_equal.
      assert (0 < length old)%nat by (destruct old; [congruence | simpl; lia]).
      apply IH; lia.
Qed.

Lemma ReplaceAll_unfold s old new :
  old <> [] ->
  gostrings.ReplaceAll s old new
  = match gostrings.Cut s old with
    | None => s
    | Some (b, a) => b ++ new ++ gostrings.ReplaceAll a old new
    end.
Proof.
  intros Hold. unfold gostrings.ReplaceAll.
  destruct s as [|c s]; [reflexivity|].
  cbn [length gostrings.ReplaceAll_go].
  destruct (gostrings.Cut (c :: s) old) as [[b a]|] eqn:Hc; [|reflexivity].
  apply Cut_length in Hc. do 2 f_equal.
  assert (0 < length old)%nat by (destruct old; [congruence | simpl; lia]).
  simpl in Hc. apply ReplaceAll_go_enough; [exact Hold | lia | lia].
Qed.

Lemma ReplaceAll_newline s :
  gostrings.ReplaceAll s [LF] [SP] = map Spec.collapseNewline s.
Proof.
  induction s as [|c s IH]; [reflexivity|].
  rewrite ReplaceAll_unfold by discriminate.
  rewrite ReplaceAll_unfold in IH by discriminate.
  cbn [gostrings.Cut gostrings.HasPrefix].
  rewrite andb_true_r. cbn [map]. unfold Spec.collapseNewline at 1, is_byte.
  destruct (Ascii.eqb c LF).
  - cbn [length drop]. simpl. f_equal.
    rewrite <- IH. rewrite ReplaceAll_unfold by discriminate. reflexivity.
  - destruct (gostrings.Cut s [LF]) as [[b a]|].
    + simpl. f_equal. exact IH.
    + f_equal. exact IH.
Qed.

(** ** strings.TrimSpace drops a leading newline *)

Lemma DecodeRune_ascii c s :
  byteZ c < 0x80 -> utf8.DecodeRune (c :: s) = (byteZ c, 1%nat).
Proof.
  intros H. unfold utf8.DecodeRune, utf8.RuneSelf.
  destruct (Z.ltb_spec (byteZ c) 128); [reflexivity | lia].
Qed.

Lemma indexFunc_go_shift fuel f truth rest i k :
  gostrings.indexFunc_go fuel f truth rest (i + k)
  = option_map (fun j => (j + k)%nat) (gostrings.indexFunc_go fuel f truth rest i).
Proof.
  revert rest i. induction fuel as [|fuel IH]; intros rest i; simpl; [reflexivity|].
  destruct rest as [|c rest]; [reflexivity|].
  destruct (utf8.DecodeRune (c :: rest)) as [r w].
  destruct (Bool.eqb (f r) truth); [reflexivity|].
  replace (i + k + w)%nat with (i + w + k)%nat by lia. apply IH.
Qed.

Lemma TrimLeftFunc_space_cons c s :
  byteZ c < 0x80 -> unicode.IsSpace (byteZ c) = true ->
  gostrings.TrimLeftFunc (c :: s) unicode.IsSpace
  = gostrings.TrimLeftFunc s unicode.IsSpace.
Proof.
  intros Hc Hsp. unfold gostrings.TrimLeftFunc, gostrings.indexFunc.
  cbn [length gostrings.indexFunc_go].
  rewrite DecodeRune_ascii by exact Hc. rewrite Hsp.
  cbn [Bool.eqb]. change (drop 1 (c :: s)) with s.
  rewrite (indexFunc_go_shift _ _ _ _ 0 1).
  destruct (gostrings.indexFunc_go (length s) unicode.IsSpace false s 0);
    simpl; [|reflexivity].
  replace (n + 1)%nat with (S n) by lia. reflexivity.
Qed.

Lemma TrimSpace_LF s : gostrings.TrimSpace (LF :: s) = gostrings.TrimSpace s.
Proof.
  unfold gostrings.TrimSpace, gostrings.TrimFunc.
  rewrite TrimLeftFunc_space_cons; [reflexivity | reflexivity | reflexivity].
Qed.

(** ** The chunks of Build are the chunks of the specification *)

Lemma paragraphLoop_pipeline l :
  docx.paragraphLoop l
  = map (map Spec.collapseNewline)
        (filter (fun c => Spec.nonEmpty c = true) (map gostrings.TrimSpace l)).
Proof.
  induction l as [|chunk l IH]; [reflexivity|].
  cbn [docx.paragraphLoop map]. rewrite filter_cons.
  destruct (gostrings.TrimSpace chunk) as [|c t] eqn:Ht.
  - rewrite decide_False by (simpl; discriminate). exact IH.
  - rewrite decide_True by reflexivity.
    cbn [map]. rewrite ReplaceAll_newline, IH. reflexivity.
Qed.

Lemma paragraphLoop_cons_head_LF l :
  l <> [] -> docx.paragraphLoop (cons_head LF l) = docx.paragraphLoop l.
Proof.
  destruct l as [|h t]; [congruence|]. intros _.
  cbn [cons_head docx.paragraphLoop]. rewrite TrimSpace_LF. reflexivity.
Qed.

(** The two splittings cut the first chunk at the same place, and what
    follows gives the same paragraphs; inside a blank-line boundary the
    paragraphs agree although the chunks differ. *)
Lemma split_agree n :
  forall s, (length s <= n)%nat ->
    (exists h tc ts,
        gostrings.Split s [LF; LF] = h :: tc /\
        Spec.splitBlank false s = h :: ts /\
        docx.paragraphLoop tc = docx.paragraphLoop ts)
    /\ docx.paragraphLoop (gostrings.Split s [LF; LF])
       = docx.paragraphLoop (Spec.splitBlank true s).
Proof.
  induction n as [|n IH]; intros s Hlen.
  - destruct s; [|simpl in Hlen; lia]. split; [|reflexivity].
    exists [], [], []. repeat split.
  - destruct s as [|c s].
    { split; [|reflexivity]. exists [], [], []. repeat split. }
    simpl in Hlen.
    assert (exists h tc ts,
        gostrings.Split (c :: s) [LF; LF] = h :: tc /\
        Spec.splitBlank false (c :: s) = h :: ts /\
        docx.paragraphLoop tc = docx.paragraphLoop ts) as HP.
    { rewrite Split_blank_cons. cbn [Spec.splitBlank].
      destruct (is_byte LF c) eqn:Hc; cbn [andb].
      - destruct s as [|c2 s]; cbn [Spec.startsWithLF].
        + exists [c], [], []. repeat split.
        + destruct (is_byte LF c2) eqn:Hc2.
          * exists [], (gostrings.Split s [LF; LF]), (Spec.splitBlank true s).
            cbn [Spec.splitBlank]. rewrite Hc2.
            repeat split. apply IH. simpl in Hlen. lia.
          * destruct (IH (c2 :: s)) as [(h & tc & ts & H1 & H2 & H3) _]; [lia|].
            rewrite H1, H2. exists (c :: h), tc, ts. repeat split. exact H3.
      - destruct (IH s) as [(h & tc & ts & H1 & H2 & H3) _]; [lia|].
        rewrite H1, H2. exists (c :: h), tc, ts. repeat split. exact H3. }
    split; [exact HP|].
    destruct (is_byte LF c) eqn:Hc.
    + apply is_byte_true in Hc. subst c.
      rewrite Split_blank_cons. cbn [Spec.splitBlank].
      change (is_byte LF LF) with true. cbn [andb].
      destruct s as [|c2 s]; cbn [Spec.startsWithLF]; [reflexivity|].
      destruct (is_byte LF c2) eqn:Hc2.
      * cbn [Spec.splitBlank]. rewrite Hc2.
        change (drop 1 (c2 :: s)) with s.
        cbn [docx.paragraphLoop]. change (gostrings.TrimSpace []) with (@nil ascii).
        apply IH. simpl in Hlen. lia.
      * rewrite paragraphLoop_cons_head_LF by apply Split_blank_nonempty.
        apply IH. lia.
    + destruct HP as (h & tc & ts & H1 & H2 & H3). rewrite H1.
      assert (Spec.splitBlank true (c :: s) = Spec.splitBlank false (c :: s)) as ->.
      { cbn [Spec.splitBlank]. rewrite Hc. reflexivity. }
      rewrite H2. cbn [docx.paragraphLoop]. rewrite H3. reflexivity.
Qed.

Lemma bodyParagraphs_chunks content : docx.bodyParagraphs content = Spec.chunks content.
Proof.
  unfold docx.bodyParagraphs, Spec.chunks.
  rewrite <- paragraphLoop_pipeline.
  destruct (split_agree (length content) content) as [(h & tc & ts & H1 & H2 & H3) _];
    [lia|].
  rewrite H1, H2. cbn [docx.paragraphLoop]. rewrite H3. reflexivity.
Qed.

(** C2: the chunks Build computes are those of the specification: the
    content is split at the runs of two or more newlines, every chunk is
    trimmed, the empty ones are dropped, and every newline left in a chunk
    becomes one space while every other byte stays; no chunk is empty or
    contains a newline.  The specification's example gives A, B C, D. *)
Theorem bodyParagraphs_splits_on_blank_lines content :
  docx.bodyParagraphs content
  = map (map Spec.collapseNewline)
        (filter (fun c => Spec.nonEmpty c = true)
                (map gostrings.TrimSpace (Spec.splitBlank false content)))
  /\ Forall (fun chunk => chunk <> [] /\ LF ∉ chunk) (docx.bodyParagraphs content)
  /\ docx.bodyParagraphs Examples.chunkInput = [str "A"; str "B C"; str "D"].
Proof.
  split; [apply bodyParagraphs_chunks|].
  split; [|vm_compute; reflexivity].
  rewrite bodyParagraphs_chunks. unfold Spec.chunks.
  apply Forall_forall. intros chunk Hin.
  apply list_elem_of_fmap in Hin. destruct Hin as (t & -> & Ht).
  apply list_elem_of_filter in Ht. destruct Ht as [Hne _].
  split.
  - destruct t; [discriminate | simpl; discriminate].
  - intros Hin. apply list_elem_of_fmap in Hin. destruct Hin as (c & Hc & _).
    unfold Spec.collapseNewline in Hc.
    destruct (is_byte LF c) eqn:E; [discriminate|].
    apply is_byte_false in E. congruence.
Qed.

(** ** Title files *)

Lemma titleLoop_filter lines :
  cli.titleLoop lines
  = map gostrings.TrimSpace (filter (fun l => Spec.skipped l = false) lines).
Proof.
  induction lines as [|text lines IH]; [reflexivity|].
  cbn [cli.titleLoop]. rewrite filter_cons.
  assert (Spec.skipped text
          = match gostrings.TrimSpace text with [] => true | _ :: _ => false end
            || gostrings.HasPrefix (gostrings.TrimSpace text) (str "#")) as Hsk.
  { unfold Spec.skipped. destruct (gostrings.TrimSpace text) as [|c t]; [reflexivity|].
    cbn [orb gostrings.HasPrefix str list_ascii_of_string].
    rewrite andb_true_r. reflexivity. }
  rewrite <- Hsk.
  destruct (decide (Spec.skipped text = false)) as [Hs|Hs].
  - rewrite Hs. cbn [map]. rewrite IH. reflexivity.
  - apply not_false_is_true in Hs. rewrite Hs. exact IH.
Qed.

(** C7 (amended): of the lines the scanner returns, exactly those are
    skipped that are empty after trimming or start with '#' after
    trimming; every other line gives a title, in the order of the file and
    with duplicates kept, and the title is the trimmed line. *)
Theorem readTitlesFromFile_trims w path data :
  texts w !! path = Some data ->
  cli.readTitlesFromFile w path
  = (map gostrings.TrimSpace
         (filter (fun l => Spec.skipped l = false) (fst (bufio.scanLines data))),
     snd (bufio.scanLines data)).
Proof.
  intros Hopen. unfold cli.readTitlesFromFile. rewrite Hopen.
  destruct (bufio.scanLines data) as [lines e]. rewrite titleLoop_filter.
  reflexivity.
Qed.

Lemma readTitlesFromFile_trims_witness :
  cli.readTitlesFromFile Examples.titleWorld (str "titles.txt")
  = ([str "A"; str "B"], None).
Proof.
  rewrite (readTitlesFromFile_trims _ _ Examples.titleFile); reflexivity.
Defined.

(** C7 as stated fails: the line of a padded title is not taken verbatim. *)
Lemma readTitlesFromFile_not_verbatim :
  fst (bufio.scanLines Examples.titleFile) = [str "  A "; str "# c"; []; str "B"]
  /\ fst (cli.readTitlesFromFile Examples.titleWorld (str "titles.txt"))
     = [str "A"; str "B"]
  /\ fst (cli.readTitlesFromFile Examples.titleWorld (str "titles.txt"))
     <> filter (fun l => Spec.skipped l = false)
               (fst (bufio.scanLines Examples.titleFile)).
Proof.
  split; [vm_compute; reflexivity|]. split; [vm_compute; reflexivity|].
  vm_compute. discriminate.
Qed.

(** ** The archive that writeDocx leaves on disk *)

Lemma bind_Ok {A B} (m : IO A) (k : A -> IO B) w b w' :
  bind m k w = (Ok b, w') -> exists a w1, m w = (Ok a, w1) /\ k a w1 = (Ok b, w').
Proof.
  unfold bind. destruct (m w) as [[a|e] w1]; intros H; [|discriminate].
  exists a, w1. split; [reflexivity | exact H].
Qed.

Lemma wrapErr_Ok {A} msg (m : IO A) w a w' :
  wrapErr msg m w = (Ok a, w') -> m w = (Ok a, w').
Proof.
  unfold wrapErr. destruct (m w) as [[a1|e] w1]; intros H; [|discriminate].
  exact H.
Qed.

Lemma nextFault_fs w : fs (snd (nextFault w)) = fs w.
Proof. unfold nextFault. destruct (faults w); reflexivity. Qed.

Lemma fileOp_Ok name effect w w' :
  fileOp name effect w = (Ok tt, w') -> w' = effect (snd (nextFault w)).
Proof.
  unfold fileOp. destruct (nextFault w) as [[|] w1]; intros H; [discriminate|].
  inversion H. reflexivity.
Qed.

Lemma osCreate_fs path w w' :
  osCreate path w = (Ok tt, w') -> fs w' = <[path := []]> (fs w).
Proof. intros H. apply fileOp_Ok in H. subst w'. simpl. rewrite nextFault_fs. reflexivity. Qed.

Lemma setLast_snoc content (a : archive) name :
  setLast content (a ++ [(name, [])]) = a ++ [(name, content)].
Proof.
  unfold setLast. rewrite reverse_snoc, reverse_involutive. reflexivity.
Qed.

Lemma addFile_fs path name content w w' :
  docx.addFile path name content w = (Ok tt, w') ->
  fs w' = <[path := default [] (fs w !! path) ++ [(name, content)]]> (fs w).
Proof.
  intros H. unfold docx.addFile in H.
  apply bind_Ok in H. destruct H as ([] & w1 & H1 & H2).
  apply fileOp_Ok in H1. apply fileOp_Ok in H2. subst w' w1. simpl.
  rewrite !nextFault_fs. simpl.
  rewrite lookup_insert_eq. simpl. rewrite setLast_snoc.
  rewrite insert_insert_eq. reflexivity.
Qed.

Lemma writeDocx_fs path title paragraphs w w' :
  docx.writeDocx path title paragraphs w = (Ok tt, w') ->
  fs w' = <[path := docxEntries title paragraphs]> (fs w).
Proof.
  intros H. unfold docx.writeDocx in H.
  apply bind_Ok in H. destruct H as ([] & w1 & H1 & H).
  apply bind_Ok in H. destruct H as ([] & w2 & H2 & H).
  apply bind_Ok in H. destruct H as ([] & w3 & H3 & H4).
  apply wrapErr_Ok, osCreate_fs in H1.
  apply wrapErr_Ok, addFile_fs in H2.
  apply wrapErr_Ok, addFile_fs in H3.
  apply wrapErr_Ok, addFile_fs in H4.
  rewrite H4, H3, H2, H1.
  rewrite !lookup_insert_eq, !insert_insert_eq. reflexivity.
Qed.

Lemma MkdirAll_fs dir w w' : MkdirAll dir w = (Ok tt, w') -> fs w' = fs w.
Proof. intros H. apply fileOp_Ok in H. subst w'. simpl. apply nextFault_fs. Qed.

Lemma Build_fs Join title content outDir w w' :
  docx.Build Join title content outDir w = (Ok tt, w') ->
  fs w' = <[docx.outPathOf Join title outDir
            := docxEntries title (docx.bodyParagraphs content)]> (fs w).
Proof.
  intros H. unfold docx.Build in H.
  apply bind_Ok in H. destruct H as ([] & w1 & H1 & H2).
  apply wrapErr_Ok, MkdirAll_fs in H1.
  apply wrapErr_Ok, writeDocx_fs in H2. rewrite H2, H1. reflexivity.
Qed.

(** C3: when the packager has written an article, the archive at the
    output path holds exactly three entries, named [Content_Types].xml,
    _rels/.rels and word/document.xml, in this order, and no other file
    has changed. *)
Theorem Build_writes_three_entries Join title content outDir w w' :
  docx.Build Join title content outDir w = (Ok tt, w') ->
  exists a,
    fs w' !! docx.outPathOf Join title outDir = Some a
    /\ map fst a = [str "[Content_Types].xml"; str "_rels/.rels"; str "word/document.xml"]
    /\ length a = 3%nat
    /\ a = docxEntries title (docx.bodyParagraphs content)
    /\ forall p, p <> docx.outPathOf Join title outDir -> fs w' !! p = fs w !! p.
Proof.
  intros H. apply Build_fs in H.
  exists (docxEntries title (docx.bodyParagraphs content)).
  rewrite H. split; [apply lookup_insert_eq|].
  split; [reflexivity|]. split; [reflexivity|]. split; [reflexivity|].
  intros p Hp. apply lookup_insert_ne. congruence.
Qed.

Lemma Build_writes_three_entries_witness :
  match docx.Build Examples.joinSlash (str "Alan Turing") (str "Born 1912.")
          (str "out") Examples.emptyWorld with
  | (Ok _, w') =>
    map fst <$> (fs w' !! str "out/Alan_Turing.docx")
    = Some [str "[Content_Types].xml"; str "_rels/.rels"; str "word/document.xml"]
  | (Err _, _) => False
  end.
Proof.
  destruct (docx.Build Examples.joinSlash (str "Alan Turing") (str "Born 1912.")
              (str "out") Examples.emptyWorld) as [[[]|e] w'] eqn:HB;
    [|vm_compute in HB; discriminate].
  destruct (Build_writes_three_entries _ _ _ _ _ _ HB) as (a & Ha & Hn & _).
  change (docx.outPathOf Examples.joinSlash (str "Alan Turing") (str "out"))
    with (str "out/Alan_Turing.docx") in Ha.
  rewrite Ha. simpl. rewrite Hn. reflexivity.
Defined.

(** ** Fetching and naming the file *)

Lemma httpGet_Ok req w body w' :
  httpGet req w = (Ok body, w') ->
  exists pages random rest,
    http w = Reply 200 (Json pages random) :: rest
    /\ body = Json pages random
    /\ fs w' = fs w
    /\ http w' = rest
    /\ calls w' = calls w ++ [(req, Reply 200 body)].
Proof.
  unfold httpGet. destruct (http w) as [|o rest] eqn:Hh; [discriminate|].
  destruct o as [| |status body0]; [discriminate|discriminate|].
  destruct (Z.eqb_spec status 200) as [->|Hne]; simpl; [|discriminate].
  destruct body0 as [|pages random]; [discriminate|].
  intros H. inversion H; subst. exists pages, random, rest.
  repeat split; reflexivity.
Qed.

Lemma FetchArticle_Ok title w article w' :
  wiki.FetchArticle title w = (Ok article, w') ->
  exists page pages random rest,
    http w = Reply 200 (Json (page :: pages) random) :: rest
    /\ article = wiki.mkArticle (page_title page) (page_extract page)
    /\ fs w' = fs w.
Proof.
  intros H. unfold wiki.FetchArticle in H.
  apply bind_Ok in H. destruct H as (body & w1 & H1 & H2).
  apply httpGet_Ok in H1.
  destruct H1 as (pages & random & rest & Hh & -> & Hfs & _ & _).
  destruct pages as [|page pages]; [discriminate|].
  inversion H2; subst. exists page, pages, random, rest.
  repeat split; [exact Hh | exact Hfs].
Qed.

(** C9: when an article has been processed, the file written is named
    after the title of the page the response holds, whatever title was
    requested; its heading and body come from that page too, and no other
    file has changed. *)
Theorem processArticle_names_file_after_page Join title outDir w w' :
  cli.processArticle Join title outDir w = (Ok tt, w') ->
  exists page pages random rest,
    http w = Reply 200 (Json (page :: pages) random) :: rest
    /\ fs w' = <[Join outDir (docx.safeFilename (page_title page) ++ str ".docx")
                 := docxEntries (page_title page)
                                (docx.bodyParagraphs (page_extract page))]> (fs w).
Proof.
  intros H. unfold cli.processArticle in H.
  apply bind_Ok in H. destruct H as (article & w1 & H1 & H2).
  apply wrapErr_Ok, FetchArticle_Ok in H1.
  destruct H1 as (page & pages & random & rest & Hh & -> & Hfs).
  apply wrapErr_Ok, Build_fs in H2. simpl in H2.
  exists page, pages, random, rest. split; [exact Hh|].
  rewrite H2, Hfs. reflexivity.
Qed.

(** The request for UK, answered with the page United Kingdom, writes
    United_Kingdom.docx and no UK.docx. *)
Lemma processArticle_names_file_after_page_witness :
  match cli.processArticle Examples.joinSlash (str "UK") (str "out")
          Examples.redirectWorld with
  | (Ok _, w') =>
    is_Some (fs w' !! str "out/United_Kingdom.docx")
    /\ fs w' !! str "out/UK.docx" = None
  | (Err _, _) => False
  end.
Proof.
  destruct (cli.processArticle Examples.joinSlash (str "UK") (str "out")
              Examples.redirectWorld) as [[[]|e] w'] eqn:HP;
    [|vm_compute in HP; discriminate].
  destruct (processArticle_names_file_after_page _ _ _ _ _ HP)
    as (page & pages & random & rest & Hh & Hfs).
  injection Hh as <- _ _ _. rewrite Hfs. split.
  - eexists. apply lookup_insert_eq.
  - rewrite lookup_insert_ne; [reflexivity | vm_compute; discriminate].
Defined.

(** ** Random titles *)

Lemma wrap64_id x : wiki.int_range x -> wiki.wrap64 x = x.
Proof.
  unfold wiki.int_range, wiki.wrap64. intros H.
  rewrite Z.mod_small by lia. lia.
Qed.

Lemma wrap64_range x : wiki.int_range (wiki.wrap64 x).
Proof.
  unfold wiki.int_range, wiki.wrap64.
  pose proof (Z.mod_pos_bound (x + 2 ^ 63) (2 ^ 64) ltac:(lia)). lia.
Qed.

Lemma httpGet_calls req w r w' :
  httpGet req w = (r, w') ->
  exists o, calls w' = calls w ++ [(req, o)]
    /\ forall body, r = Ok body ->
         exists pages random, body = Json pages random /\ o = Reply 200 body.
Proof.
  unfold httpGet.
  destruct (match http w with [] => (DoError, []) | o :: rest => (o, rest) end)
    as [o rest].
  destruct o as [| |status body0].
  - intros H; inversion H; subst. eexists; split; [reflexivity|]. discriminate.
  - intros H; inversion H; subst. eexists; split; [reflexivity|]. discriminate.
  - destruct (Z.eqb_spec status 200) as [->|Hne]; simpl.
    + destruct body0 as [|pages random]; intros H; inversion H; subst;
        (eexists; split; [reflexivity|]); [discriminate|].
      intros body Hb. inversion Hb; subst. exists pages, random. split; reflexivity.
    + intros H; inversion H; subst. eexists; split; [reflexivity|]. discriminate.
Qed.

Lemma addBatch_inv limit batch :
  forall (u : gset bytes) result u' result',
    wiki.addBatch limit batch u result = (u', result') ->
    NoDup result -> (forall t, t ∈ u <-> t ∈ result) ->
    wiki.len result < limit ->
    NoDup result' /\ (forall t, t ∈ u' <-> t ∈ result')
    /\ wiki.len result' <= limit.
Proof.
  unfold wiki.len.
  induction batch as [|t rest IH]; intros u result u' result' H Hnd Hel Hlt.
  - inversion H; subst. repeat split; try apply Hel; try assumption. lia.
  - cbn [wiki.addBatch] in H. destruct (decide (t ∈ u)) as [Hin|Hin].
    + eapply IH; eassumption.
    + assert (NoDup (result ++ [t])) as Hnd'.
      { apply NoDup_app. split; [exact Hnd|]. split; [|apply NoDup_singleton].
        intros x Hx Hx'. apply list_elem_of_singleton in Hx'. subst x.
        apply Hin, Hel, Hx. }
      assert (forall x, x ∈ ({[t]} ∪ u : gset bytes) <-> x ∈ result ++ [t]) as Hel'.
      { intros x. rewrite elem_of_union, elem_of_singleton, elem_of_app,
          list_elem_of_singleton, Hel. tauto. }
      assert (wiki.len (result ++ [t]) = Z.of_nat (length result) + 1) as Hlen.
      { unfold wiki.len. rewrite length_app. simpl. lia. }
      unfold wiki.len in Hlen.
      destruct (Z.leb_spec limit (wiki.len (result ++ [t]))) as [Hge|Hlt'];
        unfold wiki.len in *.
      * inversion H; subst. repeat split; try apply Hel'; try assumption. lia.
      * eapply IH; try eassumption.
Qed.

Lemma size_of_NoDup (u : gset bytes) (result : list bytes) :
  NoDup result -> (forall t, t ∈ u <-> t ∈ result) -> size u = length result.
Proof.
  intros Hnd Hel.
  assert (u = list_to_set result) as ->.
  { apply set_eq. intros t. rewrite elem_of_list_to_set. apply Hel. }
  apply size_list_to_set, Hnd.
Qed.

Lemma randomLoop_spec limit fuel :
  let M := wiki.maxAttemptsOf limit in
  forall (u : gset bytes) result attempts w,
    0 <= attempts ->
    (Z.to_nat (M - attempts) <= fuel)%nat ->
    NoDup result -> (forall t, t ∈ u <-> t ∈ result) ->
    wiki.len result <= Z.max 0 limit ->
    exists titles err w' new,
      wiki.randomLoop fuel limit M u result attempts w = Some ((titles, err), w')
      /\ NoDup titles
      /\ wiki.len titles <= Z.max 0 limit
      /\ calls w' = calls w ++ new
      /\ attempts + wiki.len new <= Z.max attempts M
      /\ (err = None -> wiki.len titles < limit ->
          (exists req pages, last new = Some (req, Reply 200 (Json pages [])))
          \/ M <= attempts + wiki.len new).
Proof.
  intros M.
  pose proof (wrap64_range (limit * 3)) as HM. fold (wiki.maxAttemptsOf limit) in HM.
  fold M in HM. unfold wiki.int_range in HM.
  induction fuel as [|fuel IH]; intros u result attempts w Hatt Hfuel Hnd Hel Hlen;
    pose proof (size_of_NoDup u result Hnd Hel) as Hsize.
  - cbn [wiki.randomLoop].
    destruct ((Z.of_nat (size u) <? limit) && (attempts <? M)) eqn:Hcond.
    + apply andb_true_iff in Hcond. destruct Hcond as [_ Hc].
      apply Z.ltb_lt in Hc. lia.
    + exists result, None, w, []. rewrite app_nil_r.
      repeat split; try assumption; [unfold wiki.len; simpl; lia|].
      intros _ Hlt. right. unfold wiki.len in *. simpl.
      apply andb_false_iff in Hcond. destruct Hcond as [Hc|Hc].
      * apply Z.ltb_ge in Hc. lia.
      * apply Z.ltb_ge in Hc. lia.
  - cbn [wiki.randomLoop].
    destruct ((Z.of_nat (size u) <? limit) && (attempts <? M)) eqn:Hcond.
    + apply andb_true_iff in Hcond. destruct Hcond as [Hc1 Hc2].
      apply Z.ltb_lt in Hc1. apply Z.ltb_lt in Hc2.
      rewrite (wrap64_id (attempts + 1)) by (unfold wiki.int_range; lia).
      set (batchSize := if 500 <? _ then 500 else _).
      destruct (httpGet (ReqRandom batchSize) w) as [r w1] eqn:Hget.
      apply httpGet_calls in Hget. destruct Hget as (o & Hcalls & Hok).
      assert (attempts + wiki.len [(ReqRandom batchSize, o)] <= Z.max attempts M)
        as Hone by (unfold wiki.len; simpl; lia).
      destruct r as [body|e].
      * destruct (Hok body eq_refl) as (pages & random & -> & ->).
        destruct (Z.eqb_spec (wiki.len random) 0) as [Hz|Hnz].
        { exists result, None, w1, [(ReqRandom batchSize, Reply 200 (Json pages random))].
          repeat split; try assumption.
          intros _ _. left. exists (ReqRandom batchSize), pages.
          destruct random; [reflexivity | unfold wiki.len in Hz; simpl in Hz; lia]. }
        destruct (wiki.addBatch limit random u result) as [u' result'] eqn:Hadd.
        apply addBatch_inv in Hadd; try assumption;
          [|unfold wiki.len in *; lia].
        destruct Hadd as (Hnd' & Hel' & Hlen').
        destruct (IH u' result' (attempts + 1) w1) as
          (titles & err & w' & new & Hrun & Hnd2 & Hlen2 & Hcalls2 & Hatt2 & Hwhy);
          try assumption; try lia.
        exists titles, err, w', ((ReqRandom batchSize, Reply 200 (Json pages random)) :: new).
        split; [exact Hrun|]. split; [exact Hnd2|]. split; [exact Hlen2|].
        split; [rewrite Hcalls2, Hcalls, <- app_assoc; reflexivity|].
        assert (wiki.len ((ReqRandom batchSize, Reply 200 (Json pages random)) :: new)
                = 1 + wiki.len new) as Hl
          by (unfold wiki.len; simpl length; lia).
        rewrite Hl. split; [lia|].
        intros He Hlt. destruct (Hwhy He Hlt) as [(req & pg & Hlast)|Hbound].
        { left. exists req, pg. destruct new; [discriminate | exact Hlast]. }
        right. lia.
      * exists result, (Some e), w1, [(ReqRandom batchSize, o)].
        repeat split; try assumption. discriminate.
    + exists result, None, w, []. rewrite app_nil_r.
      repeat split; try assumption; [unfold wiki.len; simpl; lia|].
      intros _ Hlt. right. unfold wiki.len in *. simpl.
      apply andb_false_iff in Hcond. destruct Hcond as [Hc|Hc].
      * apply Z.ltb_ge in Hc. lia.
      * apply Z.ltb_ge in Hc. lia.
Qed.

(** C6: for every limit, GetRandomTitles returns (the loop ends after at
    most maxAttempts requests, so it cannot go on forever) at most limit
    titles, pairwise distinct; and when it returns without error fewer
    than limit titles, the last batch was empty or the number of requests
    made has reached the attempt bound, which is three times the limit
    whenever that product fits Go's int. *)
Theorem GetRandomTitles_bounded_distinct limit w :
  exists titles err w' new,
    wiki.GetRandomTitles limit w = Some ((titles, err), w')
    /\ (length titles <= Z.to_nat limit)%nat
    /\ NoDup titles
    /\ calls w' = calls w ++ new
    /\ wiki.len new <= Z.max 0 (wiki.maxAttemptsOf limit)
    /\ (err = None -> wiki.len titles < limit ->
        (exists req pages, last new = Some (req, Reply 200 (Json pages [])))
        \/ wiki.maxAttemptsOf limit <= wiki.len new)
    /\ (- 2 ^ 63 <= 3 * limit < 2 ^ 63 -> wiki.maxAttemptsOf limit = 3 * limit).
Proof.
  unfold wiki.GetRandomTitles.
  destruct (randomLoop_spec limit (Z.to_nat (wiki.maxAttemptsOf limit))
              ∅ [] 0 w) as
    (titles & err & w' & new & Hrun & Hnd & Hlen & Hcalls & Hatt & Hwhy).
  - lia.
  - lia.
  - apply NoDup_nil_2.
  - intros t. rewrite elem_of_empty, elem_of_nil. tauto.
  - unfold wiki.len. simpl. lia.
  - exists titles, err, w', new. split; [exact Hrun|].
    split; [unfold wiki.len in Hlen; lia|]. split; [exact Hnd|].
    split; [exact Hcalls|]. split; [lia|]. split.
    + intros He Hlt. destruct (Hwhy He Hlt) as [H|H]; [left; exact H | right; lia].
    + intros Hfit. unfold wiki.maxAttemptsOf. rewrite wrap64_id;
        [lia | unfold wiki.int_range; lia].
Qed.

(** Three titles asked for: the batches hold a duplicate, then nothing
    new, then nothing at all; two titles come back, without error, after
    an empty batch. *)
Lemma GetRandomTitles_bounded_distinct_witness :
  exists w' new,
    wiki.GetRandomTitles 3 Examples.randomWorld
      = Some (([str "A"; str "B"], None), w')
    /\ calls w' = new
    /\ ((exists req pages, last new = Some (req, Reply 200 (Json pages [])))
        \/ wiki.maxAttemptsOf 3 <= wiki.len new).
Proof.
  destruct (GetRandomTitles_bounded_distinct 3 Examples.randomWorld)
    as (titles & err & w' & new & Hrun & _ & _ & Hcalls & _ & Hwhy & _).
  vm_compute in Hrun. injection Hrun as <- <- <-.
  exists (mkWorld ∅ ∅ ∅ [] []
            [(ReqRandom 3, Reply 200 (Json [] [str "A"; str "B"; str "A"]));
             (ReqRandom 1, Reply 200 (Json [] [str "B"]));
             (ReqRandom 1, Reply 200 (Json [] []))]), new.
  split; [vm_compute; reflexivity|]. split; [exact Hcalls|].
  apply Hwhy; [reflexivity | unfold wiki.len; simpl; lia].
Defined.

(** C10: for a limit of zero or less, GetRandomTitles returns the empty
    list and no error and leaves the environment as it was: no request is
    made.  The same holds for the earlier revision on go-wiki. *)
Theorem GetRandomTitles_nonpositive limit w :
  limit <= 0 ->
  wiki.GetRandomTitles limit w = Some (([], None), w)
  /\ forall fuel, wiki.GetRandomTitles_gowiki_go fuel limit [] w = Some (([], None), w).
Proof.
  intros Hle. split.
  - unfold wiki.GetRandomTitles.
    destruct (Z.to_nat (wiki.maxAttemptsOf limit)) as [|fuel]; cbn [wiki.randomLoop];
      rewrite size_empty; destruct (Z.ltb_spec (Z.of_nat 0) limit); try lia;
      reflexivity.
  - intros [|fuel]; cbn [wiki.GetRandomTitles_gowiki_go];
      unfold wiki.len; simpl length;
      destruct (Z.ltb_spec (Z.of_nat 0) limit); try lia; reflexivity.
Qed.

Lemma GetRandomTitles_nonpositive_witness :
  wiki.GetRandomTitles (-3) Examples.randomWorld = Some (([], None), Examples.randomWorld)
  /\ sent Examples.randomWorld = [].
Proof.
  split; [|reflexivity].
  apply (GetRandomTitles_nonpositive (-3) Examples.randomWorld). lia.
Defined.

(** ** The worker pool *)

Lemma spawn_count fuel :
  forall i nWorkers started,
    fuel = Z.to_nat (nWorkers - i) ->
    cli.spawn fuel i nWorkers started = (started + fuel)%nat.
Proof.
  induction fuel as [|fuel IH]; intros i nWorkers started Hf; simpl; [lia|].
  destruct (Z.ltb_spec i nWorkers); [|lia].
  rewrite IH by lia. lia.
Qed.

Lemma startPool_live titles nWorkers w :
  cli.live (cli.startPool titles nWorkers w) = Z.to_nat nWorkers.
Proof.
  unfold cli.startPool. cbn [cli.live].
  rewrite spawn_count by (f_equal; lia). lia.
Qed.

Section PoolRuns.
Variable Join : bytes -> bytes -> bytes.
Variable outDir : bytes.
Variable titles : list bytes.

Lemma step_inv p p' : cli.step Join outDir p p' -> poolInv titles p -> poolInv titles p'.
Proof.
  intros Hstep [Hq Hl]. destruct Hstep as [p t rest w' Hqueue Hlive _
                                         |p t rest e w' Hqueue Hlive _
                                         |p Hqueue Hlive]; unfold poolInv; simpl.
  - rewrite Hqueue in Hq. rewrite <- app_assoc. split; [exact Hq | lia].
  - rewrite Hqueue in Hq. rewrite <- app_assoc. split; [exact Hq | lia].
  - rewrite Hqueue, app_nil_r in Hq. rewrite app_nil_r.
    split; [exact Hq | congruence].
Qed.

Lemma steps_inv p p' : cli.steps Join outDir p p' -> poolInv titles p -> poolInv titles p'.
Proof.
  induction 1 as [p|p1 p2 p3 H12 _ IH]; intros Hinv; [exact Hinv|].
  apply IH. eapply step_inv; eassumption.
Qed.

(** Every pool can run until all its workers have returned. *)
Lemma pool_finishes q :
  forall l h f w, exists p',
    cli.steps Join outDir (cli.mkPool q l h f w) p' /\ cli.joined p'.
Proof.
  induction q as [|t rest IH]; intros l h f w.
  - revert h f w. induction l as [|l IHl]; intros h f w.
    + eexists. split; [apply cli.steps_refl | reflexivity].
    + destruct (IHl h f w) as (p' & Hs & Hj). exists p'. split; [|exact Hj].
      eapply cli.steps_step; [|exact Hs].
      pose proof (cli.step_return Join outDir (cli.mkPool [] (S l) h f w)
                    eq_refl ltac:(simpl; lia)) as Hst.
      simpl in Hst. rewrite Nat.sub_0_r in Hst. exact Hst.
  - destruct l as [|l].
    + eexists. split; [apply cli.steps_refl | reflexivity].
    + destruct (cli.processArticle Join t outDir w) as [[[]|e] w'] eqn:Hp.
      * destruct (IH (S l) (h ++ [t]) f w') as (p' & Hs & Hj).
        exists p'. split; [|exact Hj].
        eapply cli.steps_step; [|exact Hs].
        apply (cli.step_ok Join outDir (cli.mkPool (t :: rest) (S l) h f w) t rest w');
          [reflexivity | simpl; lia | exact Hp].
      * destruct (IH (S l) (h ++ [t]) (f ++ [t]) w') as (p' & Hs & Hj).
        exists p'. split; [|exact Hj].
        eapply cli.steps_step; [|exact Hs].
        apply (cli.step_fail Join outDir (cli.mkPool (t :: rest) (S l) h f w) t rest e w');
          [reflexivity | simpl; lia | exact Hp].
Qed.

Lemma no_worker_no_step p p' :
  cli.live p = 0%nat -> cli.steps Join outDir p p' -> p' = p.
Proof.
  intros Hl Hs. destruct Hs as [p|p1 p2 p3 H12 _]; [reflexivity|].
  destruct H12; lia.
Qed.
End PoolRuns.

(** C8 (amended): main starts as many workers as the configured count,
    none when the count is zero or less.  With a count of at least one,
    the pool can always run until every worker has returned, and whenever
    all have returned the queue is empty and every title has been handled,
    in the order of the queue.  With a count of zero or less the wait
    returns at once: no step is possible, no title is handled and the
    queue keeps all titles. *)
Theorem pool_workers_as_configured Join outDir titles nWorkers w :
  let start := cli.startPool titles nWorkers w in
  cli.live start = Z.to_nat nWorkers
  /\ (1 <= nWorkers ->
      (exists p, cli.steps Join outDir start p /\ cli.joined p)
      /\ forall p, cli.steps Join outDir start p -> cli.joined p ->
           cli.queue p = [] /\ cli.handled p = titles)
  /\ (nWorkers <= 0 ->
      cli.joined start
      /\ forall p, cli.steps Join outDir start p ->
           cli.queue p = titles /\ cli.handled p = []).
Proof.
  cbv zeta. split; [apply startPool_live|]. split.
  - intros Hw. split; [apply pool_finishes|].
    intros p Hs Hj.
    assert (poolInv titles (cli.startPool titles nWorkers w)) as Hinv.
    { split; [reflexivity|]. intros _. rewrite startPool_live. lia. }
    apply (steps_inv Join outDir titles _ _ Hs) in Hinv.
    destruct Hinv as [Hq Hl]. unfold cli.joined in Hj.
    destruct (cli.queue p) as [|t rest] eqn:Hqueue.
    + rewrite app_nil_r in Hq. split; [reflexivity | exact Hq].
    + assert (1 <= cli.live p)%nat by (apply Hl; discriminate). lia.
  - intros Hw.
    assert (cli.live (cli.startPool titles nWorkers w) = 0%nat) as Hl
      by (rewrite startPool_live; lia).
    split; [exact Hl|].
    intros p Hs. apply (no_worker_no_step Join outDir _ _ Hl) in Hs. subst p.
    split; reflexivity.
Qed.

Lemma pool_workers_as_configured_witness :
  cli.live (cli.startPool [str "UK"] 5 Examples.redirectWorld) = 5%nat
  /\ exists p,
       cli.steps Examples.joinSlash (str "out")
         (cli.startPool [str "UK"] 5 Examples.redirectWorld) p
       /\ cli.joined p.
Proof.
  destruct (pool_workers_as_configured Examples.joinSlash (str "out") [str "UK"] 5
              Examples.redirectWorld) as (Hlive & Hpos & _).
  split; [exact Hlive|].
  destruct Hpos as [Hex _]; [lia | exact Hex].
Defined.

(** C8 as stated fails: with -workers 0 no worker is started, the wait
    returns with the title still in the queue, and main counts the title
    as succeeded. *)
Lemma pool_zero_workers_idle :
  cli.mergeWorkers 0 0 0 = 0
  /\ cli.live (cli.startPool [str "UK"] 0 Examples.redirectWorld) = 0%nat
  /\ cli.joined (cli.startPool [str "UK"] 0 Examples.redirectWorld)
  /\ cli.queue (cli.startPool [str "UK"] 0 Examples.redirectWorld)
     = [str "UK"]
  /\ cli.succeeded [str "UK"]
       (cli.startPool [str "UK"] 0 Examples.redirectWorld) = 1.
Proof. repeat split. Qed.

(** ** Decoding UTF-8 and escaping for XML *)

Lemma byteZ_range c : 0 <= byteZ c < 256.
Proof.
  unfold byteZ. pose proof (N_ascii_bounded c). lia.
Qed.

Lemma byteZ_inj a b : byteZ a = byteZ b -> a = b.
Proof.
  unfold byteZ. intros H. apply N2Z.inj in H.
  rewrite <- (ascii_N_embedding a), <- (ascii_N_embedding b), H. reflexivity.
Qed.

Lemma lor_ge_l x y : 0 <= x -> 0 <= y -> x <= Z.lor x y.
Proof.
  intros Hx Hy. pose proof (Z.sub_lor_l_same_r y x) as H.
  rewrite (Z.lor_comm y x) in H.
  assert (0 <= Z.land y (Z.lnot x)) by (apply Z.land_nonneg; left; exact Hy).
  lia.
Qed.

Lemma lor_ge_r x y : 0 <= x -> 0 <= y -> y <= Z.lor x y.
Proof. intros. rewrite Z.lor_comm. apply lor_ge_l; assumption. Qed.

Lemma field_eq x n k : 0 <= n -> 0 <= k ->
  Z.shiftl (Z.land x (Z.ones n)) k = (x mod 2 ^ n) * 2 ^ k.
Proof. intros. rewrite Z.land_ones, Z.shiftl_mul_pow2 by lia. reflexivity. Qed.

Lemma rune2_ge p0 b1 :
  0xC2 <= p0 < 0xE0 -> 0 <= b1 ->
  128 <= Z.lor (Z.shiftl (Z.land p0 0x1F) 6) (Z.land b1 0x3F).
Proof.
  intros Hp Hb.
  change 0x1F with (Z.ones 5). rewrite field_eq by lia.
  assert (0 <= Z.land b1 0x3F) by (apply Z.land_nonneg; left; lia).
  assert (128 <= p0 mod 2 ^ 5 * 2 ^ 6).
  { change (2 ^ 5) with 32. change (2 ^ 6) with 64.
    assert (p0 mod 32 = p0 - 192) as ->; [|lia].
    symmetry. apply (Z.mod_unique_pos _ _ 6); lia. }
  etransitivity; [|apply lor_ge_l]; lia.
Qed.

Lemma mod_sub x m k : 0 < m -> k * m <= x < (k + 1) * m -> x mod m = x - k * m.
Proof. intros Hm Hx. symmetry. apply (Z.mod_unique_pos _ _ k); lia. Qed.

Lemma rune3_ge p0 b1 b2 :
  0xE0 <= p0 < 0xF0 -> 0x80 <= b1 <= 0xBF -> (p0 = 0xE0 -> 0xA0 <= b1) -> 0 <= b2 ->
  128 <= Z.lor (Z.lor (Z.shiftl (Z.land p0 0x0F) 12) (Z.shiftl (Z.land b1 0x3F) 6))
               (Z.land b2 0x3F).
Proof.
  intros Hp Hb Hlo Hb2.
  assert (0 <= Z.land b2 0x3F) by (apply Z.land_nonneg; left; lia).
  set (C := Z.land b2 0x3F) in *.
  change 0x0F with (Z.ones 4). change 0x3F with (Z.ones 6).
  rewrite !field_eq by lia.
  change (2 ^ 4) with 16. change (2 ^ 6) with 64. change (2 ^ 12) with 4096.
  rewrite (mod_sub p0 16 14), (mod_sub b1 64 2) by lia.
  set (A := (p0 - 14 * 16) * 4096). set (B := (b1 - 2 * 64) * 64).
  assert (0 <= A) by (unfold A; lia). assert (0 <= B) by (unfold B; lia).
  assert (128 <= Z.lor A B).
  { destruct (Z.eq_dec p0 0xE0) as [He|Hne].
    - specialize (Hlo He). etransitivity; [|apply lor_ge_r]; unfold B; lia.
    - etransitivity; [|apply lor_ge_l]; unfold A; lia. }
  etransitivity; [|apply lor_ge_l]; lia.
Qed.

Lemma rune4_ge p0 b1 b2 b3 :
  0xF0 <= p0 <= 0xF4 -> 0x80 <= b1 <= 0xBF -> (p0 = 0xF0 -> 0x90 <= b1) ->
  0 <= b2 -> 0 <= b3 ->
  128 <= Z.lor (Z.lor (Z.lor (Z.shiftl (Z.land p0 0x07) 18)
                             (Z.shiftl (Z.land b1 0x3F) 12))
                      (Z.shiftl (Z.land b2 0x3F) 6))
               (Z.land b3 0x3F).
Proof.
  intros Hp Hb Hlo Hb2 Hb3.
  assert (0 <= Z.land b3 0x3F) by (apply Z.land_nonneg; left; lia).
  assert (0 <= Z.shiftl (Z.land b2 0x3F) 6)
    by (apply Z.shiftl_nonneg, Z.land_nonneg; left; lia).
  set (D := Z.land b3 0x3F) in *. set (C := Z.shiftl (Z.land b2 0x3F) 6) in *.
  change 0x07 with (Z.ones 3). change 0x3F with (Z.ones 6).
  rewrite !field_eq by lia.
  change (2 ^ 3) with 8. change (2 ^ 6) with 64. change (2 ^ 12) with 4096.
  change (2 ^ 18) with 262144.
  rewrite (mod_sub p0 8 30), (mod_sub b1 64 2) by lia.
  set (A := (p0 - 30 * 8) * 262144). set (B := (b1 - 2 * 64) * 4096).
  assert (0 <= A) by (unfold A; lia). assert (0 <= B) by (unfold B; lia).
  assert (128 <= Z.lor A B).
  { destruct (Z.eq_dec p0 0xF0) as [He|Hne].
    - specialize (Hlo He). etransitivity; [|apply lor_ge_r]; unfold B; lia.
    - etransitivity; [|apply lor_ge_l]; unfold A; lia. }
  assert (0 <= Z.lor A B) by (apply Z.lor_nonneg; lia).
  assert (128 <= Z.lor (Z.lor A B) C)
    by (etransitivity; [|apply lor_ge_l]; lia).
  etransitivity; [|apply lor_ge_l]; lia.
Qed.

Lemma DecodeRune_cases c s r w :
  utf8.DecodeRune (c :: s) = (r, w) ->
  (w = 1%nat /\ byteZ c < 128 /\ r = byteZ c)
  \/ (w = 1%nat /\ r = utf8.RuneError)
  \/ ((2 <= w <= 4)%nat /\ 128 <= r /\ allHigh (take w (c :: s))).
Proof.
  pose proof (byteZ_range c) as Hc.
  unfold utf8.DecodeRune, utf8.RuneSelf.
  destruct (Z.ltb_spec (byteZ c) 128) as [Hascii|Hhigh0].
  { intros Heq; inversion Heq; subst. left. repeat split. exact Hascii. }
  destruct ((byteZ c <? 194) || (244 <? byteZ c)) eqn:Hlead; [bad_rune|].
  range_test Hlead. cbv zeta.
  set (lo := if byteZ c =? 224 then 160 else if byteZ c =? 240 then 144 else 128).
  set (hi := if byteZ c =? 237 then 159 else if byteZ c =? 244 then 143 else 191).
  assert (128 <= lo /\ (byteZ c = 224 -> 160 <= lo) /\ (byteZ c = 240 -> 144 <= lo))
    as (Hlo1 & Hlo2 & Hlo3) by (unfold lo; split_tests; lia).
  assert (hi <= 191) as Hhi by (unfold hi; split_tests; lia).
  clearbody lo hi.
  destruct s as [|c1 s].
  { destruct (byteZ c <? 224); [|destruct (byteZ c <? 240)]; simpl; bad_rune. }
  pose proof (byteZ_range c1) as Hc1.
  destruct (Z.ltb_spec (byteZ c) 224) as [Hp2|Hp2].
  { (* two bytes *)
    cbn [length Nat.ltb Nat.leb].
    destruct ((byteZ c1 <? lo) || (hi <? byteZ c1)) eqn:Hb1; [bad_rune|].
    range_test Hb1. intros Heq; inversion Heq; subst. right; right.
    split; [lia|]. split; [apply rune2_ge; lia | all_high]. }
  destruct s as [|c2 s].
  { destruct (byteZ c <? 240); simpl; bad_rune. }
  pose proof (byteZ_range c2) as Hc2.
  destruct (Z.ltb_spec (byteZ c) 240) as [Hp3|Hp3].
  { (* three bytes *)
    cbn [length Nat.ltb Nat.leb].
    destruct ((byteZ c1 <? lo) || (hi <? byteZ c1)) eqn:Hb1; [bad_rune|].
    range_test Hb1.
    destruct ((byteZ c2 <? 128) || (191 <? byteZ c2)) eqn:Hb2; [bad_rune|].
    range_test Hb2. intros Heq; inversion Heq; subst. right; right.
    split; [lia|]. split; [apply rune3_ge; lia | all_high]. }
  destruct s as [|c3 s]; [simpl; bad_rune|].
  pose proof (byteZ_range c3) as Hc3.
  cbn [length Nat.ltb Nat.leb].
  destruct ((byteZ c1 <? lo) || (hi <? byteZ c1)) eqn:Hb1; [bad_rune|].
  range_test Hb1.
  destruct ((byteZ c2 <? 128) || (191 <? byteZ c2)) eqn:Hb2; [bad_rune|].
  range_test Hb2.
  destruct ((byteZ c3 <? 128) || (191 <? byteZ c3)) eqn:Hb3; [bad_rune|].
  range_test Hb3. intros Heq; inversion Heq; subst. right; right.
  split; [lia|]. split; [apply rune4_ge; lia | all_high].
Qed.

Lemma not_in_by_compute (c : ascii) (l : bytes) :
  bool_decide (c ∉ l) = true -> c ∉ l.
Proof. apply bool_decide_eq_true_1. Qed.

Lemma escOf_cases r w :
  match goxml.escOf r w with
  | Some e =>
    (exists c, byteZ c = r /\ r < 128 /\ (LT ∉ e)
               /\ forall tail, Spec.unescape_go None (e ++ tail)
                               = c :: Spec.unescape_go None tail)
    \/ (e = goxml.escFFFD /\ validRune r w = false)
  | None => r <> 38 /\ r <> 60 /\ validRune r w = true
  end.
Proof.
  unfold goxml.escOf.
  pose proof (not_in_by_compute LT) as Hdec.
  destruct (Z.eqb_spec r 34) as [->|?];
    [left; exists "034"%char; split; [reflexivity|]; split; [lia|]; split;
       [apply Hdec; vm_compute; reflexivity | intros; reflexivity]|].
  destruct (Z.eqb_spec r 39) as [->|?];
    [left; exists "'"%char; split; [reflexivity|]; split; [lia|]; split;
       [apply Hdec; vm_compute; reflexivity | intros; reflexivity]|].
  destruct (Z.eqb_spec r 38) as [->|?];
    [left; exists "&"%char; split; [reflexivity|]; split; [lia|]; split;
       [apply Hdec; vm_compute; reflexivity | intros; reflexivity]|].
  destruct (Z.eqb_spec r 60) as [->|?];
    [left; exists "<"%char; split; [reflexivity|]; split; [lia|]; split;
       [apply Hdec; vm_compute; reflexivity | intros; reflexivity]|].
  destruct (Z.eqb_spec r 62) as [->|?];
    [left; exists ">"%char; split; [reflexivity|]; split; [lia|]; split;
       [apply Hdec; vm_compute; reflexivity | intros; reflexivity]|].
  destruct (Z.eqb_spec r 9) as [->|?];
    [left; exists "009"%char; split; [reflexivity|]; split; [lia|]; split;
       [apply Hdec; vm_compute; reflexivity | intros; reflexivity]|].
  destruct (Z.eqb_spec r 10) as [->|?];
    [left; exists "010"%char; split; [reflexivity|]; split; [lia|]; split;
       [apply Hdec; vm_compute; reflexivity | intros; reflexivity]|].
  destruct (Z.eqb_spec r 13) as [->|?];
    [left; exists "013"%char; split; [reflexivity|]; split; [lia|]; split;
       [apply Hdec; vm_compute; reflexivity | intros; reflexivity]|].
  unfold validRune.
  destruct (goxml.isInCharacterRange r); simpl.
  - destruct ((r =? utf8.RuneError) && (w =? 1)%nat); simpl.
    + right. split; reflexivity.
    + repeat split; assumption.
  - right. split; reflexivity.
Qed.

Lemma unescape_plain l tail :
  AMP ∉ l -> Spec.unescape_go None (l ++ tail) = l ++ Spec.unescape_go None tail.
Proof.
  induction l as [|c l IH]; intros Hl; [reflexivity|].
  apply not_elem_of_cons in Hl. destruct Hl as [Hc Hl].
  cbn [app Spec.unescape_go].
  assert (is_byte "&" c = false) as -> by (apply is_byte_false; intros E; apply Hc; rewrite E; reflexivity).
  rewrite IH by exact Hl. reflexivity.
Qed.

Lemma allHigh_not_in l c : allHigh l -> byteZ c < 128 -> c ∉ l.
Proof.
  intros Hl Hc Hin. unfold allHigh in Hl. rewrite Forall_forall in Hl.
  specialize (Hl c Hin). lia.
Qed.

Lemma validRune_error : validRune utf8.RuneError 1 = false.
Proof. reflexivity. Qed.

Lemma piece_no_lt c s r w :
  utf8.DecodeRune (c :: s) = (r, w) ->
  LT ∉ match goxml.escOf r w with Some e => e | None => take w (c :: s) end.
Proof.
  intros Hd. pose proof (escOf_cases r w) as He.
  destruct (goxml.escOf r w) as [e|].
  - destruct He as [(c' & _ & _ & Hlt & _)|[-> _]]; [exact Hlt|].
    apply not_in_by_compute. vm_compute. reflexivity.
  - destruct He as (_ & H60 & Hv).
    apply DecodeRune_cases in Hd.
    destruct Hd as [(-> & Hc & ->)|[(-> & ->)|(Hw & Hr & Hh)]].
    + cbn [take]. intros Hin. apply list_elem_of_singleton in Hin.
      apply H60. rewrite <- Hin. reflexivity.
    + rewrite validRune_error in Hv. discriminate.
    + apply allHigh_not_in; [exact Hh | vm_compute; reflexivity].
Qed.

Lemma piece_roundtrip c s r w tail :
  utf8.DecodeRune (c :: s) = (r, w) -> validRune r w = true ->
  Spec.unescape_go None
    (match goxml.escOf r w with Some e => e | None => take w (c :: s) end ++ tail)
  = take w (c :: s) ++ Spec.unescape_go None tail.
Proof.
  intros Hd Hv. pose proof (escOf_cases r w) as He.
  apply DecodeRune_cases in Hd.
  destruct Hd as [(-> & Hc & ->)|[(-> & ->)|(Hw & Hr & Hh)]].
  - destruct (goxml.escOf (byteZ c) 1) as [e|].
    + destruct He as [(c' & Hc' & _ & _ & Hun)|[_ Hbad]]; [|congruence].
      apply byteZ_inj in Hc'. subst c'. rewrite Hun. reflexivity.
    + destruct He as (H38 & _ & _). apply unescape_plain.
      cbn [take]. intros Hin. apply list_elem_of_singleton in Hin.
      apply H38. rewrite <- Hin. reflexivity.
  - rewrite validRune_error in Hv. discriminate.
  - destruct (goxml.escOf r w) as [e|].
    + destruct He as [(c' & _ & Hlow & _)|[_ Hbad]]; [lia | congruence].
    + apply unescape_plain. apply allHigh_not_in; [exact Hh | vm_compute; reflexivity].
Qed.

Lemma escapeText_go_no_lt fuel s : LT ∉ goxml.escapeText_go fuel s.
Proof.
  revert s. induction fuel as [|fuel IH]; intros s; simpl; [apply not_elem_of_nil|].
  destruct s as [|c s]; [apply not_elem_of_nil|].
  destruct (utf8.DecodeRune (c :: s)) as [r w] eqn:Hd.
  rewrite elem_of_app. intros [Hin|Hin].
  - exact (piece_no_lt c s r w Hd Hin).
  - exact (IH _ Hin).
Qed.

Lemma escapeText_go_roundtrip fuel :
  forall s, (length s <= fuel)%nat -> Spec.xmlText_go fuel s = true ->
    Spec.unescape_go None (goxml.escapeText_go fuel s) = s.
Proof.
  induction fuel as [|fuel IH]; intros s Hlen Hv.
  - destruct s; [reflexivity | simpl in Hlen; lia].
  - destruct s as [|c s]; [reflexivity|].
    cbn [goxml.escapeText_go Spec.xmlText_go] in *.
    destruct (utf8.DecodeRune (c :: s)) as [r w] eqn:Hd.
    apply andb_true_iff in Hv. destruct Hv as [Hv Hrest].
    rewrite (piece_roundtrip c s r w _ Hd Hv).
    destruct (DecodeRune_width (c :: s)) as [[Hw _] _]; [discriminate|].
    rewrite Hd in Hw. simpl in Hw.
    rewrite IH; [apply take_drop | rewrite length_drop; simpl in *; lia | exact Hrest].
Qed.

Lemma xmlEscape_no_lt s : LT ∉ docx.xmlEscape s.
Proof. apply escapeText_go_no_lt. Qed.

Lemma xmlEscape_roundtrip s :
  Spec.xmlText s = true -> Spec.unescape (docx.xmlEscape s) = s.
Proof. intros H. apply escapeText_go_roundtrip; [lia | exact H]. Qed.

Lemma lexRun_app st a b :
  Spec.lexRun st (a ++ b)
  = (fst (Spec.lexRun st a) ++ fst (Spec.lexRun (snd (Spec.lexRun st a)) b),
     snd (Spec.lexRun (snd (Spec.lexRun st a)) b)).
Proof.
  revert st. induction a as [|c a IH]; intros st.
  - simpl. destruct (Spec.lexRun st b); reflexivity.
  - cbn [app Spec.lexRun]. destruct (Spec.lexStep st c) as [t1 st1].
    rewrite IH. destruct (Spec.lexRun st1 a) as [t2 st2]. simpl.
    rewrite app_assoc. reflexivity.
Qed.

Lemma lexRun_text cur e :
  LT ∉ e -> Spec.lexRun (false, cur) e = ([], (false, cur ++ e)).
Proof.
  revert cur. induction e as [|c e IH]; intros cur Hlt.
  - simpl. rewrite app_nil_r. reflexivity.
  - apply not_elem_of_cons in Hlt. destruct Hlt as [Hc Hlt].
    cbn [Spec.lexRun Spec.lexStep].
    assert (is_byte "<" c = false) as ->
      by (apply is_byte_false; intros E; apply Hc; rewrite E; reflexivity).
    rewrite IH by exact Hlt. rewrite <- app_assoc. reflexivity.
Qed.

Lemma lexRun_markup k cur :
  isMarkup k = true ->
  Spec.lexRun (false, cur) k = (Spec.textToken cur ++ tagsOf k, (false, [])).
Proof.
  unfold isMarkup, tagsOf. destruct k as [|c k]; [discriminate|].
  intros H. apply andb_true_iff in H. destruct H as [Hc Hst].
  apply bool_decide_eq_true_1 in Hst. revert Hst.
  cbn [Spec.lexRun Spec.lexStep]. rewrite Hc.
  destruct (Spec.lexRun (true, []) k) as [t st]. simpl. intros ->. reflexivity.
Qed.

Lemma lexRun_markup_app k cur rest :
  isMarkup k = true ->
  Spec.lexRun (false, cur) (k ++ rest)
  = (Spec.textToken cur ++ tagsOf k ++ fst (Spec.lexRun (false, []) rest),
     snd (Spec.lexRun (false, []) rest)).
Proof.
  intros Hk. rewrite lexRun_app, (lexRun_markup k cur Hk). simpl.
  rewrite <- app_assoc. reflexivity.
Qed.

Lemma lexRun_text_app e rest :
  LT ∉ e -> Spec.lexRun (false, []) (e ++ rest) = Spec.lexRun (false, e) rest.
Proof.
  intros He. rewrite lexRun_app, (lexRun_text [] e He). simpl.
  destruct (Spec.lexRun (false, e) rest); reflexivity.
Qed.

Lemma lexRun_element open s rest :
  isMarkup open = true ->
  Spec.lexRun (false, []) (open ++ docx.xmlEscape s ++ docx.paraClose ++ rest)
  = (elementTokens open s ++ fst (Spec.lexRun (false, []) rest),
     snd (Spec.lexRun (false, []) rest)).
Proof.
  intros Hopen. rewrite (lexRun_markup_app open [] _ Hopen).
  rewrite (lexRun_text_app _ _ (xmlEscape_no_lt s)).
  rewrite (lexRun_markup_app docx.paraClose) by (vm_compute; reflexivity).
  unfold elementTokens. cbn [Spec.textToken fst snd app].
  rewrite <- !app_assoc. reflexivity.
Qed.

Lemma lexRun_paragraphs ps rest :
  Spec.lexRun (false, []) (docx.writeParagraphs ps ++ rest)
  = (concat (map (elementTokens docx.paraOpen) ps)
       ++ fst (Spec.lexRun (false, []) rest),
     snd (Spec.lexRun (false, []) rest)).
Proof.
  induction ps as [|p ps IH].
  - simpl. destruct (Spec.lexRun (false, []) rest); reflexivity.
  - cbn [docx.writeParagraphs map concat]. rewrite <- !app_assoc.
    rewrite lexRun_element by (vm_compute; reflexivity).
    rewrite IH. reflexivity.
Qed.

Lemma tokens_buildDocumentXML title ps :
  Spec.tokens (docx.buildDocumentXML title ps)
  = tagsOf docx.docOpen ++ elementTokens docx.headingOpen title
    ++ concat (map (elementTokens docx.paraOpen) ps) ++ tagsOf docx.docClose.
Proof.
  unfold Spec.tokens, docx.buildDocumentXML.
  rewrite (lexRun_markup_app docx.docOpen) by (vm_compute; reflexivity).
  rewrite lexRun_element by (vm_compute; reflexivity).
  rewrite lexRun_paragraphs.
  rewrite (lexRun_markup docx.docClose) by (vm_compute; reflexivity).
  cbn [fst snd Spec.textToken app]. rewrite app_nil_r. reflexivity.
Qed.

(** ** The paragraphs and the text of the document *)

Lemma paragraphs_text open raw rest :
  Spec.paragraphs_go (Some open) (Spec.textToken raw ++ rest)
  = Spec.paragraphs_go (Some (open ++ Spec.unescape raw)) rest.
Proof.
  destruct raw as [|c raw]; [|reflexivity].
  simpl. rewrite app_nil_r. reflexivity.
Qed.

Lemma paragraphs_docOpen rest :
  Spec.paragraphs_go None (tagsOf docx.docOpen ++ rest) = Spec.paragraphs_go None rest.
Proof.
  let t := eval vm_compute in (tagsOf docx.docOpen) in
  change (tagsOf docx.docOpen) with t.
  reflexivity.
Qed.

Lemma paragraphs_headingOpen rest :
  Spec.paragraphs_go None (tagsOf docx.headingOpen ++ rest)
  = Spec.paragraphs_go (Some []) rest.
Proof.
  let t := eval vm_compute in (tagsOf docx.headingOpen) in
  change (tagsOf docx.headingOpen) with t.
  reflexivity.
Qed.

Lemma paragraphs_paraOpen rest :
  Spec.paragraphs_go None (tagsOf docx.paraOpen ++ rest)
  = Spec.paragraphs_go (Some []) rest.
Proof.
  let t := eval vm_compute in (tagsOf docx.paraOpen) in
  change (tagsOf docx.paraOpen) with t.
  reflexivity.
Qed.

Lemma paragraphs_paraClose text rest :
  Spec.paragraphs_go (Some text) (tagsOf docx.paraClose ++ rest)
  = text :: Spec.paragraphs_go None rest.
Proof.
  let t := eval vm_compute in (tagsOf docx.paraClose) in
  change (tagsOf docx.paraClose) with t.
  reflexivity.
Qed.

Lemma paragraphs_docClose : Spec.paragraphs_go None (tagsOf docx.docClose) = [].
Proof. vm_compute. reflexivity. Qed.

Lemma paragraphs_element open s rest :
  Spec.paragraphs_go None (tagsOf open ++ Spec.textToken (docx.xmlEscape s) ++ tagsOf docx.paraClose ++ rest) = Spec.paragraphs_go (Some []) (Spec.textToken (docx.xmlEscape s) ++ tagsOf docx.paraClose ++ rest) ->
  Spec.paragraphs_go None (elementTokens open s ++ rest)
  = clean s :: Spec.paragraphs_go None rest.
Proof.
  intros Hopen. unfold elementTokens. rewrite <- !app_assoc, Hopen.
  rewrite paragraphs_text, paragraphs_paraClose. reflexivity.
Qed.

Lemma docParagraphs_clean title ps :
  Spec.docParagraphs (docx.buildDocumentXML title ps) = map clean (title :: ps).
Proof.
  unfold Spec.docParagraphs. rewrite tokens_buildDocumentXML.
  rewrite paragraphs_docOpen.
  rewrite paragraphs_element by apply paragraphs_headingOpen.
  cbn [map]. f_equal.
  induction ps as [|p ps IH]; cbn [map concat].
  - apply paragraphs_docClose.
  - rewrite <- app_assoc.
    rewrite paragraphs_element by apply paragraphs_paraOpen.
    rewrite IH. reflexivity.
Qed.

Lemma tagsOf_no_text k :
  forallb (fun t => match t with Spec.TTag _ => true | Spec.TText _ => false end)
          (tagsOf k) = true ->
  concat (map Spec.tokenText (tagsOf k)) = [].
Proof.
  induction (tagsOf k) as [|t ts IH]; [reflexivity|].
  simpl. destruct t; [|discriminate]. simpl. exact IH.
Qed.

Lemma text_element open s :
  forallb (fun t => match t with Spec.TTag _ => true | Spec.TText _ => false end)
          (tagsOf open) = true ->
  concat (map Spec.tokenText (elementTokens open s)) = clean s.
Proof.
  intros Hopen. unfold elementTokens. rewrite !map_app, !concat_app.
  rewrite (tagsOf_no_text open Hopen).
  rewrite (tagsOf_no_text docx.paraClose) by (vm_compute; reflexivity).
  rewrite app_nil_r. simpl.
  unfold clean. destruct (docx.xmlEscape s); [reflexivity|].
  simpl. rewrite app_nil_r. reflexivity.
Qed.

Lemma docText_clean title ps :
  Spec.docText (docx.buildDocumentXML title ps) = concat (map clean (title :: ps)).
Proof.
  unfold Spec.docText. rewrite tokens_buildDocumentXML.
  rewrite !map_app, !concat_app.
  rewrite (tagsOf_no_text docx.docOpen) by (vm_compute; reflexivity).
  rewrite (tagsOf_no_text docx.docClose) by (vm_compute; reflexivity).
  rewrite text_element by (vm_compute; reflexivity).
  rewrite app_nil_r. cbn [app map concat]. f_equal.
  induction ps as [|p ps IH]; [reflexivity|].
  cbn [map concat]. rewrite map_app, concat_app.
  rewrite text_element by (vm_compute; reflexivity).
  rewrite IH. reflexivity.
Qed.

(** C1 (amended): the document body has one paragraph for the title and
    one for every chunk, in the order given, and its text with the markup
    stripped is their concatenation, where each text reads back as
    xml.EscapeText lets it through; a title and chunks that are valid
    UTF-8 of characters in the XML character range read back unchanged,
    so for them the text is the title followed by the chunks. *)
Theorem buildDocumentXML_text title paragraphs :
  Spec.docParagraphs (docx.buildDocumentXML title paragraphs)
    = map clean (title :: paragraphs)
  /\ Spec.docText (docx.buildDocumentXML title paragraphs)
    = concat (map clean (title :: paragraphs))
  /\ (Spec.xmlText title = true ->
      Forall (fun p => Spec.xmlText p = true) paragraphs ->
      Spec.docParagraphs (docx.buildDocumentXML title paragraphs)
        = title :: paragraphs
      /\ Spec.docText (docx.buildDocumentXML title paragraphs)
        = title ++ concat paragraphs).
Proof.
  split; [apply docParagraphs_clean|]. split; [apply docText_clean|].
  intros Ht Hps.
  assert (map clean (title :: paragraphs) = title :: paragraphs) as Hclean.
  { cbn [map]. unfold clean at 1. rewrite xmlEscape_roundtrip by exact Ht. f_equal.
    induction Hps as [|p ps Hp _ IH]; [reflexivity|].
    cbn [map]. unfold clean at 1. rewrite xmlEscape_roundtrip by exact Hp.
    rewrite IH. reflexivity. }
  rewrite docParagraphs_clean, docText_clean, Hclean. split; reflexivity.
Qed.

Lemma buildDocumentXML_text_witness :
  Spec.docParagraphs (docx.buildDocumentXML (str "T <1>") [str "a&b"; str "x y"])
    = [str "T <1>"; str "a&b"; str "x y"]
  /\ Spec.docText (docx.buildDocumentXML (str "T <1>") [str "a&b"; str "x y"])
    = str "T <1>a&bx y".
Proof.
  destruct (buildDocumentXML_text (str "T <1>") [str "a&b"; str "x y"])
    as (_ & _ & H).
  apply H; [reflexivity|].
  repeat (constructor; [reflexivity|]). constructor.
Defined.

(** C1 as stated fails: a title that holds the control character U+0001
    is written as U+FFFD, so the text of the document is not the title. *)
Lemma buildDocumentXML_text_not_title :
  Spec.docText (docx.buildDocumentXML ["001"%char] []) = goxml.escFFFD
  /\ Spec.docText (docx.buildDocumentXML ["001"%char] [])
     <> ["001"%char] ++ concat [].
Proof. split; [vm_compute; reflexivity | vm_compute; discriminate]. Qed.

(** * Further properties of the code *)

(** ** What xml.EscapeText writes *)

Lemma escOf_None r w :
  goxml.escOf r w = None ->
  r <> 34 /\ r <> 39 /\ r <> 38 /\ r <> 60 /\ r <> 62 /\ r <> 9 /\ r <> 10 /\ r <> 13
  /\ validRune r w = true.
Proof.
  unfold goxml.escOf, validRune.
  destruct (Z.eqb_spec r 34); [discriminate|].
  destruct (Z.eqb_spec r 39); [discriminate|].
  destruct (Z.eqb_spec r 38); [discriminate|].
  destruct (Z.eqb_spec r 60); [discriminate|].
  destruct (Z.eqb_spec r 62); [discriminate|].
  destruct (Z.eqb_spec r 9); [discriminate|].
  destruct (Z.eqb_spec r 10); [discriminate|].
  destruct (Z.eqb_spec r 13); [discriminate|].
  destruct (goxml.isInCharacterRange r); simpl; [|discriminate].
  destruct ((r =? utf8.RuneError) && (w =? 1)%nat); simpl; [discriminate|].
  intros _. repeat split; assumption.
Qed.

Lemma escOf_Some r w e :
  goxml.escOf r w = Some e ->
  e ∈ [str "&#34;"; str "&#39;"; str "&amp;"; str "&lt;"; str "&gt;";
       str "&#x9;"; str "&#xA;"; str "&#xD;"; goxml.escFFFD].
Proof.
  unfold goxml.escOf.
  destruct (r =? 34); [intros Heq; inversion Heq; subst; in_list|].
  destruct (r =? 39); [intros Heq; inversion Heq; subst; in_list|].
  destruct (r =? 38); [intros Heq; inversion Heq; subst; in_list|].
  destruct (r =? 60); [intros Heq; inversion Heq; subst; in_list|].
  destruct (r =? 62); [intros Heq; inversion Heq; subst; in_list|].
  destruct (r =? 9); [intros Heq; inversion Heq; subst; in_list|].
  destruct (r =? 10); [intros Heq; inversion Heq; subst; in_list|].
  destruct (r =? 13); [intros Heq; inversion Heq; subst; in_list|].
  destruct (negb _ || _); intros Heq; inversion Heq; subst. in_list.
Qed.

Lemma byteZ_markup c :
  markupByte c = true ->
  byteZ c = 60 \/ byteZ c = 62 \/ byteZ c = 34 \/ byteZ c = 39
  \/ byteZ c = 9 \/ byteZ c = 10 \/ byteZ c = 13.
Proof.
  unfold markupByte. rewrite !orb_true_iff, !is_byte_true.
  intros H. decompose [or] H; subst c; vm_compute; tauto.
Qed.

Lemma piece_no_markup c s r w :
  utf8.DecodeRune (c :: s) = (r, w) ->
  forallb (fun b => negb (markupByte b))
    (match goxml.escOf r w with Some e => e | None => take w (c :: s) end) = true.
Proof.
  intros Hd. destruct (goxml.escOf r w) as [e|] eqn:He.
  - apply escOf_Some in He.
    repeat (apply elem_of_cons in He; destruct He as [->|He];
            [vm_compute; reflexivity|]).
    inversion He.
  - apply escOf_None in He.
    destruct He as (H34 & H39 & H38 & H60 & H62 & H9 & H10 & H13 & Hv).
    apply forallb_forall. intros b Hb. apply negb_true_iff.
    destruct (markupByte b) eqn:Hm; [|reflexivity]. exfalso.
    apply byteZ_markup in Hm.
    apply DecodeRune_cases in Hd.
    destruct Hd as [(-> & Hc & ->)|[(-> & ->)|(Hw & Hr & Hh)]].
    + cbn [take] in Hb. destruct Hb as [<-|[]]. lia.
    + rewrite validRune_error in Hv. discriminate.
    + unfold allHigh in Hh. rewrite Forall_forall in Hh.
      apply list_elem_of_In in Hb. specialize (Hh b Hb). lia.
Qed.

Lemma escapeText_go_no_markup fuel s :
  forallb (fun b => negb (markupByte b)) (goxml.escapeText_go fuel s) = true.
Proof.
  revert s. induction fuel as [|fuel IH]; intros s; [reflexivity|].
  destruct s as [|c s]; [reflexivity|].
  cbn [goxml.escapeText_go].
  destruct (utf8.DecodeRune (c :: s)) as [r w] eqn:Hd.
  rewrite forallb_app, (piece_no_markup c s r w Hd), IH. reflexivity.
Qed.

(** X1: the escaped text holds none of the bytes <, >, double quote,
    apostrophe, tab, newline and carriage return, whatever the input. *)
Theorem xmlEscape_no_markup_byte s c :
  c ∈ docx.xmlEscape s -> markupByte c = false.
Proof.
  intros Hin. pose proof (escapeText_go_no_markup (length s) s) as H.
  rewrite forallb_forall in H. apply list_elem_of_In in Hin.
  specialize (H c Hin). apply negb_true_iff in H. exact H.
Qed.

Lemma xmlEscape_no_markup_byte_witness : markupByte "&"%char = false.
Proof.
  apply (xmlEscape_no_markup_byte (str "a<b") "&"%char).
  vm_compute. apply list_elem_of_further, list_elem_of_here.
Defined.

Lemma plainByte_spec c :
  plainByte c = true ->
  32 <= byteZ c < 128 /\ byteZ c <> 34 /\ byteZ c <> 39 /\ byteZ c <> 38
  /\ byteZ c <> 60 /\ byteZ c <> 62.
Proof.
  unfold plainByte, markupByte. rewrite !andb_true_iff, !negb_true_iff, !orb_false_iff.
  rewrite !is_byte_false.
  intros [[[Hlo Hhi] [[[[[[H60 H62] H34] H39] _] _] _]] H38].
  apply Z.leb_le in Hlo. apply Z.ltb_lt in Hhi.
  repeat split; try assumption;
    intros E; [apply H34|apply H39|apply H38|apply H60|apply H62];
    apply byteZ_inj; rewrite E; reflexivity.
Qed.

Lemma escOf_plain r :
  32 <= r < 128 -> r <> 34 -> r <> 39 -> r <> 38 -> r <> 60 -> r <> 62 ->
  goxml.escOf r 1 = None.
Proof.
  intros Hr H34 H39 H38 H60 H62. unfold goxml.escOf.
  destruct (Z.eqb_spec r 34); [lia|]. destruct (Z.eqb_spec r 39); [lia|].
  destruct (Z.eqb_spec r 38); [lia|]. destruct (Z.eqb_spec r 60); [lia|].
  destruct (Z.eqb_spec r 62); [lia|]. destruct (Z.eqb_spec r 9); [lia|].
  destruct (Z.eqb_spec r 10); [lia|]. destruct (Z.eqb_spec r 13); [lia|].
  unfold goxml.isInCharacterRange, utf8.RuneError.
  destruct (Z.eqb_spec r 9); [lia|]. destruct (Z.eqb_spec r 10); [lia|].
  destruct (Z.eqb_spec r 13); [lia|].
  destruct (Z.leb_spec 32 r); [|lia]. destruct (Z.leb_spec r 55295); [|lia].
  destruct (Z.eqb_spec r 65533); [lia|]. reflexivity.
Qed.

(** X2: printable ASCII text without the five escaped characters is
    written as it is. *)
Theorem xmlEscape_plain s :
  Forall (fun c => plainByte c = true) s -> docx.xmlEscape s = s.
Proof.
  unfold docx.xmlEscape, goxml.EscapeText.
  induction 1 as [|c s Hc _ IH]; [reflexivity|].
  apply plainByte_spec in Hc. destruct Hc as (Hr & H34 & H39 & H38 & H60 & H62).
  cbn [length goxml.escapeText_go].
  rewrite DecodeRune_ascii by lia.
  rewrite escOf_plain by assumption.
  change (take 1 (c :: s)) with [c]. change (drop 1 (c :: s)) with s.
  cbn [app]. rewrite IH. reflexivity.
Qed.

Lemma xmlEscape_plain_witness : docx.xmlEscape (str "Alan Turing (1912)") = str "Alan Turing (1912)".
Proof. apply xmlEscape_plain. repeat (constructor; [reflexivity|]). constructor. Defined.

(** ** The nesting of the document's tags *)

Lemma nest_app stack roots a b :
  Markup.nest stack roots (a ++ b)
  = match Markup.nest stack roots a with
    | Some (stack', roots') => Markup.nest stack' roots' b
    | None => None
    end.
Proof.
  revert stack roots. induction a as [|t a IH]; intros stack roots; [reflexivity|].
  cbn [app Markup.nest]. destruct t as [body|raw].
  - destruct (Markup.kindOf body) as [| name | name |].
    + apply IH.
    + destruct stack; [destruct (roots =? 0)%nat; [apply IH | reflexivity] | apply IH].
    + destruct stack as [|top below]; [reflexivity|].
      destruct (decide (top = name)); [apply IH | reflexivity].
    + destruct stack; [reflexivity | apply IH].
  - destruct stack; [reflexivity | apply IH].
Qed.

Lemma nest_text top below roots raw :
  Markup.nest (top :: below) roots (Spec.textToken raw) = Some (top :: below, roots).
Proof. destruct raw; reflexivity. Qed.

Lemma nest_element open s :
  Markup.nest [str "w:body"; str "w:document"] 1 (tagsOf open)
    = Some ([str "w:t"; str "w:r"; str "w:p"; str "w:body"; str "w:document"], 1%nat) ->
  Markup.nest [str "w:body"; str "w:document"] 1 (elementTokens open s)
    = Some ([str "w:body"; str "w:document"], 1%nat).
Proof.
  intros Hopen. unfold elementTokens.
  rewrite nest_app, Hopen, nest_app, nest_text.
  vm_compute. reflexivity.
Qed.

Lemma nest_paragraphs ps :
  Markup.nest [str "w:body"; str "w:document"] 1
    (concat (map (elementTokens docx.paraOpen) ps))
  = Some ([str "w:body"; str "w:document"], 1%nat).
Proof.
  induction ps as [|p ps IH]; [reflexivity|].
  cbn [map concat]. rewrite nest_app, nest_element; [exact IH|].
  vm_compute. reflexivity.
Qed.

(** X3: for every title and all paragraphs the document is well formed:
    its tags are properly nested and all closed, all text lies inside the
    single root element. *)
Theorem buildDocumentXML_wellFormed title paragraphs :
  Markup.wellFormed (docx.buildDocumentXML title paragraphs).
Proof.
  unfold Markup.wellFormed. rewrite tokens_buildDocumentXML.
  rewrite nest_app.
  assert (Markup.nest [] 0 (tagsOf docx.docOpen)
          = Some ([str "w:body"; str "w:document"], 1%nat)) as ->
    by (vm_compute; reflexivity).
  rewrite nest_app, nest_element by (vm_compute; reflexivity).
  rewrite nest_app, nest_paragraphs.
  vm_compute. reflexivity.
Qed.

Example unescaped_title_breaks_nesting :
  Markup.nest [] 0 (Spec.tokens (unescapedDocument (str "a</w:t>b"))) = None.
Proof. vm_compute. reflexivity. Qed.

(** ** The footprint of Build *)

Lemma fileEffect_refl path w : fileEffect path w w.
Proof. repeat split. Qed.

Lemma fileEffect_trans path w1 w2 w3 :
  fileEffect path w1 w2 -> fileEffect path w2 w3 -> fileEffect path w1 w3.
Proof.
  intros (Hf1 & Ht1 & Hh1 & Hc1) (Hf2 & Ht2 & Hh2 & Hc2). repeat split.
  - intros p Hp. rewrite Hf2, Hf1 by exact Hp. reflexivity.
  - congruence.
  - congruence.
  - congruence.
Qed.

Lemma nextFault_effect path w : fileEffect path w (snd (nextFault w)).
Proof. unfold nextFault. destruct (faults w); repeat split. Qed.

Lemma fileOp_cases name effect w r w' :
  fileOp name effect w = (r, w') ->
  (r = Err (ErrIO name) /\ w' = snd (nextFault w))
  \/ (r = Ok tt /\ w' = effect (snd (nextFault w))).
Proof.
  unfold fileOp. destruct (nextFault w) as [[|] w1]; intros H; inversion H; subst;
    [left | right]; split; reflexivity.
Qed.

Lemma bind_effect {A B} path (m : IO A) (k : A -> IO B) :
  (forall w r w', m w = (r, w') -> fileEffect path w w') ->
  (forall a w r w', k a w = (r, w') -> fileEffect path w w') ->
  forall w r w', bind m k w = (r, w') -> fileEffect path w w'.
Proof.
  intros Hm Hk w r w'. unfold bind.
  destruct (m w) as [[a|e] w1] eqn:Hmw; intros H.
  - eapply fileEffect_trans; [eapply Hm, Hmw | eapply Hk, H].
  - inversion H; subst. eapply Hm, Hmw.
Qed.

Lemma wrapErr_effect {A} path msg (m : IO A) :
  (forall w r w', m w = (r, w') -> fileEffect path w w') ->
  forall w r w', wrapErr msg m w = (r, w') -> fileEffect path w w'.
Proof.
  intros Hm w r w'. unfold wrapErr.
  destruct (m w) as [[a|e] w1] eqn:Hmw; intros H; inversion H; subst; eapply Hm, Hmw.
Qed.

Lemma setFs_effect path a w : fileEffect path w (setFs (<[path := a]> (fs w)) w).
Proof.
  repeat split. intros p Hp. simpl. apply lookup_insert_ne. congruence.
Qed.

Lemma fileOp_effect path name effect :
  (forall w, fileEffect path w (effect w)) ->
  forall w r w', fileOp name effect w = (r, w') -> fileEffect path w w'.
Proof.
  intros He w r w' H. apply fileOp_cases in H.
  destruct H as [[_ ->]|[_ ->]].
  - apply nextFault_effect.
  - eapply fileEffect_trans; [apply nextFault_effect | apply He].
Qed.

Lemma writeDocx_effect path title paragraphs w r w' :
  docx.writeDocx path title paragraphs w = (r, w') -> fileEffect path w w'.
Proof.
  assert (forall name content w r w',
             docx.addFile path name content w = (r, w') -> fileEffect path w w') as Hadd.
  { intros name content. unfold docx.addFile. apply bind_effect.
    - apply fileOp_effect. intros w0. apply setFs_effect.
    - intros _. apply fileOp_effect. intros w0. apply setFs_effect. }
  revert w r w'. unfold docx.writeDocx.
  apply bind_effect.
  { apply wrapErr_effect, fileOp_effect. intros w0. apply setFs_effect. }
  intros _. apply bind_effect; [apply wrapErr_effect, Hadd|].
  intros _. apply bind_effect; [apply wrapErr_effect, Hadd|].
  intros _. apply wrapErr_effect, Hadd.
Qed.

Lemma MkdirAll_effect path dir w r w' :
  MkdirAll dir w = (r, w') -> fileEffect path w w'.
Proof.
  revert w r w'. apply fileOp_effect. intros w. repeat split.
Qed.

Lemma Build_effect Join title content outDir w r w' :
  docx.Build Join title content outDir w = (r, w') ->
  fileEffect (docx.outPathOf Join title outDir) w w'.
Proof.
  revert w r w'. unfold docx.Build. apply bind_effect.
  - apply wrapErr_effect. intros w r w'. apply MkdirAll_effect.
  - intros _. apply wrapErr_effect. intros w r w'. apply writeDocx_effect.
Qed.

(** X4: whether Build succeeds or fails, it changes no file but the one
    at its output path, reads no title file and makes no request; and
    when the output directory cannot be created it changes no file at
    all. *)
Theorem Build_touches_only_its_file Join title content outDir w r w' :
  docx.Build Join title content outDir w = (r, w') ->
  fileEffect (docx.outPathOf Join title outDir) w w'
  /\ (forall e, r = Err (Wrap (str "create output dir") e) -> fs w' = fs w).
Proof.
  intros H. split; [eapply Build_effect, H|].
  intros e ->. unfold docx.Build, bind, wrapErr in H.
  destruct (MkdirAll outDir w) as [[[]|e1] w1] eqn:Hm.
  - destruct (docx.writeDocx _ _ _ w1) as [[[]|e2] w2]; inversion H.
  - inversion H; subst. apply fileOp_cases in Hm.
    destruct Hm as [[_ ->]|[Hbad _]]; [apply nextFault_fs | discriminate].
Qed.

Lemma Build_touches_only_its_file_witness :
  fs (snd (docx.Build Examples.joinSlash (str "A") (str "text") (str "out")
            (mkWorld ∅ ∅ ∅ [true] [] []))) = ∅.
Proof.
  destruct (docx.Build Examples.joinSlash (str "A") (str "text") (str "out")
              (mkWorld ∅ ∅ ∅ [true] [] [])) as [r w'] eqn:HB.
  destruct (Build_touches_only_its_file _ _ _ _ _ _ _ HB) as [_ Hdir].
  simpl. rewrite (Hdir (ErrIO (str "mkdir"))); [reflexivity|].
  vm_compute in HB. injection HB as <- _. reflexivity.
Defined.

(** X5: two titles with the same file name share one output file: after
    both have been built the file holds the document of the second, and
    nothing of the first is left. *)
Theorem Build_last_writer_wins Join t1 c1 t2 c2 outDir w w1 w2 :
  docx.safeFilename t1 = docx.safeFilename t2 ->
  docx.Build Join t1 c1 outDir w = (Ok tt, w1) ->
  docx.Build Join t2 c2 outDir w1 = (Ok tt, w2) ->
  fs w2 = <[docx.outPathOf Join t2 outDir
            := docxEntries t2 (docx.bodyParagraphs c2)]> (fs w).
Proof.
  intros Hname H1 H2. apply Build_fs in H1. apply Build_fs in H2.
  rewrite H2, H1. unfold docx.outPathOf. rewrite Hname.
  apply insert_insert_eq.
Qed.

Lemma Build_last_writer_wins_witness :
  exists w2,
    fs w2 = {[ str "out/A_B.docx" := docxEntries (str "A/B") [str "second"] ]}.
Proof.
  destruct (docx.Build Examples.joinSlash (str "A B") (str "first") (str "out")
              Examples.emptyWorld) as [[[]|e1] w1] eqn:H1;
    [|vm_compute in H1; discriminate].
  destruct (docx.Build Examples.joinSlash (str "A/B") (str "second") (str "out") w1)
    as [[[]|e2] w2] eqn:H2.
  - exists w2.
    rewrite (Build_last_writer_wins Examples.joinSlash (str "A B") (str "first")
               (str "A/B") (str "second") (str "out") Examples.emptyWorld w1 w2
               eq_refl H1 H2).
    reflexivity.
  - exfalso. vm_compute in H1. injection H1 as <-. vm_compute in H2. discriminate.
Defined.

(** ** What a failed write leaves behind *)

Lemma archiveAt_lookup path a w0 w : archiveAt path a w0 w -> fs w !! path = Some a.
Proof. unfold archiveAt. intros ->. apply lookup_insert_eq. Qed.

Lemma archiveAt_fault path a w0 w : archiveAt path a w0 w -> archiveAt path a w0 (snd (nextFault w)).
Proof. unfold archiveAt. rewrite nextFault_fs. tauto. Qed.

Lemma addFile_cases path name content a w0 w r w' :
  archiveAt path a w0 w ->
  docx.addFile path name content w = (r, w') ->
  (r = Ok tt /\ archiveAt path (a ++ [(name, content)]) w0 w')
  \/ ((exists e, r = Err e)
      /\ (archiveAt path a w0 w' \/ archiveAt path (a ++ [(name, [])]) w0 w')).
Proof.
  intros Ha H. unfold docx.addFile, bind in H.
  destruct (zipCreate path name w) as [[[]|e] w1] eqn:Hc.
  - apply fileOp_cases in Hc. destruct Hc as [[Hbad _]|[_ ->]]; [discriminate|].
    assert (archiveAt path (a ++ [(name, [])]) w0
              (setFs (<[path := default [] (fs (snd (nextFault w)) !! path)
                                  ++ [(name, [])]]> (fs (snd (nextFault w))))
                     (snd (nextFault w)))) as Ha1.
    { unfold archiveAt. simpl. rewrite nextFault_fs, (archiveAt_lookup _ _ _ _ Ha).
      simpl. rewrite Ha. apply insert_insert_eq. }
    apply fileOp_cases in H. destruct H as [[-> ->]|[-> ->]].
    + right. split; [eexists; reflexivity|]. right.
      apply archiveAt_fault, Ha1.
    + left. split; [reflexivity|].
      apply archiveAt_fault in Ha1. unfold archiveAt in *. simpl.
      rewrite Ha1, lookup_insert_eq. simpl.
      rewrite setLast_snoc. apply insert_insert_eq.
  - inversion H; subst. right. split; [eexists; reflexivity|]. left.
    apply fileOp_cases in Hc. destruct Hc as [[_ ->]|[Hbad _]]; [|discriminate].
    apply archiveAt_fault, Ha.
Qed.

Lemma wrapErr_cases {A} msg (m : IO A) w r w' :
  wrapErr msg m w = (r, w') ->
  (exists a, r = Ok a /\ m w = (Ok a, w'))
  \/ (exists e, r = Err (Wrap msg e) /\ m w = (Err e, w')).
Proof.
  unfold wrapErr. destruct (m w) as [[a|e] w1]; intros H; inversion H; subst;
    [left | right]; eexists; split; reflexivity.
Qed.

(** X6: when writeDocx fails, the file at the path is as it was, or it
    holds an archive whose entry names are the first names of a document,
    in order. *)
Theorem writeDocx_failure_leaves_prefix path title paragraphs w e w' :
  docx.writeDocx path title paragraphs w = (Err e, w') ->
  fs w' = fs w
  \/ exists a, fs w' = <[path := a]> (fs w) /\ map fst a `prefix_of` entryNames.
Proof.
  intros H. unfold docx.writeDocx in H. unfold bind at 1 in H.
  destruct (wrapErr (str "create file") (osCreate path) w) as [[[]|e0] w1] eqn:H0.
  2:{ inversion H; subst. left.
      apply wrapErr_cases in H0. destruct H0 as [(a & Hbad & _)|(e1 & _ & H0)];
        [discriminate|].
      apply fileOp_cases in H0. destruct H0 as [[_ ->]|[Hbad _]]; [|discriminate].
      apply nextFault_fs. }
  right.
  apply wrapErr_Ok, osCreate_fs in H0.
  assert (archiveAt path [] w w1) as A0 by exact H0.
  assert (forall a, map fst a `prefix_of` entryNames ->
            forall w2, archiveAt path a w w2 ->
              exists a', fs w2 = <[path := a']> (fs w) /\ map fst a' `prefix_of` entryNames)
    as Hdone by (intros a Hp w2 Hw2; exists a; split; assumption).
  unfold bind at 1 in H.
  destruct (wrapErr _ (docx.addFile path (str "[Content_Types].xml") _) w1)
    as [[[]|e1] w2] eqn:H1.
  2:{ inversion H; subst. apply wrapErr_cases in H1.
      destruct H1 as [(a & Hbad & _)|(e2 & _ & H1)]; [discriminate|].
      destruct (addFile_cases _ _ _ _ _ _ _ _ A0 H1) as [[Hbad _]|[_ [Hs|Hs]]];
        [discriminate| |]; (eapply Hdone; [|exact Hs]); vm_compute; eexists; reflexivity. }
  apply wrapErr_Ok in H1.
  destruct (addFile_cases _ _ _ _ _ _ _ _ A0 H1) as [[_ A1]|[[e1 Hbad] _]];
    [|discriminate].
  unfold bind at 1 in H.
  destruct (wrapErr _ (docx.addFile path (str "_rels/.rels") _) w2)
    as [[[]|e2] w3] eqn:H2.
  2:{ inversion H; subst. apply wrapErr_cases in H2.
      destruct H2 as [(a & Hbad & _)|(e3 & _ & H2)]; [discriminate|].
      destruct (addFile_cases _ _ _ _ _ _ _ _ A1 H2) as [[Hbad _]|[_ [Hs|Hs]]];
        [discriminate| |]; (eapply Hdone; [|exact Hs]); vm_compute; eexists; reflexivity. }
  apply wrapErr_Ok in H2.
  destruct (addFile_cases _ _ _ _ _ _ _ _ A1 H2) as [[_ A2]|[[e2 Hbad] _]];
    [|discriminate].
  apply wrapErr_cases in H.
  destruct H as [(a & Hbad & _)|(e3 & _ & H3)]; [discriminate|].
  destruct (addFile_cases _ _ _ _ _ _ _ _ A2 H3) as [[Hbad _]|[_ [Hs|Hs]]];
    [discriminate| |]; (eapply Hdone; [|exact Hs]); vm_compute; eexists; reflexivity.
Qed.

Lemma writeDocx_failure_leaves_prefix_witness :
  fs (snd (docx.writeDocx (str "f") (str "T") []
             (mkWorld ∅ ∅ ∅ [false; false; false; true] [] []))) = ∅
  \/ exists a,
       fs (snd (docx.writeDocx (str "f") (str "T") []
                  (mkWorld ∅ ∅ ∅ [false; false; false; true] [] [])))
       = <[str "f" := a]> ∅
       /\ map fst a `prefix_of` entryNames.
Proof.
  destruct (docx.writeDocx (str "f") (str "T") []
              (mkWorld ∅ ∅ ∅ [false; false; false; true] [] [])) as [[[]|e] w'] eqn:H;
    [vm_compute in H; discriminate|].
  exact (writeDocx_failure_leaves_prefix _ _ _ _ _ _ H).
Defined.

(** ** One request per article *)

Lemma httpGet_world req w :
  fs (snd (httpGet req w)) = fs w
  /\ texts (snd (httpGet req w)) = texts w
  /\ http (snd (httpGet req w)) = tail (http w)
  /\ calls (snd (httpGet req w)) = calls w ++ [(req, hd DoError (http w))].
Proof.
  unfold httpGet. destruct (http w) as [|o rest]; [repeat split|].
  destruct o as [| |status body]; [repeat split | repeat split|].
  destruct (negb (status =? 200)); [repeat split|].
  destruct body; repeat split.
Qed.

Lemma httpGet_result req w :
  fst (httpGet req w)
  = match hd DoError (http w) with
    | NewRequestError => Err ErrNewRequest
    | DoError => Err ErrTransport
    | Reply status body =>
      if status =? 200
      then match body with Malformed => Err ErrDecode | Json _ _ => Ok body end
      else Err (ErrStatus status)
    end.
Proof.
  unfold httpGet. destruct (http w) as [|o rest]; [reflexivity|].
  destruct o as [| |status body]; [reflexivity | reflexivity|].
  simpl. destruct (status =? 200); [|reflexivity].
  destruct body; reflexivity.
Qed.

(** X7: FetchArticle makes exactly one request, for the title it was
    given, whatever the outcome, and changes no file; it returns an
    article exactly when the reply has status 200 and holds at least one
    page, and the article is the first page, title and text unchanged. *)
Theorem FetchArticle_one_request title w :
  calls (snd (wiki.FetchArticle title w))
    = calls w ++ [(ReqExtract title, hd DoError (http w))]
  /\ http (snd (wiki.FetchArticle title w)) = tail (http w)
  /\ fs (snd (wiki.FetchArticle title w)) = fs w
  /\ forall article,
       fst (wiki.FetchArticle title w) = Ok article
       <-> exists page pages random,
             hd DoError (http w) = Reply 200 (Json (page :: pages) random)
             /\ article = wiki.mkArticle (page_title page) (page_extract page).
Proof.
  pose proof (httpGet_world (ReqExtract title) w) as (Hfs & _ & Hhttp & Hcalls).
  pose proof (httpGet_result (ReqExtract title) w) as Hres.
  unfold wiki.FetchArticle, bind.
  destruct (httpGet (ReqExtract title) w) as [r w1]. simpl in *.
  destruct r as [body|e].
  - destruct (hd DoError (http w)) as [| |status body0]; try discriminate.
    destruct (Z.eqb_spec status 200) as [->|Hne]; [|discriminate].
    destruct body0 as [|pages random]; [discriminate|]. inversion Hres; subst.
    destruct pages as [|page pages]; simpl.
    + repeat split; try assumption.
      * intros H; discriminate.
      * intros (page & pages & rnd & Hbad & _). discriminate.
    + repeat split; try assumption.
      * intros H. inversion H; subst. exists page, pages, random. split; reflexivity.
      * intros (page' & pages' & rnd & Heq & ->). inversion Heq; subst. reflexivity.
  - simpl. repeat split; try assumption.
    + intros H; discriminate.
    + intros (page & pages & rnd & Heq & _). rewrite Heq in Hres.
      simpl in Hres. discriminate.
Qed.

Lemma FetchArticle_world title w :
  calls (snd (wiki.FetchArticle title w))
    = calls w ++ [(ReqExtract title, hd DoError (http w))]
  /\ fs (snd (wiki.FetchArticle title w)) = fs w.
Proof.
  pose proof (httpGet_world (ReqExtract title) w) as (Hfs & _ & _ & Hcalls).
  unfold wiki.FetchArticle, bind.
  destruct (httpGet (ReqExtract title) w) as [[body|e] w1]; simpl in *;
    [|split; assumption].
  destruct body as [|[|page pages] random]; simpl; split; assumption.
Qed.

Lemma processArticle_cases Join title outDir w r w' :
  cli.processArticle Join title outDir w = (r, w') ->
  (exists e, r = Err (Wrap (str "fetch") e)
             /\ wiki.FetchArticle title w = (Err e, w'))
  \/ (exists article w1,
        wiki.FetchArticle title w = (Ok article, w1)
        /\ wrapErr (str "build docx")
             (docx.Build Join (wiki.Title article) (wiki.Content article) outDir) w1
           = (r, w')).
Proof.
  unfold cli.processArticle, bind.
  destruct (wrapErr (str "fetch") (wiki.FetchArticle title) w) as [[article|e] w1] eqn:Hw;
    intros H; apply wrapErr_cases in Hw;
    destruct Hw as [(a & Ha & Hf)|(e1 & He & Hf)]; try discriminate.
  - inversion Ha; subst. right. exists a, w1. split; [exact Hf | exact H].
  - inversion He; subst. inversion H; subst. left. exists e1. split; [reflexivity | exact Hf].
Qed.

(** X8: processArticle makes exactly one request whatever happens; when
    the fetch fails the error is marked fetch and no file is changed, and
    every other error is marked build docx. *)
Theorem processArticle_one_request Join title outDir w r w' :
  cli.processArticle Join title outDir w = (r, w') ->
  calls w' = calls w ++ [(ReqExtract title, hd DoError (http w))]
  /\ forall e, r = Err e ->
       (exists e', e = Wrap (str "fetch") e' /\ fs w' = fs w)
       \/ (exists e', e = Wrap (str "build docx") e').
Proof.
  intros H. apply processArticle_cases in H.
  pose proof (FetchArticle_world title w) as (Hcalls & Hfs).
  destruct H as [(e & -> & Hf)|(article & w1 & Hf & Hb)]; rewrite Hf in *; simpl in *.
  - split; [exact Hcalls|]. intros e0 He. inversion He; subst.
    left. exists e. split; [reflexivity | exact Hfs].
  - apply wrapErr_cases in Hb.
    destruct Hb as [(a & -> & Hb)|(e & -> & Hb)];
      apply Build_effect in Hb; destruct Hb as (_ & _ & _ & Hc);
      (split; [rewrite Hc; exact Hcalls|]); intros e0 He; inversion He; subst.
    right. exists e. reflexivity.
Qed.

Lemma processArticle_one_request_witness :
  exists e',
    fst (cli.processArticle Examples.joinSlash (str "UK") (str "out") Examples.emptyWorld)
    = Err (Wrap (str "fetch") e')
    /\ fs (snd (cli.processArticle Examples.joinSlash (str "UK") (str "out")
                  Examples.emptyWorld)) = ∅.
Proof.
  destruct (cli.processArticle Examples.joinSlash (str "UK") (str "out")
              Examples.emptyWorld) as [r w'] eqn:H.
  destruct (processArticle_one_request _ _ _ _ _ _ H) as [_ Herr].
  vm_compute in H. injection H as <- <-.
  destruct (Herr _ eq_refl) as [(e' & He & Hfs)|(e' & He)]; [|discriminate].
  exists e'. simpl. split; [f_equal; exact He | reflexivity].
Defined.

(** ** The requests of GetRandomTitles *)

Lemma httpGet_split req w :
  exists o, hd DoError (http w) = o
    /\ calls (snd (httpGet req w)) = calls w ++ [(req, o)]
    /\ (forall body, fst (httpGet req w) = Ok body ->
          goodReply o = true /\ exists pages random,
            body = Json pages random /\ o = Reply 200 (Json pages random))
    /\ (forall e, fst (httpGet req w) = Err e -> goodReply o = false).
Proof.
  exists (hd DoError (http w)). split; [reflexivity|].
  split; [apply httpGet_world|]. rewrite httpGet_result.
  destruct (hd DoError (http w)) as [| |status body]; simpl.
  - split; [discriminate | reflexivity].
  - split; [discriminate | reflexivity].
  - destruct (Z.eqb_spec status 200) as [->|Hne].
    + destruct body as [|pages random].
      * split; [discriminate | reflexivity].
      * split; [|discriminate]. intros body H. inversion H; subst.
        split; [reflexivity|]. exists pages, random. split; reflexivity.
    + split; [discriminate|]. intros _ _. destruct body; reflexivity.
Qed.

Lemma randomLoop_sizes limit M fuel :
  wiki.int_range limit ->
  forall (u : gset bytes) result attempts w r,
    wiki.randomLoop fuel limit M u result attempts w = Some r ->
    exists new,
      calls (snd r) = calls w ++ new
      /\ Forall (fun c => exists b, fst c = ReqRandom b
                            /\ 1 <= b <= 500 /\ b <= limit) new.
Proof.
  intros Hrange. induction fuel as [|fuel IH]; intros u result attempts w r;
    cbn [wiki.randomLoop];
    destruct ((Z.of_nat (size u) <? limit) && (attempts <? M)) eqn:Hcond;
    try discriminate;
    try (intros H; inversion H; subst; exists []; rewrite app_nil_r;
         split; [reflexivity | constructor]).
  apply andb_true_iff in Hcond. destruct Hcond as [Hc _]. apply Z.ltb_lt in Hc.
  rewrite (wrap64_id (limit - Z.of_nat (size u)))
    by (unfold wiki.int_range in *; lia).
  set (b := if 500 <? limit - Z.of_nat (size u) then 500 else limit - Z.of_nat (size u)).
  assert (1 <= b <= 500 /\ b <= limit) as Hb
    by (unfold b; destruct (Z.ltb_spec 500 (limit - Z.of_nat (size u))); lia).
  destruct (httpGet_split (ReqRandom b) w) as (o & _ & Hcalls & _ & _).
  destruct (httpGet (ReqRandom b) w) as [[body|e] w1]; simpl in Hcalls.
  - destruct body as [|pages random].
    + intros H; inversion H; subst. exists [(ReqRandom b, o)].
      split; [exact Hcalls|]. constructor; [|constructor]. exists b. tauto.
    + destruct (wiki.len random =? 0).
      * intros H; inversion H; subst. exists [(ReqRandom b, o)].
        split; [exact Hcalls|]. constructor; [|constructor]. exists b. tauto.
      * destruct (wiki.addBatch limit random u result) as [u' result'].
        intros H. apply IH in H. destruct H as (new & Hn & Hall).
        exists ((ReqRandom b, o) :: new). split.
        -- rewrite Hn, Hcalls, <- app_assoc. reflexivity.
        -- constructor; [exists b; tauto | exact Hall].
  - intros H; inversion H; subst. exists [(ReqRandom b, o)].
    split; [exact Hcalls|]. constructor; [|constructor]. exists b. tauto.
Qed.

(** X9: every request of GetRandomTitles asks for at least one and at
    most 500 titles, and never for more than the limit. *)
Theorem GetRandomTitles_request_sizes limit w r :
  wiki.int_range limit ->
  wiki.GetRandomTitles limit w = Some r ->
  exists new,
    calls (snd r) = calls w ++ new
    /\ Forall (fun c => exists b, fst c = ReqRandom b
                          /\ 1 <= b <= 500 /\ b <= limit) new.
Proof. intros Hrange. apply randomLoop_sizes, Hrange. Qed.

Lemma GetRandomTitles_request_sizes_witness :
  exists r new,
    wiki.GetRandomTitles 3 Examples.randomWorld = Some r
    /\ calls (snd r) = new
    /\ Forall (fun c => exists b, fst c = ReqRandom b /\ 1 <= b <= 500 /\ b <= 3) new.
Proof.
  destruct (wiki.GetRandomTitles 3 Examples.randomWorld) as [r|] eqn:H;
    [|vm_compute in H; discriminate].
  destruct (GetRandomTitles_request_sizes 3 Examples.randomWorld r) as (new & Hc & Hall);
    [unfold wiki.int_range; lia | exact H |].
  exists r, new. split; [reflexivity|]. split; [exact Hc | exact Hall].
Defined.

Lemma addBatch_from limit batch :
  forall (u : gset bytes) result u' result',
    wiki.addBatch limit batch u result = (u', result') ->
    forall t, t ∈ result' -> t ∈ result \/ t ∈ batch.
Proof.
  induction batch as [|x rest IH]; intros u result u' result' H t Ht.
  - inversion H; subst. left. exact Ht.
  - cbn [wiki.addBatch] in H. destruct (decide (x ∈ u)).
    + destruct (IH _ _ _ _ H t Ht) as [Hl|Hr]; [left; exact Hl|].
      right. apply elem_of_cons. right. exact Hr.
    + destruct (limit <=? wiki.len (result ++ [x])).
      * inversion H; subst. apply elem_of_app in Ht. destruct Ht as [Hl|Hx].
        -- left. exact Hl.
        -- right. apply list_elem_of_singleton in Hx. subst. apply elem_of_cons. left. reflexivity.
      * destruct (IH _ _ _ _ H t Ht) as [Hl|Hr].
        -- apply elem_of_app in Hl. destruct Hl as [Hl|Hx]; [left; exact Hl|].
           right. apply list_elem_of_singleton in Hx. subst. apply elem_of_cons. left. reflexivity.
        -- right. apply elem_of_cons. right. exact Hr.
Qed.

Lemma randomLoop_from limit M fuel :
  forall (u : gset bytes) result attempts w r,
    wiki.randomLoop fuel limit M u result attempts w = Some r ->
    exists new,
      calls (snd r) = calls w ++ new
      /\ forall t, t ∈ fst (fst r) ->
           t ∈ result
           \/ exists c, c ∈ new /\ goodReply (snd c) = true /\ t ∈ delivered (snd c).
Proof.
  induction fuel as [|fuel IH]; intros u result attempts w r;
    cbn [wiki.randomLoop];
    destruct ((Z.of_nat (size u) <? limit) && (attempts <? M)) eqn:Hcond;
    try discriminate;
    try (intros H; inversion H; subst; exists []; rewrite app_nil_r;
         split; [reflexivity | intros t Ht; left; exact Ht]).
  set (b := if 500 <? _ then 500 else _).
  destruct (httpGet_split (ReqRandom b) w) as (o & _ & Hcalls & Hok & _).
  destruct (httpGet (ReqRandom b) w) as [[body|e] w1]; simpl in Hcalls, Hok.
  - destruct (Hok body eq_refl) as (Hgood & pages & random & -> & ->).
    destruct (wiki.len random =? 0).
    + intros H; inversion H; subst. eexists. split; [exact Hcalls|].
      intros t Ht. left. exact Ht.
    + destruct (wiki.addBatch limit random u result) as [u' result'] eqn:Hadd.
      intros H. apply IH in H. destruct H as (new & Hn & Hfrom).
      exists ((ReqRandom b, Reply 200 (Json pages random)) :: new). split.
      * rewrite Hn, Hcalls, <- app_assoc. reflexivity.
      * intros t Ht. destruct (Hfrom t Ht) as [Hr|(c & Hc & Hg & Hd)].
        -- destruct (addBatch_from _ _ _ _ _ _ Hadd t Hr) as [Hl|Hb].
           ++ left. exact Hl.
           ++ right. exists (ReqRandom b, Reply 200 (Json pages random)).
              split; [apply elem_of_cons; left; reflexivity|].
              split; [reflexivity | exact Hb].
        -- right. exists c. split; [apply elem_of_cons; right; exact Hc|].
           split; assumption.
  - intros H; inversion H; subst. eexists. split; [exact Hcalls|].
    intros t Ht. left. exact Ht.
Qed.

(** X10: every title GetRandomTitles returns was delivered by the endpoint
    in a reply with status 200 to one of its requests. *)
Theorem GetRandomTitles_titles_delivered limit w titles err w' :
  wiki.GetRandomTitles limit w = Some ((titles, err), w') ->
  exists new,
    calls w' = calls w ++ new
    /\ forall t, t ∈ titles ->
         exists c, c ∈ new /\ goodReply (snd c) = true /\ t ∈ delivered (snd c).
Proof.
  intros H. apply randomLoop_from in H. destruct H as (new & Hc & Hfrom).
  exists new. split; [exact Hc|]. intros t Ht.
  destruct (Hfrom t Ht) as [Hbad|Hok]; [inversion Hbad | exact Hok].
Qed.

Lemma GetRandomTitles_titles_delivered_witness :
  exists c, c ∈ [(ReqRandom 3, Reply 200 (Json [] [str "A"; str "B"; str "A"]));
                 (ReqRandom 1, Reply 200 (Json [] [str "B"]));
                 (ReqRandom 1, Reply 200 (Json [] []))]
            /\ goodReply (snd c) = true /\ str "B" ∈ delivered (snd c).
Proof.
  destruct (wiki.GetRandomTitles 3 Examples.randomWorld) as [[[titles err] w']|] eqn:H;
    [|vm_compute in H; discriminate].
  destruct (GetRandomTitles_titles_delivered _ _ _ _ _ H) as (new & Hc & Hfrom).
  vm_compute in H. injection H as <- _ <-.
  simpl in Hc. subst new. apply Hfrom.
  apply elem_of_cons. right. apply elem_of_cons. left. reflexivity.
Defined.

Lemma randomLoop_trace limit M fuel :
  forall (u : gset bytes) result attempts w titles err w',
    wiki.randomLoop fuel limit M u result attempts w = Some ((titles, err), w') ->
    exists new,
      calls w' = calls w ++ new
      /\ ((new = [] /\ err = None)
          \/ exists init c,
               new = init ++ [c]
               /\ Forall (fun x => fullBatch (snd x) = true) init
               /\ (err = None <-> goodReply (snd c) = true)).
Proof.
  induction fuel as [|fuel IH]; intros u result attempts w titles err w';
    cbn [wiki.randomLoop];
    destruct ((Z.of_nat (size u) <? limit) && (attempts <? M)) eqn:Hcond;
    try discriminate;
    try (intros H; inversion H; subst; exists []; rewrite app_nil_r;
         split; [reflexivity | left; split; reflexivity]).
  set (b := if 500 <? _ then 500 else _).
  destruct (httpGet_split (ReqRandom b) w) as (o & _ & Hcalls & Hok & Herr).
  destruct (httpGet (ReqRandom b) w) as [[body|e] w1]; simpl in Hcalls, Hok, Herr.
  - destruct (Hok body eq_refl) as (Hgood & pages & random & -> & ->).
    destruct (Z.eqb_spec (wiki.len random) 0) as [Hz|Hnz].
    + intros H; inversion H; subst. eexists. split; [exact Hcalls|].
      right. exists [], (ReqRandom b, Reply 200 (Json pages random)).
      split; [reflexivity|]. split; [constructor|]. split; reflexivity.
    + destruct (wiki.addBatch limit random u result) as [u' result'].
      intros H. apply IH in H. destruct H as (new & Hn & Hshape).
      exists ((ReqRandom b, Reply 200 (Json pages random)) :: new). split.
      { rewrite Hn, Hcalls, <- app_assoc. reflexivity. }
      assert (fullBatch (Reply 200 (Json pages random)) = true) as Hfull
        by (destruct random; [unfold wiki.len in Hnz; simpl in Hnz; lia | reflexivity]).
      right. destruct Hshape as [[-> ->]|(init & c & -> & Hinit & Hlast)].
      * exists [], (ReqRandom b, Reply 200 (Json pages random)).
        split; [reflexivity|]. split; [constructor|]. split; reflexivity.
      * exists ((ReqRandom b, Reply 200 (Json pages random)) :: init), c.
        split; [reflexivity|]. split; [constructor; assumption | exact Hlast].
  - intros H; inversion H; subst. eexists. split; [exact Hcalls|].
    right. exists [], (ReqRandom b, o). split; [reflexivity|].
    split; [constructor|]. simpl. rewrite (Herr e eq_refl).
    split; discriminate.
Qed.

(** X11: GetRandomTitles goes on only after a reply with a batch that is
    not empty: every request but the last was answered so, and it returns
    an error exactly when its last request failed.  A failed request is
    not repeated. *)
Theorem GetRandomTitles_stops_at_failure limit w titles err w' :
  wiki.GetRandomTitles limit w = Some ((titles, err), w') ->
  exists new,
    calls w' = calls w ++ new
    /\ ((new = [] /\ err = None)
        \/ exists init c,
             new = init ++ [c]
             /\ Forall (fun x => fullBatch (snd x) = true) init
             /\ (err = None <-> goodReply (snd c) = true)).
Proof. apply randomLoop_trace. Qed.

Lemma GetRandomTitles_stops_at_failure_witness :
  exists titles err w' new,
    wiki.GetRandomTitles 5
      (mkWorld ∅ ∅ ∅ [] [Reply 200 (Json [] [str "A"]); Reply 503 Malformed;
                         Reply 200 (Json [] [str "B"])] [])
    = Some ((titles, err), w')
    /\ calls w' = new /\ length new = 2%nat /\ err = Some (ErrStatus 503).
Proof.
  destruct (wiki.GetRandomTitles 5 _) as [[[titles err] w']|] eqn:H;
    [|vm_compute in H; discriminate].
  destruct (GetRandomTitles_stops_at_failure _ _ _ _ _ H) as (new & Hc & _).
  exists titles, err, w', new. split; [reflexivity|].
  vm_compute in H. injection H as <- <- <-. simpl in Hc. subst new.
  repeat split.
Defined.

(** ** One batch that suffices *)

Lemma addBatch_take limit batch :
  forall (u : gset bytes) result,
    NoDup batch -> (forall t, t ∈ batch -> t ∉ u) ->
    wiki.len result < limit ->
    snd (wiki.addBatch limit batch u result)
    = result ++ take (Z.to_nat (limit - wiki.len result)) batch.
Proof.
  unfold wiki.len.
  induction batch as [|x rest IH]; intros u result Hnd Hfresh Hlt.
  - simpl. rewrite take_nil, app_nil_r. reflexivity.
  - cbn [wiki.addBatch]. rewrite decide_False
      by (apply Hfresh, elem_of_cons; left; reflexivity).
    apply NoDup_cons in Hnd. destruct Hnd as [Hx Hnd].
    assert (Z.of_nat (length (result ++ [x])) = Z.of_nat (length result) + 1) as Hlen
      by (rewrite length_app; simpl; lia).
    destruct (Z.leb_spec limit (wiki.len (result ++ [x]))) as [Hge|Hlt2];
      unfold wiki.len in *.
    + simpl. replace (Z.to_nat (limit - Z.of_nat (length result))) with 1%nat by lia.
      reflexivity.
    + rewrite IH; try assumption.
      * rewrite Hlen.
        replace (Z.to_nat (limit - Z.of_nat (length result)))
          with (S (Z.to_nat (limit - (Z.of_nat (length result) + 1)))) by lia.
        cbn [take]. rewrite <- app_assoc. reflexivity.
      * intros t Ht Hin. apply elem_of_union in Hin. destruct Hin as [Hin|Hin].
        -- apply elem_of_singleton in Hin. subst. contradiction.
        -- apply (Hfresh t); [apply elem_of_cons; right; exact Ht | exact Hin].
Qed.

(** X12: when the first reply holds at least limit titles, all different,
    GetRandomTitles returns the first limit of them, in order and without
    error, after that one request. *)
Theorem GetRandomTitles_one_batch limit w pages random rest :
  1 <= limit -> 3 * limit < 2 ^ 63 ->
  http w = Reply 200 (Json pages random) :: rest ->
  NoDup random -> limit <= wiki.len random ->
  exists w',
    wiki.GetRandomTitles limit w = Some ((take (Z.to_nat limit) random, None), w')
    /\ http w' = rest
    /\ calls w' = calls w ++ [(ReqRandom (Z.min 500 limit),
                               Reply 200 (Json pages random))].
Proof.
  intros Hpos Hfit Hhttp Hnd Hlen.
  unfold wiki.GetRandomTitles, wiki.maxAttemptsOf.
  rewrite (wrap64_id (limit * 3)) by (unfold wiki.int_range; lia).
  destruct (Z.to_nat (limit * 3)) as [|[|fuel]] eqn:Hfuel; [lia | lia |].
  cbn [wiki.randomLoop]. rewrite size_empty.
  destruct (Z.ltb_spec (Z.of_nat 0) limit) as [_|]; [|lia].
  destruct (Z.ltb_spec 0 (limit * 3)) as [_|]; [|lia]. cbn [andb].
  rewrite (wrap64_id (limit - Z.of_nat 0)) by (unfold wiki.int_range; lia).
  replace (limit - Z.of_nat 0) with limit by lia.
  assert ((if 500 <? limit then 500 else limit) = Z.min 500 limit) as ->
    by (destruct (Z.ltb_spec 500 limit); lia).
  set (req := ReqRandom (Z.min 500 limit)).
  pose proof (httpGet_world req w) as (_ & _ & Hh & Hc).
  pose proof (httpGet_result req w) as Hr.
  rewrite Hhttp in Hh, Hc, Hr. simpl in Hh, Hc, Hr.
  destruct (httpGet req w) as [r1 w1]. simpl in Hh, Hc, Hr. subst r1.
  destruct (Z.eqb_spec (wiki.len random) 0) as [Hz|_]; [lia|].
  destruct (wiki.addBatch limit random ∅ []) as [u' result'] eqn:Hadd.
  pose proof (addBatch_take limit random ∅ [] Hnd) as Htake.
  rewrite Hadd in Htake. simpl in Htake.
  rewrite Htake in * by (try (intros t _; apply not_elem_of_empty); unfold wiki.len; simpl; lia).
  replace (limit - wiki.len []) with limit in * by (unfold wiki.len; simpl; lia).
  apply addBatch_inv in Hadd;
    [|apply NoDup_nil_2 | intros t; rewrite elem_of_empty, elem_of_nil; tauto
     | unfold wiki.len; simpl; lia].
  destruct Hadd as (Hnd' & Hel' & _).
  pose proof (size_of_NoDup _ _ Hnd' Hel') as Hsize.
  rewrite length_take in Hsize. unfold wiki.len in Hlen.
  cbn [wiki.randomLoop]. rewrite Hsize.
  destruct (Z.ltb_spec (Z.of_nat (Z.to_nat limit `min` length random)) limit); [lia|].
  cbn [andb]. exists w1. split; [reflexivity|]. split; assumption.
Qed.

Lemma GetRandomTitles_one_batch_witness :
  exists w',
    wiki.GetRandomTitles 2
      (mkWorld ∅ ∅ ∅ [] [Reply 200 (Json [] [str "A"; str "B"; str "C"])] [])
    = Some (([str "A"; str "B"], None), w').
Proof.
  destruct (GetRandomTitles_one_batch 2
              (mkWorld ∅ ∅ ∅ [] [Reply 200 (Json [] [str "A"; str "B"; str "C"])] [])
              [] [str "A"; str "B"; str "C"] []) as (w' & H & _).
  - lia.
  - lia.
  - reflexivity.
  - repeat (apply NoDup_cons; split; [vm_compute; intros Hin;
      repeat (apply elem_of_cons in Hin; destruct Hin as [Hin|Hin]; [discriminate|]);
      inversion Hin|]). apply NoDup_nil_2.
  - unfold wiki.len. simpl. lia.
  - exists w'. exact H.
Defined.

(** ** The earlier revision of GetRandomTitles *)

Lemma gowiki_loop limit fuel :
  wiki.int_range limit ->
  forall titles0 w titles err w',
    wiki.GetRandomTitles_gowiki_go fuel limit titles0 w = Some ((titles, err), w') ->
    titles0 `prefix_of` titles
    /\ (err = None -> limit <= wiki.len titles)
    /\ exists new,
         calls w' = calls w ++ new
         /\ Forall (fun c => exists b, fst c = ReqRandom b /\ 1 <= b <= 10) new.
Proof.
  intros Hrange. induction fuel as [|fuel IH]; intros titles0 w titles err w';
    cbn [wiki.GetRandomTitles_gowiki_go];
    destruct (Z.ltb_spec (wiki.len titles0) limit) as [Hlt|Hge];
    try discriminate;
    try (intros H; inversion H; subst; split; [reflexivity|];
         split; [intros _; exact Hge|]; exists []; rewrite app_nil_r;
         split; [reflexivity | constructor]).
  assert (0 <= wiki.len titles0) as Hnonneg by (unfold wiki.len; lia).
  rewrite (wrap64_id (limit - wiki.len titles0)) by (unfold wiki.int_range in *; lia).
  set (b := if 10 <? _ then 10 else _).
  assert (1 <= b <= 10) as Hb
    by (unfold b; destruct (Z.ltb_spec 10 (limit - wiki.len titles0)); lia).
  destruct (httpGet_split (ReqRandom b) w) as (o & _ & Hcalls & _ & _).
  destruct (httpGet (ReqRandom b) w) as [[body|e] w1]; simpl in Hcalls.
  - destruct body as [|pages results].
    + intros H; inversion H; subst. split; [reflexivity|]. split; [discriminate|].
      exists [(ReqRandom b, o)]. split; [exact Hcalls|].
      constructor; [exists b; tauto | constructor].
    + intros H. apply IH in H. destruct H as (Hpre & Hlen & new & Hn & Hall).
      split; [etransitivity; [apply prefix_app_r; reflexivity | exact Hpre]|].
      split; [exact Hlen|].
      exists ((ReqRandom b, o) :: new). split.
      * rewrite Hn, Hcalls, <- app_assoc. reflexivity.
      * constructor; [exists b; tauto | exact Hall].
  - intros H; inversion H; subst. split; [reflexivity|]. split; [discriminate|].
    exists [(ReqRandom b, o)]. split; [exact Hcalls|].
    constructor; [exists b; tauto | constructor].
Qed.

(** X13: the earlier revision, on go-wiki: when it returns without error
    it returns at least limit titles, and each of its requests asks for
    one to ten titles. *)
Theorem GetRandomTitles_gowiki_at_least limit fuel w titles w' :
  wiki.int_range limit ->
  wiki.GetRandomTitles_gowiki_go fuel limit [] w = Some ((titles, None), w') ->
  limit <= wiki.len titles
  /\ exists new,
       calls w' = calls w ++ new
       /\ Forall (fun c => exists b, fst c = ReqRandom b /\ 1 <= b <= 10) new.
Proof.
  intros Hrange H. apply gowiki_loop in H; [|exact Hrange].
  destruct H as (_ & Hlen & Hnew). split; [apply Hlen; reflexivity | exact Hnew].
Qed.

(** Two titles asked for, three come back, one of them twice. *)
Lemma GetRandomTitles_gowiki_at_least_witness :
  exists w',
    wiki.GetRandomTitles_gowiki_go 5 2 []
      (mkWorld ∅ ∅ ∅ [] [Reply 200 (Json [] [str "A"; str "A"; str "B"])] [])
    = Some (([str "A"; str "A"; str "B"], None), w')
    /\ 2 <= wiki.len [str "A"; str "A"; str "B"].
Proof.
  destruct (wiki.GetRandomTitles_gowiki_go 5 2 [] _) as [[[titles err] w']|] eqn:H;
    [|vm_compute in H; discriminate].
  assert (err = None) as -> by (vm_compute in H; injection H as _ <- _; reflexivity).
  destruct (GetRandomTitles_gowiki_at_least 2 5 _ titles w'
              ltac:(unfold wiki.int_range; lia) H) as [Hlen _].
  vm_compute in H. injection H as <- <-.
  eexists. split; [reflexivity | exact Hlen].
Defined.

(** ** Pieces of a string *)

Lemma pieceOf_refl s : pieceOf s s.
Proof. exists [], []. rewrite app_nil_r. reflexivity. Qed.

Lemma pieceOf_nil s : pieceOf [] s.
Proof. exists s, []. rewrite app_nil_r. reflexivity. Qed.

Lemma pieceOf_trans a b c : pieceOf a b -> pieceOf b c -> pieceOf a c.
Proof.
  intros (p1 & q1 & ->) (p2 & q2 & ->). exists (p2 ++ p1), (q1 ++ q2).
  rewrite <- !app_assoc. reflexivity.
Qed.

Lemma pieceOf_drop i s : pieceOf (drop i s) s.
Proof. exists (take i s), []. rewrite app_nil_r, take_drop. reflexivity. Qed.

Lemma pieceOf_take i s : pieceOf (take i s) s.
Proof. exists [], (drop i s). simpl. rewrite take_drop. reflexivity. Qed.

Lemma pieceOf_elem (c : ascii) t s : pieceOf t s -> c ∈ t -> c ∈ s.
Proof.
  intros (pre & post & ->) Hc. rewrite !elem_of_app. right. left. exact Hc.
Qed.

Lemma pieceOf_Forall (P : ascii -> Prop) t s : pieceOf t s -> Forall P s -> Forall P t.
Proof.
  intros (pre & post & ->) H. apply Forall_app in H. destruct H as [_ H].
  apply Forall_app in H. apply H.
Qed.

Lemma TrimSpace_piece s : pieceOf (gostrings.TrimSpace s) s.
Proof.
  unfold gostrings.TrimSpace, gostrings.TrimFunc.
  eapply pieceOf_trans with (b := gostrings.TrimLeftFunc s unicode.IsSpace).
  - unfold gostrings.TrimRightFunc.
    destruct (gostrings.lastIndexFunc _ _ _); [|apply pieceOf_nil].
    destruct (nth_error _ _); [|apply pieceOf_take].
    destruct (_ <=? _); apply pieceOf_take.
  - unfold gostrings.TrimLeftFunc.
    destruct (gostrings.indexFunc _ _ _); [apply pieceOf_drop | apply pieceOf_nil].
Qed.

(** ** The titles of a file *)

Lemma dropCR_piece data : pieceOf (bufio.dropCR data) data.
Proof.
  unfold bufio.dropCR. destruct (last data); [|apply pieceOf_refl].
  destruct (Ascii.eqb _ _); [apply pieceOf_take | apply pieceOf_refl].
Qed.

Lemma scan_go_no_newline data :
  forall cur, LF ∉ cur ->
    Forall (fun token => LF ∉ token) (fst (bufio.scan_go cur data)).
Proof.
  induction data as [|c data IH]; intros cur Hcur; cbn [bufio.scan_go].
  - destruct cur; [constructor|].
    destruct (_ <=? _); [constructor|]. simpl. constructor; [|constructor].
    intros Hin. apply Hcur. eapply pieceOf_elem; [apply dropCR_piece | exact Hin].
  - destruct (Ascii.eqb c LF) eqn:Hc.
    + destruct (_ <=? _); [constructor|].
      specialize (IH [] (not_elem_of_nil _)).
      destruct (bufio.scan_go [] data) as [tokens e]. simpl in *.
      constructor; [|exact IH].
      intros Hin. apply Hcur. eapply pieceOf_elem; [apply dropCR_piece | exact Hin].
    + apply IH. intros Hin. apply elem_of_app in Hin. destruct Hin as [Hin|Hin].
      * exact (Hcur Hin).
      * apply list_elem_of_singleton in Hin. apply Ascii.eqb_neq in Hc. congruence.
Qed.

Lemma titleLoop_titles lines t :
  t ∈ cli.titleLoop lines ->
  t <> [] /\ head t <> Some "#"%char /\ exists line, line ∈ lines /\ pieceOf t line.
Proof.
  induction lines as [|text lines IH]; cbn [cli.titleLoop]; intros Ht; [inversion Ht|].
  assert (forall x, (exists line, line ∈ lines /\ pieceOf x line) ->
            exists line, line ∈ text :: lines /\ pieceOf x line) as Hmore.
  { intros x (line & Hl & Hp). exists line. split; [apply elem_of_cons; right|]; assumption. }
  destruct (gostrings.TrimSpace text) as [|c rest] eqn:Htrim.
  - simpl in Ht. destruct (IH Ht) as (H1 & H2 & H3). repeat split; auto.
  - cbn [orb gostrings.HasPrefix str list_ascii_of_string] in Ht.
    rewrite andb_true_r in Ht. destruct (Ascii.eqb c "#") eqn:Hc.
    + destruct (IH Ht) as (H1 & H2 & H3). repeat split; auto.
    + apply elem_of_cons in Ht. destruct Ht as [->|Ht].
      * split; [discriminate|]. split.
        -- simpl. apply Ascii.eqb_neq in Hc. congruence.
        -- exists text. split; [apply elem_of_cons; left; reflexivity|].
           rewrite <- Htrim. apply TrimSpace_piece.
      * destruct (IH Ht) as (H1 & H2 & H3). repeat split; auto.
Qed.

(** X14: no title that readTitlesFromFile returns is empty, starts with
    '#' or holds a newline; and a file that cannot be opened gives no title
    and an error marked open file. *)
Theorem readTitlesFromFile_titles w path :
  Forall (fun t => t <> [] /\ head t <> Some "#"%char /\ LF ∉ t)
         (fst (cli.readTitlesFromFile w path))
  /\ (texts w !! path = None ->
      exists e, cli.readTitlesFromFile w path = ([], Some (Wrap (str "open file") e))).
Proof.
  unfold cli.readTitlesFromFile. split.
  - destruct (texts w !! path) as [data|]; [|constructor].
    pose proof (scan_go_no_newline data [] (not_elem_of_nil _)) as Hlines.
    unfold bufio.scanLines. destruct (bufio.scan_go [] data) as [lines e]. simpl in *.
    apply Forall_forall. intros t Ht. apply titleLoop_titles in Ht.
    destruct Ht as (Hne & Hhash & line & Hline & Hpiece).
    repeat split; try assumption.
    intros Hin. rewrite Forall_forall in Hlines.
    apply (Hlines line Hline). eapply pieceOf_elem; eassumption.
  - intros ->. eexists. reflexivity.
Qed.

Lemma readTitlesFromFile_titles_witness :
  exists e, cli.readTitlesFromFile Examples.emptyWorld (str "titles.txt")
            = ([], Some (Wrap (str "open file") e)).
Proof.
  destruct (readTitlesFromFile_titles Examples.emptyWorld (str "titles.txt")) as [_ H].
  apply H. reflexivity.
Defined.

(** ** The pool at every moment *)







(** ** The rate limiter *)

(** X17: SetRateLimit installs a ticking channel exactly for a rate from 1
    to 10^9 requests per second; the interval is the whole number of
    nanoseconds 10^9 / rps, at least one.  For every other rate, zero or
    less or above 10^9, the channel is nil and wait never blocks. *)
Theorem SetRateLimit_active rps :
  (limiter.waits (limiter.SetRateLimit rps) = true <-> 1 <= rps <= limiter.Second)
  /\ (forall d, limiter.SetRateLimit rps = Some d ->
        1 <= d /\ d * rps <= limiter.Second < (d + 1) * rps).
Proof.
  unfold limiter.SetRateLimit, limiter.Tick, limiter.Second.
  destruct (Z.leb_spec rps 0) as [Hle|Hpos].
  { split; [|discriminate]. simpl. split; [discriminate | lia]. }
  rewrite Z.quot_div_nonneg by lia.
  pose proof (Z.div_mod 1000000000 rps ltac:(lia)) as Hdm.
  pose proof (Z.mod_pos_bound 1000000000 rps ltac:(lia)) as Hmod.
  destruct (Z.leb_spec (1000000000 / rps) 0) as [Hz|Hnz].
  - split; [|discriminate]. simpl. split; [discriminate|]. nia.
  - split.
    + simpl. split; [|reflexivity]. intros _. nia.
    + intros d Hd. inversion Hd; subst. nia.
Qed.

Lemma SetRateLimit_active_witness :
  limiter.SetRateLimit 10 = Some 100000000
  /\ 1 <= 100000000 /\ 100000000 * 10 <= limiter.Second < (100000000 + 1) * 10.
Proof.
  split; [reflexivity|].
  apply (proj2 (SetRateLimit_active 10) 100000000). reflexivity.
Defined.

(** ** How main starts *)

Lemma GetRandomTitles_total limit w :
  exists titles err w',
    wiki.GetRandomTitles limit w = Some ((titles, err), w')
    /\ (limit <= 0 -> titles = [] /\ err = None).
Proof.
  unfold wiki.GetRandomTitles.
  destruct (randomLoop_spec limit (Z.to_nat (wiki.maxAttemptsOf limit)) ∅ [] 0 w) as
    (titles & err & w' & new & Hrun & _ & Hlen & _).
  - lia.
  - lia.
  - apply NoDup_nil_2.
  - intros t. rewrite elem_of_empty, elem_of_nil. tauto.
  - unfold wiki.len. simpl. lia.
  - exists titles, err, w'. split; [exact Hrun|]. intros Hle.
    destruct (Z.to_nat (wiki.maxAttemptsOf limit)) as [|fuel]; cbn [wiki.randomLoop] in Hrun;
      rewrite size_empty in Hrun;
      destruct (Z.ltb_spec (Z.of_nat 0) limit); try lia;
      injection Hrun as <- <- _; split; reflexivity.
Qed.

(** X18: main always gets past collecting the titles, and it starts the
    pool only with at least one title: then with the full list queued,
    nothing handled, and as many workers as the merged flags say.  With an
    input file no request is made before the pool starts, whatever -random
    says; without one, -random of zero or less ends in the fatal
    no titles. *)
Theorem mainStart_runs_with_titles inputFile randomN nWorkers workerAlias wAlias w :
  exists s,
    entry.mainStart inputFile randomN nWorkers workerAlias wAlias w = Some s
    /\ (forall p, s = entry.Run p ->
          cli.queue p <> [] /\ cli.handled p = [] /\ cli.failed p = []
          /\ cli.live p = Z.to_nat (cli.mergeWorkers nWorkers workerAlias wAlias)
          /\ (inputFile <> [] ->
              cli.world p = w
              /\ cli.readTitlesFromFile w inputFile = (cli.queue p, None)))
    /\ (inputFile = [] -> randomN <= 0 -> s = entry.FatalNoTitles).
Proof.
  unfold entry.mainStart, entry.collectTitles.
  destruct inputFile as [|c inputFile].
  - destruct (GetRandomTitles_total randomN w) as (titles & err & w' & -> & Hnon).
    destruct err as [e|].
    + exists (entry.FatalCollect e). split; [destruct titles; reflexivity|].
      split; [intros p Hp; discriminate|].
      intros _ Hle. destruct (Hnon Hle) as [_ He]. discriminate.
    + destruct titles as [|t titles].
      * eexists. split; [reflexivity|]. split; [intros p Hp; discriminate|].
        reflexivity.
      * eexists. split; [reflexivity|]. split.
        -- intros p Hp. injection Hp as <-. rewrite startPool_live. simpl.
           split; [discriminate|]. split; [reflexivity|]. split; [reflexivity|].
           split; [reflexivity|]. intros Hne. contradiction.
        -- intros _ Hle. destruct (Hnon Hle) as [Ht _]. discriminate.
  - destruct (cli.readTitlesFromFile w (c :: inputFile)) as [titles [e|]] eqn:Hread.
    + exists (entry.FatalCollect e). split; [destruct titles; reflexivity|].
      split; [intros p Hp|intros Hn]; discriminate.
    + destruct titles as [|t titles].
      * eexists. split; [reflexivity|]. split; [intros p Hp|intros Hn]; discriminate.
      * eexists. split; [reflexivity|]. split; [|intros Hn; discriminate].
        intros p Hp. injection Hp as <-. rewrite startPool_live. simpl.
        split; [discriminate|]. repeat split; reflexivity.
Qed.

(** ** File names *)

(** X19: the titles that are their own file name are exactly those
    without a byte of the unsafe set, without an underscore at either end,
    and of at most 200 bytes. *)
Theorem safeFilename_fixed_points x :
  docx.safeFilename x = x
  <-> Forall (fun c => docx.unsafeChars c = false) x
      /\ head x <> Some US /\ last x <> Some US /\ (length x <= 200)%nat.
Proof.
  split.
  - intros Hfix.
    split.
    { rewrite <- Hfix. eapply Forall_impl; [apply sanitize_safe|].
      intros c Hc. rewrite unsafeChars_spec. exact Hc. }
    split.
    { pose proof (safeFilename_head x) as Hh. rewrite Hfix in Hh.
      destruct x as [|c x]; [discriminate|]. simpl. congruence. }
    split.
    { pose proof (safeFilename_twice x) as Ht. rewrite !Hfix in Ht.
      rewrite Ht at 1. apply trimRightByte_last. }
    rewrite <- Hfix. apply safeFilename_length.
  - intros (Hsafe & Hhead & Hlast & Hlen).
    rewrite safeFilename_trimmedName. unfold trimmedName.
    rewrite ReplaceAllString_collapse.
    rewrite collapseRuns_id
      by (eapply Forall_impl; [exact Hsafe|];
          intros c Hc; unfold safeByte; rewrite <- unsafeChars_spec; exact Hc).
    unfold gostrings.Trim1. rewrite trimRightByte_id by exact Hlast.
    rewrite trimLeftByte_id
      by (destruct x as [|c x]; [exact I | simpl in Hhead; congruence]).
    apply take_ge. exact Hlen.
Qed.

Lemma unsafe_spaced c : Spec.unsafe (spaced c) = Spec.unsafe c.
Proof.
  unfold spaced. rewrite unsafeChars_spec.
  destruct (Spec.unsafe c) eqn:Hc; [vm_compute; reflexivity | exact Hc].
Qed.

Lemma collapseRuns_spaced b x :
  Spec.collapseRuns b (map spaced x) = Spec.collapseRuns b x.
Proof.
  revert b. induction x as [|c x IH]; intros b; [reflexivity|].
  cbn [map Spec.collapseRuns]. rewrite unsafe_spaced.
  destruct (Spec.unsafe c) eqn:Hc.
  - rewrite !IH. reflexivity.
  - rewrite IH. unfold spaced. rewrite unsafeChars_spec, Hc. reflexivity.
Qed.

Lemma collapseRuns_doubled b pre c d post :
  Spec.unsafe c = true -> Spec.unsafe d = true ->
  Spec.collapseRuns b (pre ++ c :: d :: post) = Spec.collapseRuns b (pre ++ c :: post).
Proof.
  intros Hc Hd. revert b. induction pre as [|a pre IH]; intros b.
  - cbn [app Spec.collapseRuns]. rewrite Hc, Hd. reflexivity.
  - cbn [app Spec.collapseRuns]. destruct (Spec.unsafe a); [destruct b|];
      rewrite IH; reflexivity.
Qed.

(** X20: the file name does not tell the unsafe characters apart, nor
    one of them from a run of them: replacing each by a space, or putting
    a further unsafe character after one of them, gives the same name, so
    different titles can share one file. *)
Theorem safeFilename_collisions x :
  docx.safeFilename (map spaced x) = docx.safeFilename x
  /\ forall pre c d post,
       x = pre ++ c :: post ->
       docx.unsafeChars c = true -> docx.unsafeChars d = true ->
       docx.safeFilename (pre ++ c :: d :: post) = docx.safeFilename x.
Proof.
  split.
  - rewrite !safeFilename_eq_sanitize. unfold Spec.sanitize.
    rewrite collapseRuns_spaced. reflexivity.
  - intros pre c d post -> Hc Hd. rewrite unsafeChars_spec in Hc, Hd.
    rewrite !safeFilename_eq_sanitize. unfold Spec.sanitize.
    rewrite collapseRuns_doubled by assumption. reflexivity.
Qed.

Lemma safeFilename_collisions_witness :
  docx.safeFilename (str "AC/:DC") = docx.safeFilename (str "AC/DC").
Proof.
  apply (proj2 (safeFilename_collisions (str "AC/DC")) (str "AC") "/"%char ":"%char (str "DC"));
    reflexivity.
Defined.

(** ** Paragraphs *)

Lemma pieceOf_cons c t s : pieceOf t s -> pieceOf t (c :: s).
Proof. intros (pre & post & ->). exists (c :: pre), post. reflexivity. Qed.

Lemma splitBlank_pieces s :
  forall b,
    match Spec.splitBlank b s with
    | [] => False
    | h :: r =>
      (b = false -> exists post, s = h ++ post)
      /\ pieceOf h s /\ Forall (fun p => pieceOf p s) r
    end.
Proof.
  induction s as [|c s IH]; intros b; cbn [Spec.splitBlank].
  - split; [intros _; exists []; reflexivity|]. split; [apply pieceOf_nil | constructor].
  - assert (match cons_head c (Spec.splitBlank false s) with
            | [] => False
            | h :: r =>
              (b = false -> exists post, c :: s = h ++ post)
              /\ pieceOf h (c :: s) /\ Forall (fun p => pieceOf p (c :: s)) r
            end) as Hcons.
    { specialize (IH false). destruct (Spec.splitBlank false s) as [|h r]; [contradiction|].
      destruct IH as (Hpre & _ & Hr). destruct (Hpre eq_refl) as [post Hpost].
      cbn [cons_head]. split; [intros _; exists post; rewrite Hpost at 1; reflexivity|].
      split; [exists [], post; rewrite Hpost at 1; reflexivity|].
      eapply Forall_impl; [exact Hr|]. intros p Hp. apply pieceOf_cons, Hp. }
    assert (match Spec.splitBlank true s with
            | [] => False
            | h :: r =>
              pieceOf h (c :: s) /\ Forall (fun p => pieceOf p (c :: s)) r
            end) as Hrun.
    { specialize (IH true). destruct (Spec.splitBlank true s) as [|h r]; [contradiction|].
      destruct IH as (_ & Hh & Hr). split; [apply pieceOf_cons, Hh|].
      eapply Forall_impl; [exact Hr|]. intros p Hp. apply pieceOf_cons, Hp. }
    destruct (is_byte LF c); [|exact Hcons].
    destruct b.
    + destruct (Spec.splitBlank true s) as [|h r]; [contradiction|].
      split; [discriminate | exact Hrun].
    + destruct (Spec.startsWithLF s); [|exact Hcons].
      split; [intros _; exists (c :: s); reflexivity|].
      split; [apply pieceOf_nil|].
      destruct (Spec.splitBlank true s) as [|h r]; [contradiction|].
      constructor; apply Hrun.
Qed.

Lemma splitBlank_piece b s p : p ∈ Spec.splitBlank b s -> pieceOf p s.
Proof.
  intros Hin. pose proof (splitBlank_pieces s b) as H.
  destruct (Spec.splitBlank b s) as [|h r]; [contradiction|].
  destruct H as (_ & Hh & Hr). apply elem_of_cons in Hin. destruct Hin as [->|Hin].
  - exact Hh.
  - rewrite Forall_forall in Hr. apply Hr, Hin.
Qed.

(** X21: every paragraph Build writes is a contiguous piece of the
    extract, with its newlines turned to spaces and no other byte changed:
    the body holds no text that is not in the extract. *)
Theorem bodyParagraphs_pieces content p :
  p ∈ docx.bodyParagraphs content ->
  exists t,
    pieceOf t content /\ t <> [] /\ p = map Spec.collapseNewline t
    /\ length p = length t.
Proof.
  rewrite bodyParagraphs_chunks. unfold Spec.chunks. intros Hin.
  apply list_elem_of_fmap in Hin. destruct Hin as (t & -> & Ht).
  apply list_elem_of_filter in Ht. destruct Ht as [Hne Ht].
  apply list_elem_of_fmap in Ht. destruct Ht as (chunk & -> & Hchunk).
  exists (gostrings.TrimSpace chunk). split.
  - eapply pieceOf_trans; [apply TrimSpace_piece|].
    eapply splitBlank_piece, Hchunk.
  - split; [intros E; rewrite E in Hne; discriminate|].
    split; [reflexivity | apply length_map].
Qed.

Lemma bodyParagraphs_pieces_witness :
  exists t, pieceOf t Examples.chunkInput /\ str "B C" = map Spec.collapseNewline t.
Proof.
  destruct (bodyParagraphs_pieces Examples.chunkInput (str "B C")) as (t & Hp & _ & Ht & _).
  - vm_compute. apply list_elem_of_further, list_elem_of_here.
  - exists t. split; assumption.
Defined.

Lemma asciiSpace_rune c :
  asciiSpace c = true -> byteZ c < 128 /\ unicode.IsSpace (byteZ c) = true.
Proof.
  unfold asciiSpace. rewrite !orb_true_iff, !is_byte_true.
  intros [[[[[->| ->]| ->]| ->]| ->]| ->]; vm_compute; split; reflexivity.
Qed.

Lemma indexFunc_go_spaces fuel :
  forall s i, Forall (fun c => asciiSpace c = true) s ->
    gostrings.indexFunc_go fuel unicode.IsSpace false s i = None.
Proof.
  induction fuel as [|fuel IH]; intros s i Hs; [reflexivity|].
  cbn [gostrings.indexFunc_go]. destruct s as [|c s]; [reflexivity|].
  inversion Hs as [|? ? Hc Hrest]; subst.
  destruct (asciiSpace_rune c Hc) as [Hlt Hsp].
  rewrite DecodeRune_ascii by exact Hlt. rewrite Hsp. cbn [Bool.eqb].
  change (drop 1 (c :: s)) with s. apply IH, Hrest.
Qed.

Lemma TrimSpace_spaces s :
  Forall (fun c => asciiSpace c = true) s -> gostrings.TrimSpace s = [].
Proof.
  intros Hs. unfold gostrings.TrimSpace, gostrings.TrimFunc, gostrings.TrimLeftFunc,
    gostrings.indexFunc.
  rewrite indexFunc_go_spaces by exact Hs. reflexivity.
Qed.

(** X22: an extract of nothing but ASCII white space (tabs, newlines,
    vertical tabs, form feeds, carriage returns, spaces), the empty
    extract among them, gives no paragraph: the document then holds the
    title alone. *)
Theorem bodyParagraphs_blank content :
  Forall (fun c => asciiSpace c = true) content ->
  docx.bodyParagraphs content = []
  /\ forall title,
       docx.buildDocumentXML title (docx.bodyParagraphs content)
       = docx.buildDocumentXML title [].
Proof.
  intros Hs.
  assert (docx.bodyParagraphs content = []) as H.
  { rewrite bodyParagraphs_chunks. unfold Spec.chunks.
    destruct (map _ (filter _ _)) as [|p l] eqn:E; [reflexivity|].
    assert (p ∈ map (map Spec.collapseNewline)
                  (filter (fun c => Spec.nonEmpty c = true)
                     (map gostrings.TrimSpace (Spec.splitBlank false content)))) as Hin
      by (rewrite E; apply list_elem_of_here).
    apply list_elem_of_fmap in Hin. destruct Hin as (t & _ & Ht).
    apply list_elem_of_filter in Ht. destruct Ht as [Hne Ht].
    apply list_elem_of_fmap in Ht. destruct Ht as (chunk & -> & Hchunk).
    rewrite TrimSpace_spaces in Hne; [discriminate|].
    eapply pieceOf_Forall; [eapply splitBlank_piece, Hchunk | exact Hs]. }
  split; [exact H|]. intros title. rewrite H. reflexivity.
Qed.

Lemma bodyParagraphs_blank_witness :
  docx.bodyParagraphs [SP; LF; LF; SP] = [].
Proof.
  apply (bodyParagraphs_blank [SP; LF; LF; SP]).
  repeat constructor.
Defined.
